(** * ShoepeWheel: the wheel core of [src/main.cpp]

    A shallow embedding of the participant registry, the IRC line handler,
    the round state machine driven by the two event loops, and the spin
    physics, together with the properties of the specification that concern
    them.

    Modelling conventions.
    - [float] values are rationals ([Q]).  In [pointer_slice_index] and in
      the accumulation of the hold time in [frame] every operation rounds
      to binary32 as the hardware does ([B32.round]: to the nearest, a tie
      to the even significand), and the constants of [pointer_slice_index]
      are the binary32 numbers of the source's literals.  The physics, the
      flash timers and the presentation helpers use exact arithmetic, a
      literal there denoting its decimal value.  NaN, the infinities and
      overflow are outside the model.
    - [int] values are [Z]; [std::string] is [string]; [std::vector] is
      [list], [push_back] appends at the end.
    - The global [app], the static counter of [random_color], the generator
      behind [global_rng] and the bytes written to the IRC socket form the
      explicit state [World], passed through every call.
    - Each function runs to completion before the next one starts: the mutex
      only serialises the two threads, so a locked region is one state
      transformer.
    - Window, renderer, font and texture handles and the background sprite
      offsets are presentation only and have no field here; the background
      section of the tick is modelled apart, on [Background].
    - The configuration file is its content as a string, the bytes of the
      chat connection are the results of the [recv] calls in order. *)

From Stdlib Require Import ZArith QArith Qround Qpower Lqa Lia Bool List.
From Stdlib Require Import Ascii String.
Import ListNotations.

Open Scope string_scope.
Open Scope list_scope.
Open Scope Z_scope.

(** ** Strings *)

Module Str.

(** [std::tolower] in the C locale, on one byte. *)
Definition tolower (c : ascii) : ascii :=
  let n := nat_of_ascii c in
  if (Nat.leb 65 n && Nat.leb n 90)%bool then ascii_of_nat (n + 32) else c.

Fixpoint map (f : ascii -> ascii) (s : string) : string :=
  match s with
  | EmptyString => EmptyString
  | String c s' => String (f c) (map f s')
  end.

(** [s.empty()] *)
Definition empty (s : string) : bool :=
  match s with EmptyString => true | _ => false end.

(** [s.find(pat, pos)]; [None] is [npos]. *)
Definition find (pat : string) (pos : nat) (s : string) : option nat :=
  String.index pos pat s.

(** [s.rfind(pat, 0) == 0]: the string starts with [pat]. *)
Definition starts_with (pat s : string) : bool := String.prefix pat s.

(** [s.substr(pos, len)] *)
Definition substr (pos len : nat) (s : string) : string :=
  String.substring pos len s.

(** [s.substr(pos)]: everything from [pos] on. *)
Definition substr_from (pos : nat) (s : string) : string :=
  String.substring pos (String.length s - pos) s.

(** [pos < s.size() && s[pos] == c] *)
Definition char_at_is (pos : nat) (c : ascii) (s : string) : bool :=
  match String.get pos s with
  | Some d => Ascii.eqb d c
  | None => false
  end.

Definition CRLF : string :=
  String (ascii_of_nat 13) (String (ascii_of_nat 10) EmptyString).

End Str.

Definition to_lower (s : string) : string := Str.map Str.tolower s.

(** ** Types *)

Record SDL_Color := mkColor { cr : Z; cg : Z; cb : Z; ca : Z }.

Record WheelEntry := mkEntry { name : string; color : SDL_Color }.

Record TwitchConfig := mkCfg { oauth : string; nick : string; channel : string }.

(** ** Colours: [random_color] *)

Definition palette : list SDL_Color :=
  [ mkColor 0 100 0 255; mkColor 100 170 120 255;
    mkColor 255 165 0 255; mkColor 240 210 60 255 ].

Definition UINT32_MOD : Z := 2 ^ 32.

(** The static [idx] is a [uint32_t]: [fetch_add] returns the old value and
    wraps.  The result is the colour and the new counter. *)
Definition random_color (idx : Z) : SDL_Color * Z :=
  (nth (Z.to_nat (idx mod 4)) palette (mkColor 0 0 0 0),
   (idx + 1) mod UINT32_MOD).

(** ** Participant registry: [add_player_if_new] *)

Definition names (entries : list WheelEntry) : list string :=
  List.map name entries.

(** [std::find_if(..., w.name == name) != entries.end()] *)
Definition has_name (nm : string) (entries : list WheelEntry) : bool :=
  existsb (fun w => String.eqb (name w) nm) entries.

Definition add_player_if_new (nm : string) (entries : list WheelEntry)
    (idx : Z) : list WheelEntry * Z :=
  if Str.empty nm then (entries, idx)
  else if has_name nm entries then (entries, idx)
  else
    let (c, idx') := random_color idx in
    (entries ++ [mkEntry nm c], idx').

(** A run of [add_player_if_new] calls, in order. *)
Fixpoint add_players (calls : list string) (entries : list WheelEntry)
    (idx : Z) : list WheelEntry * Z :=
  match calls with
  | [] => (entries, idx)
  | nm :: rest =>
      let (entries', idx') := add_player_if_new nm entries idx in
      add_players rest entries' idx'
  end.

(** The specification's reading of the resulting order: the non-empty names
    of the calls, each kept at its first occurrence only. *)
Definition first_insertions (calls : list string) : list string :=
  rev (nodup string_dec (rev (filter (fun s => negb (Str.empty s)) calls))).

(** ** Float helpers *)

Module Float.

(** [x < y] *)
Definition ltb (x y : Q) : bool := negb (Qle_bool y x).

(** [x <= y] and [y >= x] *)
Definition leb (x y : Q) : bool := Qle_bool x y.

(** [std::max(a, b)] is [(a < b) ? b : a]. *)
Definition max (a b : Q) : Q := if ltb a b then b else a.

(** [static_cast<int>(x)]: truncation toward zero. *)
Definition to_int (x : Q) : Z := Z.quot (Qnum x) (Zpos (Qden x)).

(** [static_cast<float>(n)] *)
Definition of_int (n : Z) : Q := inject_Z n.

(** [std::fmod(x, y)]: [x - k*y] with [k] the quotient [x / y] truncated
    toward zero; the result has the sign of [x] and is smaller than [y] in
    magnitude. *)
Definition fmod (x y : Q) : Q := (x - inject_Z (to_int (x / y)) * y)%Q.

End Float.

(** ** Binary32 rounding *)

Module B32.

(** Round to the nearest integer, a tie to the even one. *)
Definition rne (q : Q) : Z :=
  let f := Qfloor q in
  match Qcompare (q - inject_Z f) (1 # 2) with
  | Lt => f
  | Gt => f + 1
  | Eq => if Z.even f then f else f + 1
  end.

(** The exponent of the leading bit of a positive number. *)
Definition log2_floor (x : Q) : Z :=
  let k := Z.log2 (Qnum x) - Z.log2 (Zpos (Qden x)) in
  if Qle_bool (2 ^ k) x then k else k - 1.

(** The exponent of the unit in the last place: 24 significant bits, and
    no unit below 2^-149. *)
Definition ulp_exp (x : Q) : Z := Z.max (log2_floor x - 23) (-149).

Definition round_pos (x : Q) : Q :=
  (inject_Z (rne (x / 2 ^ ulp_exp x)) * 2 ^ ulp_exp x)%Q.

(** The binary32 number nearest to [x], a tie to the even significand; the
    result is in lowest terms.  Numbers beyond the largest binary32 number
    are rounded as if the exponent had no upper end. *)
Definition round (x : Q) : Q :=
  let x := Qred x in
  match Qcompare x 0 with
  | Eq => 0%Q
  | Gt => Qred (round_pos x)
  | Lt => Qred (- round_pos (- x))
  end.

(** The operations of [float]: the exact result, rounded. *)
Definition add (x y : Q) : Q := round (x + y).
Definition sub (x y : Q) : Q := round (x - y).
Definition mul (x y : Q) : Q := round (x * y).
Definition div (x y : Q) : Q := round (x / y).

(** [static_cast<float>(n)], also the conversion of an [int] operand. *)
Definition of_int (n : Z) : Q := round (inject_Z n).

End B32.

(** ** The external countdown timer *)

(** Modelled from the spec: [TimerState], [timer_reset], [timer_start] and
    [timer_stop] are declared nowhere under src; the specification names the
    collaborator's operations [Start(seconds)] and [Stop()].  The timer is
    the trace of the calls made to it, oldest first. *)
Inductive TimerCall : Type :=
| TimerReset (seconds : Z)
| TimerStart
| TimerStop.

Definition TimerState : Type := list TimerCall.

(** Modelled from the spec: the constant [TIMER_START_SECONDS] is missing
    from src; the call site annotates it with 60. *)
Definition TIMER_START_SECONDS : Z := 60.

(** ** Application state *)

Record AppState := mkApp {
  entries : list WheelEntry;
  current_angle : Q;
  angular_velocity : Q;
  spinning : bool;
  winner_index : Z;
  winner_flash_remaining : Q;
  winner_flash_elapsed : Q;
  celebration_active : bool;
  celebration_time : Q;
  celebration_name : string;
  celebration_color : SDL_Color;
  spin_friction : Q;
  reset_hold_active : bool;
  reset_hold_elapsed : Q;
  reset_hold_source : Z;
  authorized : bool;
  join_open : bool;
  timer : TimerState
}.

(** The initial values of the struct's member initialisers. *)
Definition app_init : AppState :=
  mkApp [] 0 0 false (-1) 0 0 false 0 "" (mkColor 255 255 255 255) 3
        false 0 0 false false [].

Definition set_entries (es : list WheelEntry) (a : AppState) : AppState :=
  mkApp es (current_angle a) (angular_velocity a) (spinning a)
    (winner_index a) (winner_flash_remaining a) (winner_flash_elapsed a)
    (celebration_active a) (celebration_time a) (celebration_name a)
    (celebration_color a) (spin_friction a) (reset_hold_active a)
    (reset_hold_elapsed a) (reset_hold_source a) (authorized a)
    (join_open a) (timer a).

Definition set_join (o : bool) (a : AppState) : AppState :=
  mkApp (entries a) (current_angle a) (angular_velocity a) (spinning a)
    (winner_index a) (winner_flash_remaining a) (winner_flash_elapsed a)
    (celebration_active a) (celebration_time a) (celebration_name a)
    (celebration_color a) (spin_friction a) (reset_hold_active a)
    (reset_hold_elapsed a) (reset_hold_source a) (authorized a)
    o (timer a).

Definition set_timer (t : TimerState) (a : AppState) : AppState :=
  mkApp (entries a) (current_angle a) (angular_velocity a) (spinning a)
    (winner_index a) (winner_flash_remaining a) (winner_flash_elapsed a)
    (celebration_active a) (celebration_time a) (celebration_name a)
    (celebration_color a) (spin_friction a) (reset_hold_active a)
    (reset_hold_elapsed a) (reset_hold_source a) (authorized a)
    (join_open a) t.

(** The three hold fields are always written together. *)
Definition set_hold (act : bool) (el : Q) (src : Z) (a : AppState)
    : AppState :=
  mkApp (entries a) (current_angle a) (angular_velocity a) (spinning a)
    (winner_index a) (winner_flash_remaining a) (winner_flash_elapsed a)
    (celebration_active a) (celebration_time a) (celebration_name a)
    (celebration_color a) (spin_friction a) act el src (authorized a)
    (join_open a) (timer a).

Definition set_flash (rem el : Q) (a : AppState) : AppState :=
  mkApp (entries a) (current_angle a) (angular_velocity a) (spinning a)
    (winner_index a) rem el
    (celebration_active a) (celebration_time a) (celebration_name a)
    (celebration_color a) (spin_friction a) (reset_hold_active a)
    (reset_hold_elapsed a) (reset_hold_source a) (authorized a)
    (join_open a) (timer a).

Definition set_celebration_time (t : Q) (a : AppState) : AppState :=
  mkApp (entries a) (current_angle a) (angular_velocity a) (spinning a)
    (winner_index a) (winner_flash_remaining a) (winner_flash_elapsed a)
    (celebration_active a) t (celebration_name a)
    (celebration_color a) (spin_friction a) (reset_hold_active a)
    (reset_hold_elapsed a) (reset_hold_source a) (authorized a)
    (join_open a) (timer a).

Definition set_angle (x : Q) (a : AppState) : AppState :=
  mkApp (entries a) x (angular_velocity a) (spinning a)
    (winner_index a) (winner_flash_remaining a) (winner_flash_elapsed a)
    (celebration_active a) (celebration_time a) (celebration_name a)
    (celebration_color a) (spin_friction a) (reset_hold_active a)
    (reset_hold_elapsed a) (reset_hold_source a) (authorized a)
    (join_open a) (timer a).

Definition set_velocity (v : Q) (a : AppState) : AppState :=
  mkApp (entries a) (current_angle a) v (spinning a)
    (winner_index a) (winner_flash_remaining a) (winner_flash_elapsed a)
    (celebration_active a) (celebration_time a) (celebration_name a)
    (celebration_color a) (spin_friction a) (reset_hold_active a)
    (reset_hold_elapsed a) (reset_hold_source a) (authorized a)
    (join_open a) (timer a).

Definition set_spinning (b : bool) (a : AppState) : AppState :=
  mkApp (entries a) (current_angle a) (angular_velocity a) b
    (winner_index a) (winner_flash_remaining a) (winner_flash_elapsed a)
    (celebration_active a) (celebration_time a) (celebration_name a)
    (celebration_color a) (spin_friction a) (reset_hold_active a)
    (reset_hold_elapsed a) (reset_hold_source a) (authorized a)
    (join_open a) (timer a).

Definition set_friction (f : Q) (a : AppState) : AppState :=
  mkApp (entries a) (current_angle a) (angular_velocity a) (spinning a)
    (winner_index a) (winner_flash_remaining a) (winner_flash_elapsed a)
    (celebration_active a) (celebration_time a) (celebration_name a)
    (celebration_color a) f (reset_hold_active a)
    (reset_hold_elapsed a) (reset_hold_source a) (authorized a)
    (join_open a) (timer a).

Definition set_winner_index (i : Z) (a : AppState) : AppState :=
  mkApp (entries a) (current_angle a) (angular_velocity a) (spinning a)
    i (winner_flash_remaining a) (winner_flash_elapsed a)
    (celebration_active a) (celebration_time a) (celebration_name a)
    (celebration_color a) (spin_friction a) (reset_hold_active a)
    (reset_hold_elapsed a) (reset_hold_source a) (authorized a)
    (join_open a) (timer a).

(** The banner fields are always written together. *)
Definition set_celebration (act : bool) (t : Q) (nm : string)
    (c : SDL_Color) (a : AppState) : AppState :=
  mkApp (entries a) (current_angle a) (angular_velocity a) (spinning a)
    (winner_index a) (winner_flash_remaining a) (winner_flash_elapsed a)
    act t nm c (spin_friction a) (reset_hold_active a)
    (reset_hold_elapsed a) (reset_hold_source a) (authorized a)
    (join_open a) (timer a).

(** ** The pseudo-random source *)

(** [std::mt19937] belongs to the standard library; the generator is the
    sequence of 32-bit words it will produce, together with the number of
    words already consumed. *)
Record Rng := mkRng { rng_words : nat -> Z; rng_pos : nat }.

Definition rng_next (r : Rng) : Z * Rng :=
  (rng_words r (rng_pos r) mod UINT32_MOD,
   mkRng (rng_words r) (S (rng_pos r))).

(** [std::generate_canonical]: one word scaled into [0, 1). *)
Definition canonical (r : Rng) : Q * Rng :=
  let (w, r') := rng_next r in ((inject_Z w / inject_Z UINT32_MOD)%Q, r').

(** [std::uniform_real_distribution<float>(a, b)(rng)] *)
Definition uniform_real_distribution (a b : Q) (r : Rng) : Q * Rng :=
  let (u, r') := canonical r in ((a + (b - a) * u)%Q, r').

(** ** Process state *)

Record World := mkWorld {
  app : AppState;
  color_idx : Z;
  rng : Rng;
  sock_out : list string
}.

Definition with_app (f : AppState -> AppState) (w : World) : World :=
  mkWorld (f (app w)) (color_idx w) (rng w) (sock_out w).

(** [add_player_if_new(name, app.entries, app.entries_mutex)] *)
Definition add_player (nm : string) (w : World) : World :=
  let (es, idx) := add_player_if_new nm (entries (app w)) (color_idx w) in
  mkWorld (set_entries es (app w)) idx (rng w) (sock_out w).

(** [send_line(sock, line)], every [send] succeeding. *)
Definition send_line (line : string) (w : World) : World :=
  mkWorld (app w) (color_idx w) (rng w)
          (sock_out w ++ [String.append line Str.CRLF]).

(** ** Chat session: one IRC line *)

Definition parse_username_from_irc_line (line : string) : string :=
  let after_tags : option nat :=
    if Str.char_at_is 0 "@" line then
      match Str.find " " 0 line with
      | None => None
      | Some space => Some (space + 1)%nat
      end
    else Some 0%nat in
  match after_tags with
  | None => ""
  | Some idx =>
      if Str.char_at_is idx ":" line then
        let prefix_start := (idx + 1)%nat in
        match Str.find "!" prefix_start line with
        | Some ex => Str.substr prefix_start (ex - prefix_start) line
        | None => ""
        end
      else ""
  end.

Definition handle_irc_line (line : string) (w : World) : World :=
  if Str.empty line then w
  else if Str.starts_with "PING" line then
    let payload := match Str.find ":" 0 line with
                   | Some colon => Str.substr_from (colon + 1) line
                   | None => "tmi.twitch.tv"
                   end in
    send_line (String.append "PONG :" payload) w
  else
    match Str.find "PRIVMSG" 0 line with
    | None => w
    | Some priv =>
        let username := parse_username_from_irc_line line in
        match Str.find " :" priv line with
        | None => w
        | Some colonAfterPriv =>
            let message := Str.substr_from (colonAfterPriv + 2) line in
            let lower := to_lower message in
            if Str.starts_with "!join" lower then
              if join_open (app w) then add_player username w
              else w
            else w
        end
    end.

(** ** Round state machine *)

(** [app.celebration_active || app.winner_index >= 0] *)
Definition winner_showing (a : AppState) : bool :=
  celebration_active a || (0 <=? winner_index a).

(** The assignments of the reset branch of [handle_spin_or_reset]. *)
Definition clear_round (a : AppState) : AppState :=
  set_join false
    (set_entries []
      (set_velocity 0
        (set_spinning false
          (set_winner_index (-1)
            (set_flash 0 0
              (set_celebration false 0 "" (celebration_color a) a)))))).

(** The assignments of a starting spin, shared by [handle_spin_or_reset] and
    [wheel_spin]; friction is drawn before speed. *)
Definition start_spin (w : World) : World :=
  let a := set_flash 0 0 (set_winner_index (-1) (set_spinning true (app w))) in
  let (f, r1) := uniform_real_distribution 1.8 5.6 (rng w) in
  let (v, r2) := uniform_real_distribution 10 13 r1 in
  mkWorld (set_velocity v (set_friction f a)) (color_idx w) r2 (sock_out w).

Definition handle_spin_or_reset (cfg : TwitchConfig) (w : World) : World :=
  let a := app w in
  if winner_showing a then
    let w1 := with_app clear_round w in
    if negb (Str.empty (nick cfg)) then add_player (nick cfg) w1 else w1
  else if (2 <=? Z.of_nat (List.length (entries a)))
          && negb (spinning a) && negb (join_open a) then
    start_spin w
  else w.

Definition set_join_open (open : bool) (a : AppState) : AppState :=
  let wasOpen := join_open a in
  if Bool.eqb wasOpen open then a
  else
    let a1 := set_join open a in
    if open then
      set_timer (timer a1 ++ [TimerReset TIMER_START_SECONDS; TimerStart]) a1
    else
      set_timer (timer a1 ++ [TimerStop]) a1.

(** [wheel_spin], exported to the page in the web build. *)
Definition wheel_spin (w : World) : World :=
  let a := app w in
  if (Z.of_nat (List.length (entries a)) <? 2) || spinning a then w
  else if join_open a then w
  else start_spin w.

(** ** Spin physics *)

(** [3.14159265358979323846f]: the binary32 number nearest to the literal,
    13176795 * 2^-22.  Doubling and halving are exact in binary32. *)
Definition PI : Q := (13176795 # 4194304)%Q.
Definition TWO_PI : Q := (2 * PI)%Q.
Definition POINTER_ANGLE : Q := (- PI * 0.5)%Q.

(** [pointer_slice_index]: the difference, the wrap-around addition and the
    two quotients round to binary32; [std::fmod] is exact. *)
Definition pointer_slice_index (angle : Q) (n : Z) : Z :=
  if n <=? 0 then -1
  else
    let sliceAngle := B32.div TWO_PI (B32.of_int n) in
    let a := Float.fmod (B32.sub POINTER_ANGLE angle) TWO_PI in
    let a := if Float.ltb a 0 then B32.add a TWO_PI else a in
    let index := Float.to_int (B32.div a sliceAngle) in
    if index >=? n then n - 1 else index.

(** The bearing [pointer_slice_index] divides by the slice width: its
    variable [a] after the wrap. *)
Definition pointer_bearing (angle : Q) : Q :=
  let a := Float.fmod (B32.sub POINTER_ANGLE angle) TWO_PI in
  if Float.ltb a 0 then B32.add a TWO_PI else a.

(** The hold section of [frame]; the accumulation rounds to binary32. *)
Definition frame_hold (cfg : TwitchConfig) (dt : Q) (w : World) : World :=
  let a := app w in
  if reset_hold_active a then
    if negb (winner_showing a) then with_app (set_hold false 0 0) w
    else
      let elapsed := B32.add (reset_hold_elapsed a) dt in
      let requiredHold : Q := 1%Q in
      if Float.leb requiredHold elapsed then
        handle_spin_or_reset cfg (with_app (set_hold false 0 0) w)
      else
        with_app (set_hold true elapsed (reset_hold_source a)) w
  else w.

(** The wrapped angle after one advance. *)
Definition advance_angle (angle velocity dt : Q) : Q :=
  let x := Float.fmod (angle + velocity * dt)%Q TWO_PI in
  if Float.ltb x 0 then (x + TWO_PI)%Q else x.

(** The physics section of [frame]; [entriesCopy] and [n] were taken at the
    top of the function. *)
Definition frame_physics (entriesCopy : list WheelEntry) (n : Z) (dt : Q)
    (a : AppState) : AppState :=
  if spinning a && (0 <? n) then
    let a1 := set_angle
                (advance_angle (current_angle a) (angular_velocity a) dt) a in
    let friction := Float.max 0 (spin_friction a1) in
    let a2 := set_velocity (angular_velocity a1 - friction * dt)%Q a1 in
    if Float.leb (angular_velocity a2) 0 then
      let a3 := set_spinning false (set_velocity 0 a2) in
      if 0 <? n then
        let idx := pointer_slice_index (current_angle a3) n in
        if (0 <=? idx) && (idx <? n) then
          let e := nth (Z.to_nat idx) entriesCopy (mkEntry "" (mkColor 0 0 0 0)) in
          set_flash 2 0
            (set_celebration true 0 (name e) (color e)
              (set_winner_index idx a3))
        else a3
      else a3
    else a2
  else a.

(** The flash section of [frame]. *)
Definition frame_flash (dt : Q) (a : AppState) : AppState :=
  if Float.ltb 0 (winner_flash_remaining a) then
    let rem := (winner_flash_remaining a - dt)%Q in
    let el := (winner_flash_elapsed a + dt)%Q in
    set_flash (if Float.ltb rem 0 then 0 else rem) el a
  else a.

(** The banner timer of [frame]. *)
Definition frame_celebration (dt : Q) (a : AppState) : AppState :=
  if celebration_active a then
    set_celebration_time (celebration_time a + dt)%Q a
  else a.

(** The physics, flash and banner sections, in source order. *)
Definition frame_tail (es : list WheelEntry) (n : Z) (dt : Q) (a : AppState)
    : AppState :=
  frame_celebration dt (frame_flash dt (frame_physics es n dt a)).

(** One tick: the state updates of [frame], in source order. *)
Definition frame (cfg : TwitchConfig) (dt : Q) (w : World) : World :=
  let entriesCopy := entries (app w) in
  let n := Z.of_nat (List.length entriesCopy) in
  let w1 := frame_hold cfg dt w in
  with_app (frame_tail entriesCopy n dt) w1.

(** Successive ticks. *)
Fixpoint frames (cfg : TwitchConfig) (dts : list Q) (w : World) : World :=
  match dts with
  | [] => w
  | dt :: rest => frames cfg rest (frame cfg dt w)
  end.

(** [k] ticks of the same length. *)
Fixpoint frame_iter (cfg : TwitchConfig) (dt : Q) (k : nat) (w : World)
    : World :=
  match k with
  | O => w
  | S k' => frame_iter cfg dt k' (frame cfg dt w)
  end.

(** ** Input events *)

Inductive SDL_Keycode : Type := SDLK_SPACE | SDLK_ESCAPE | SDLK_OTHER.

Inductive SDL_Button : Type :=
  SDL_BUTTON_LEFT | SDL_BUTTON_RIGHT | SDL_BUTTON_MIDDLE.

Inductive SDL_Event : Type :=
| SDL_EVENT_QUIT
| SDL_EVENT_KEY_DOWN (key : SDL_Keycode)
| SDL_EVENT_KEY_UP (key : SDL_Keycode)
| SDL_EVENT_MOUSE_BUTTON_DOWN (button : SDL_Button)
| SDL_EVENT_MOUSE_BUTTON_UP (button : SDL_Button)
| SDL_EVENT_OTHER.

(** Start a hold from [src] unless one is already running. *)
Definition begin_hold (src : Z) (a : AppState) : AppState :=
  if negb (reset_hold_active a) then set_hold true 0 src a else a.

(** Release of the input [src]. *)
Definition release_hold (src : Z) (a : AppState) : AppState :=
  if reset_hold_source a =? src then set_hold false 0 0 a else a.

(** One polled event in the desktop loop of [main]. *)
Definition native_event (cfg : TwitchConfig) (e : SDL_Event) (w : World)
    : World :=
  match e with
  | SDL_EVENT_KEY_DOWN SDLK_SPACE =>
      if winner_showing (app w) then with_app (begin_hold 1) w
      else handle_spin_or_reset cfg w
  | SDL_EVENT_KEY_UP SDLK_SPACE => with_app (release_hold 1) w
  | SDL_EVENT_MOUSE_BUTTON_DOWN SDL_BUTTON_LEFT =>
      if winner_showing (app w) then with_app (begin_hold 2) w
      else handle_spin_or_reset cfg w
  | SDL_EVENT_MOUSE_BUTTON_DOWN SDL_BUTTON_RIGHT =>
      with_app (fun a => set_join (negb (join_open a)) a) w
  | SDL_EVENT_MOUSE_BUTTON_UP SDL_BUTTON_LEFT => with_app (release_hold 2) w
  | _ => w
  end.

(** The desktop loop leaves on a quit event or the escape key. *)
Definition native_quit (e : SDL_Event) : bool :=
  match e with
  | SDL_EVENT_QUIT | SDL_EVENT_KEY_DOWN SDLK_ESCAPE => true
  | _ => false
  end.

(** One polled event in the browser loop of [main]. *)
Definition web_event (cfg : TwitchConfig) (e : SDL_Event) (w : World)
    : World :=
  match e with
  | SDL_EVENT_KEY_DOWN SDLK_SPACE =>
      if join_open (app w) then w
      else if winner_showing (app w) then with_app (begin_hold 1) w
      else handle_spin_or_reset cfg w
  | SDL_EVENT_KEY_UP SDLK_SPACE => with_app (release_hold 1) w
  | SDL_EVENT_MOUSE_BUTTON_DOWN SDL_BUTTON_LEFT =>
      if join_open (app w) then w
      else if winner_showing (app w) then with_app (begin_hold 2) w
      else handle_spin_or_reset cfg w
  | SDL_EVENT_MOUSE_BUTTON_DOWN SDL_BUTTON_RIGHT =>
      if winner_showing (app w) then w
      else with_app (fun a => set_join (negb (join_open a)) a) w
  | SDL_EVENT_MOUSE_BUTTON_UP SDL_BUTTON_LEFT => with_app (release_hold 2) w
  | _ => w
  end.

(** The two builds; the spin trigger is the space key or the left button. *)
Inductive Build : Type := Desktop | Browser.

Definition poll_event (b : Build) : TwitchConfig -> SDL_Event -> World -> World :=
  match b with Desktop => native_event | Browser => web_event end.

Definition is_spin_trigger (e : SDL_Event) : bool :=
  match e with
  | SDL_EVENT_KEY_DOWN SDLK_SPACE
  | SDL_EVENT_MOUSE_BUTTON_DOWN SDL_BUTTON_LEFT => true
  | _ => false
  end.

Definition is_toggle_engagement (e : SDL_Event) : bool :=
  match e with
  | SDL_EVENT_MOUSE_BUTTON_DOWN SDL_BUTTON_RIGHT => true
  | _ => false
  end.

(** ** Notions of the specification *)

(** The mathematical remainder: [x] minus the largest multiple of [y] not
    above it. *)
Definition floor_mod (y x : Q) : Q :=
  (x - inject_Z (Qfloor (x / y)) * y)%Q.

(** The specification's [normalize]: the representative in [0, 2 pi). *)
Definition normalize (x : Q) : Q := floor_mod TWO_PI x.

(** The specification's winning slice in exact arithmetic, for a number [pi]
    taken for the circle constant: floor (normalize (referenceBearing -
    rotationAngle) / sliceWidth) with referenceBearing - pi / 2 and
    sliceWidth 2 pi / n, clamped into [0, n - 1]. *)
Definition claimed_index (pi angle : Q) (n : Z) : Z :=
  let bearing := floor_mod (2 * pi) (- (pi / 2) - angle) in
  let slice := (2 * pi / inject_Z n)%Q in
  Z.max 0 (Z.min (Qfloor (bearing / slice)) (n - 1)).

(** The specification's accumulated time of a run of ticks: their exact
    sum.  The code's own accumulator is [hold_elapsed]. *)
Definition total_time (dts : list Q) : Q := fold_right Qplus 0%Q dts.

(** The hold time the code has accumulated after the ticks [dts], from
    [acc]: [reset_hold_elapsed += dt] at every tick, rounded to binary32. *)
Fixpoint hold_elapsed (acc : Q) (dts : list Q) : Q :=
  match dts with
  | [] => acc
  | dt :: rest => hold_elapsed (B32.add acc dt) rest
  end.

(** The tick of 25 ms as both loops pass it: the milliseconds as a
    [float], divided by [1000.0f]. *)
Definition dt_25ms : Q := B32.div (B32.of_int 25) 1000.

(** The accumulated hold time stays below the threshold at every tick of
    [dts]. *)
Fixpoint hold_below (acc : Q) (dts : list Q) : Prop :=
  match dts with
  | [] => True
  | dt :: rest => (B32.add acc dt < 1)%Q /\ hold_below (B32.add acc dt) rest
  end.

(** The state after a round reset: no winner, no banner, flash timers zero,
    wheel at rest, gate closed, no hold, and the registry holding the
    configured host alone (coloured by the palette cursor [idx]) or nothing
    when no host nick is configured. *)
Definition round_reset (cfg : TwitchConfig) (idx : Z) (a : AppState) : Prop :=
  winner_index a = -1 /\ celebration_active a = false /\
  celebration_time a = 0%Q /\ celebration_name a = "" /\
  winner_flash_remaining a = 0%Q /\ winner_flash_elapsed a = 0%Q /\
  spinning a = false /\ angular_velocity a = 0%Q /\
  join_open a = false /\ reset_hold_active a = false /\
  entries a =
    if Str.empty (nick cfg) then []
    else [mkEntry (nick cfg) (fst (random_color idx))].

(** No hold is running on a shown winner. *)
Definition no_hold_on_winner (a : AppState) : Prop :=
  reset_hold_active a = false \/ winner_showing a = false.

Definition timer_call_eqb (x y : TimerCall) : bool :=
  match x, y with
  | TimerReset a, TimerReset b => a =? b
  | TimerStart, TimerStart => true
  | TimerStop, TimerStop => true
  | _, _ => false
  end.

(** How many times the call [c] was issued. *)
Definition issued (c : TimerCall) (t : TimerState) : nat :=
  List.length (filter (timer_call_eqb c) t).

(** ** Sample states *)

Definition host_cfg : TwitchConfig := mkCfg "oauth:token" "host" "#host".

(** A generator whose every word is the middle of the range. *)
Definition rng_half : Rng := mkRng (fun _ => 2 ^ 31) 0.

(** Two participants on the wheel, gate closed. *)
Definition two_players : World :=
  add_player "bob" (add_player "alice" (mkWorld app_init 0 rng_half [])).

(** The space key starts a spin. *)
Definition spun : World :=
  native_event host_cfg (SDL_EVENT_KEY_DOWN SDLK_SPACE) two_players.

(** A four-second tick brings the wheel to rest and shows the winner. *)
Definition winner_shown : World := frame host_cfg 4 spun.


(** ** The page's entry points and authorisation *)

Definition ALLOWED : list string := ["cbf01"; "shoepert"].

Definition is_stream_allowed (nick channel : string) : bool :=
  let n := to_lower nick in
  let ch := if negb (Str.empty channel) && Str.char_at_is 0 "#" channel
            then Str.substr_from 1 channel else channel in
  let ch := to_lower ch in
  existsb (fun allowed => String.eqb n allowed || String.eqb ch allowed)
          ALLOWED.

Definition set_authorized (b : bool) (a : AppState) : AppState :=
  mkApp (entries a) (current_angle a) (angular_velocity a) (spinning a)
    (winner_index a) (winner_flash_remaining a) (winner_flash_elapsed a)
    (celebration_active a) (celebration_time a) (celebration_name a)
    (celebration_color a) (spin_friction a) (reset_hold_active a)
    (reset_hold_elapsed a) (reset_hold_source a) b
    (join_open a) (timer a).

(** [wheel_join(user)]; [None] is the null pointer.  The global
    [g_twitch_cfg] is the argument [cfg]. *)
Definition wheel_join (user : option string) (cfg : TwitchConfig) (w : World)
    : World :=
  match user with
  | None => w
  | Some u =>
      if Str.empty u then w
      else if join_open (app w)
              || (match entries (app w) with [] => true | _ => false end
                  && String.eqb (nick cfg) u)
      then add_player u w
      else w
  end.

(** [wheel_set_host(nick, channel)]: the new [g_twitch_cfg] and state. *)
Definition wheel_set_host (nk ch : option string) (cfg : TwitchConfig)
    (w : World) : TwitchConfig * World :=
  let cfg' := mkCfg (oauth cfg)
                (match nk with Some s => s | None => "" end)
                (match ch with Some s => s | None => "" end) in
  (cfg', with_app (set_authorized
                     (is_stream_allowed (nick cfg') (channel cfg'))) w).

(** The assignments of the locked region of [wheel_reset]. *)
Definition wheel_clear (a : AppState) : AppState :=
  set_celebration false 0 "" (celebration_color a)
    (set_winner_index (-1)
      (set_velocity 0
        (set_spinning false
          (set_join false
            (set_entries [] a))))).

Definition wheel_reset (cfg : TwitchConfig) (w : World) : World :=
  let w1 := with_app wheel_clear w in
  if negb (Str.empty (nick cfg)) then add_player (nick cfg) w1 else w1.

(** ** Configuration file *)

(** [set.find(c) != npos] *)
Fixpoint in_set (c : ascii) (set : string) : bool :=
  match set with
  | EmptyString => false
  | String d rest => Ascii.eqb c d || in_set c rest
  end.

(** The blanks of [trim_in_place]: space, tab, carriage return, newline. *)
Definition BLANKS : string :=
  String " " (String (ascii_of_nat 9)
    (String (ascii_of_nat 13) (String (ascii_of_nat 10) EmptyString))).

(** [s.find_first_not_of(set)] *)
Fixpoint find_first_not_of (set s : string) : option nat :=
  match s with
  | EmptyString => None
  | String c rest =>
      if in_set c set then option_map S (find_first_not_of set rest)
      else Some 0%nat
  end.

(** [s.find_last_not_of(set)] *)
Fixpoint find_last_not_of (set s : string) : option nat :=
  match s with
  | EmptyString => None
  | String c rest =>
      match find_last_not_of set rest with
      | Some i => Some (S i)
      | None => if in_set c set then None else Some 0%nat
      end
  end.

(** [trim_in_place(s)]: the new value of [s].  The source does not test
    [last] against [npos]; with [size_t] arithmetic the length
    [npos - first + 1] is then zero for [first = 0] and reaches the end of
    the string otherwise. *)
Definition trim_in_place (s : string) : string :=
  match find_first_not_of BLANKS s with
  | None => ""
  | Some first =>
      match find_last_not_of BLANKS s with
      | Some last => Str.substr first (last - first + 1) s
      | None => if Nat.eqb first 0 then "" else Str.substr_from first s
      end
  end.

(** The body of the [getline] loop of [load_twitch_config] for one line. *)
Definition config_line (line : string) (out : TwitchConfig) : TwitchConfig :=
  let line := trim_in_place line in
  if Str.empty line || Str.char_at_is 0 "#" line then out
  else
    match Str.find "=" 0 line with
    | None => out
    | Some eq =>
        let key := trim_in_place (Str.substr 0 eq line) in
        let value := trim_in_place (Str.substr_from (eq + 1) line) in
        let lkey := to_lower key in
        if String.eqb lkey "oauth" then mkCfg value (nick out) (channel out)
        else if String.eqb lkey "nick" then
          mkCfg (oauth out) value (channel out)
        else if String.eqb lkey "channel" then
          mkCfg (oauth out) (nick out) value
        else out
    end.

(** The lines [std::getline] yields for a file's content: split at each
    newline, a last line without newline included, nothing after a final
    newline. *)
Fixpoint getlines (content : string) : list string :=
  match content with
  | EmptyString => []
  | String c rest =>
      if Ascii.eqb c (ascii_of_nat 10) then EmptyString :: getlines rest
      else
        match getlines rest with
        | [] => [String c EmptyString]
        | l :: ls => String c l :: ls
        end
  end.

(** [load_twitch_config(path, out)]: the returned flag and the new [out];
    [None] is a file that cannot be opened. *)
Definition load_twitch_config (file : option string) (out : TwitchConfig)
    : bool * TwitchConfig :=
  match file with
  | None => (false, out)
  | Some content =>
      (true, fold_left (fun o l => config_line l o) (getlines content) out)
  end.

(** ** Chat session: framing the received bytes *)

(** What [recvBuffer.append(buffer)] takes of a received chunk, [buffer]
    being a C string: the bytes before the first NUL. *)
Fixpoint until_nul (chunk : string) : string :=
  match chunk with
  | EmptyString => EmptyString
  | String c rest =>
      if Ascii.eqb c zero then EmptyString else String c (until_nul rest)
  end.

(** The inner loop of [twitch_chat_thread]: while the buffer holds a line
    terminator, cut the line off and handle it.  Each round shortens the
    buffer, so [fuel] rounds with [fuel] the buffer's length are enough. *)
Fixpoint drain_lines (fuel : nat) (recvBuffer : string) (w : World)
    : string * World :=
  match fuel with
  | O => (recvBuffer, w)
  | S fuel' =>
      match Str.find Str.CRLF 0 recvBuffer with
      | None => (recvBuffer, w)
      | Some pos =>
          let line := Str.substr 0 pos recvBuffer in
          let recvBuffer' := Str.substr_from (pos + 2) recvBuffer in
          drain_lines fuel' recvBuffer' (handle_irc_line line w)
      end
  end.

(** One successful [recv]: append the chunk and drain the complete lines. *)
Definition on_receive (chunk : string) (st : string * World)
    : string * World :=
  let recvBuffer := String.append (fst st) (until_nul chunk) in
  drain_lines (String.length recvBuffer) recvBuffer (snd st).

(** The results of [recv] seen by the loop. *)
Inductive RecvResult : Type :=
| RecvTimeout
| RecvError
| RecvClosed
| RecvData (chunk : string).

(** The receive loop of [twitch_chat_thread] over the results [recv] gives
    while [running] stays set: a timeout goes round again, an error or a
    zero-length read leaves the loop. *)
Fixpoint receive_loop (results : list RecvResult) (st : string * World)
    : string * World :=
  match results with
  | [] => st
  | RecvTimeout :: rest => receive_loop rest st
  | RecvError :: _ => st
  | RecvClosed :: _ => st
  | RecvData chunk :: rest => receive_loop rest (on_receive chunk st)
  end.

(** The lines a buffer holds, and what is left after them. *)
Fixpoint buffer_lines (fuel : nat) (recvBuffer : string)
    : list string * string :=
  match fuel with
  | O => ([], recvBuffer)
  | S fuel' =>
      match Str.find Str.CRLF 0 recvBuffer with
      | None => ([], recvBuffer)
      | Some pos =>
          let (ls, rest) :=
            buffer_lines fuel' (Str.substr_from (pos + 2) recvBuffer) in
          (Str.substr 0 pos recvBuffer :: ls, rest)
      end
  end.

(** ** Presentation helpers *)

(** [hash_u32]: each step on a [uint32_t]. *)
Definition hash_u32 (x : Z) : Z :=
  let x := Z.lxor x (Z.shiftr x 16) in
  let x := (x * 0x7feb352d) mod UINT32_MOD in
  let x := Z.lxor x (Z.shiftr x 15) in
  let x := (x * 0x846ca68b) mod UINT32_MOD in
  Z.lxor x (Z.shiftr x 16).

(** [(uint32_t)n] for an [int] *)
Definition to_u32 (n : Z) : Z := n mod UINT32_MOD.

Definition stable_tile_scale (gx gy : Z) : Q :=
  let h := hash_u32 (Z.lxor ((to_u32 gx * 73856093) mod UINT32_MOD)
                            ((to_u32 gy * 19349663) mod UINT32_MOD)) in
  let t := (inject_Z (Z.land h 0xFFFF) / 65535)%Q in
  (0.5 + t * 0.3)%Q.

(** [std::min(a, b)] is [(b < a) ? b : a]. *)
Definition std_min (a b : Q) : Q := if Float.ltb b a then b else a.

Definition clamp01 (t : Q) : Q := Float.max 0 (std_min 1 t).

Definition ease_out_cubic (t : Q) : Q :=
  let t := clamp01 t in
  let u := (1 - t)%Q in
  (1 - u * u * u)%Q.

(** [readable_text_color]; the channels of [bg] are bytes. *)
Definition readable_text_color (bg : SDL_Color) : SDL_Color :=
  let lum := Float.to_int (0.2126 * Float.of_int (cr bg)
                           + 0.7152 * Float.of_int (cg bg)
                           + 0.0722 * Float.of_int (cb bg))%Q in
  if lum <? 120 then mkColor 255 255 255 255 else mkColor 0 0 0 255.

(** The background sprites: offsets and rotation. *)
Record Background := mkBackground {
  bg_waka_offset_x : Q;
  bg_waka_offset_y : Q;
  bg_waka_angle_deg : Q
}.

(** The background section of [frame]; [winW] and [winH] are what
    [SDL_GetRenderOutputSize] reports. *)
Definition frame_background (dt : Q) (winW winH : Z) (b : Background)
    : Background :=
  let bgSpeed : Q := 60%Q in
  let rotSpeed : Q := 60%Q in
  let x := (bg_waka_offset_x b + bgSpeed * 0.6 * dt)%Q in
  let y := (bg_waka_offset_y b + bgSpeed * 0.35 * dt)%Q in
  let a := (bg_waka_angle_deg b + rotSpeed * dt)%Q in
  let a := if Float.leb 360 a then (a - 360)%Q
           else if Float.ltb a 0 then (a + 360)%Q else a in
  let x := if 0 <? winW then
             let x := Float.fmod x (Float.of_int winW) in
             if Float.ltb x 0 then (x + Float.of_int winW)%Q else x
           else x in
  let y := if 0 <? winH then
             let y := Float.fmod y (Float.of_int winH) in
             if Float.ltb y 0 then (y + Float.of_int winH)%Q else y
           else y in
  mkBackground x y a.

(** ** Operations of the running program *)

(** One step of the program as the two threads and the page interleave:
    a tick, a polled event, a chat line, or a call of an exported entry
    point. *)
Inductive Op : Type :=
| OpFrame (dt : Q)
| OpEvent (b : Build) (e : SDL_Event)
| OpLine (line : string)
| OpJoin (user : option string)
| OpReset
| OpSpin.

Definition run_op (cfg : TwitchConfig) (op : Op) (w : World) : World :=
  match op with
  | OpFrame dt => frame cfg dt w
  | OpEvent b e => poll_event b cfg e w
  | OpLine line => handle_irc_line line w
  | OpJoin user => wheel_join user cfg w
  | OpReset => wheel_reset cfg w
  | OpSpin => wheel_spin w
  end.

Fixpoint run_ops (cfg : TwitchConfig) (ops : list Op) (w : World) : World :=
  match ops with
  | [] => w
  | op :: rest => run_ops cfg rest (run_op cfg op w)
  end.

(** The input whose release ends a hold: 1 for the space key, 2 for the left
    button. *)
Definition release_source (e : SDL_Event) : option Z :=
  match e with
  | SDL_EVENT_KEY_UP SDLK_SPACE => Some 1
  | SDL_EVENT_MOUSE_BUTTON_UP SDL_BUTTON_LEFT => Some 2
  | _ => None
  end.

(** A blank of [trim_in_place]. *)
Definition blank (c : ascii) : bool := in_set c BLANKS.

Fixpoint all_blank (s : string) : bool :=
  match s with
  | EmptyString => true
  | String c rest => blank c && all_blank rest
  end.

Fixpoint last_char (s : string) : option ascii :=
  match s with
  | EmptyString => None
  | String c EmptyString => Some c
  | String _ rest => last_char rest
  end.

(** Neither the first nor the last character is a blank. *)
Definition clean (s : string) : bool :=
  match s, last_char s with
  | String c _, Some d => negb (blank c) && negb (blank d)
  | _, _ => true
  end.

Definition clean_cfg (c : TwitchConfig) : bool :=
  clean (oauth c) && clean (nick c) && clean (channel c).

(** What [find_last_not_of] and [substr] leave of the right end. *)
Definition rstrip (s : string) : string :=
  match find_last_not_of BLANKS s with
  | Some l => String.substring 0 (l + 1) s
  | None => ""
  end.

(** A character a key of the configuration file can be made of: no blank,
    no equals sign, no comment sign. *)
Definition plain (c : ascii) : bool :=
  negb (blank c) && negb (Ascii.eqb c "="%char)
    && negb (Ascii.eqb c "#"%char).

Fixpoint all_plain (s : string) : bool :=
  match s with
  | EmptyString => true
  | String c rest => plain c && all_plain rest
  end.

(** No character of [s] is [c]. *)
Fixpoint lacks (c : ascii) (s : string) : bool :=
  match s with
  | EmptyString => true
  | String d rest => negb (Ascii.eqb d c) && lacks c rest
  end.

(** A configuration line: blanks, key, blanks, equals sign, blanks, value,
    blanks. *)
Definition assignment (a key b c value d : string) : string :=
  String.append a (String.append key (String.append b
    (String "=" (String.append c (String.append value d))))).

(** No space is followed by a colon in [s], [prev_space] telling whether a
    space stands before [s]. *)
Fixpoint space_colon_free (prev_space : bool) (s : string) : bool :=
  match s with
  | EmptyString => true
  | String c rest =>
      negb (prev_space && Ascii.eqb c ":"%char)
        && space_colon_free (Ascii.eqb c " "%char) rest
  end.

(** A chat message as the server relays it:
    [:user!host PRIVMSG chan :msg]. *)
Definition privmsg (user host chan msg : string) : string :=
  String ":" (String.append user (String "!" (String.append host
    (String.append " PRIVMSG " (String.append chan
      (String.append " :" msg)))))).

(** The part of [privmsg] before the space-colon that opens the text. *)
Definition privmsg_head (user host chan : string) : string :=
  String ":" (String.append user (String "!" (String.append host
    (String.append " PRIVMSG " chan)))).

(** The inner loop with the fuel [on_receive] gives it. *)
Definition drain (recvBuffer : string) (w : World) : string * World :=
  drain_lines (String.length recvBuffer) recvBuffer w.

(** The bytes the receive loop appends to its buffer, over a run of [recv]
    results. *)
Fixpoint stream (results : list RecvResult) : string :=
  match results with
  | [] => ""
  | RecvTimeout :: rest => stream rest
  | RecvError :: _ => ""
  | RecvClosed :: _ => ""
  | RecvData chunk :: rest => String.append (until_nul chunk) (stream rest)
  end.

(** Lines on the wire: each followed by its terminator. *)
Definition framed (ls : list string) : string :=
  fold_right (fun l s => String.append l (String.append Str.CRLF s)) "" ls.

(** [handle_irc_line] on each line in turn. *)
Definition handle_lines (ls : list string) (w : World) : World :=
  fold_left (fun w l => handle_irc_line l w) ls w.

(** The palette entry the colour cursor [k] selects. *)
Definition palette_at (k : Z) : SDL_Color :=
  nth (Z.to_nat (k mod 4)) palette (mkColor 0 0 0 0).

(** The entries carry the palette's colours in order, the last one the
    colour just before the cursor [idx]. *)
Definition palette_order (es : list WheelEntry) (idx : Z) : Prop :=
  forall i e, nth_error es i = Some e ->
    color e = palette_at (idx - Z.of_nat (List.length es) + Z.of_nat i).

Definition world_order (w : World) : Prop :=
  palette_order (entries (app w)) (color_idx w).

(** A keepalive probe, as [handle_irc_line] tells it. *)
Definition is_ping (line : string) : bool := Str.starts_with "PING" line.

(** A tick advances time by a non-negative amount. *)
Definition forward_in_time (op : Op) : Prop :=
  match op with
  | OpFrame dt => (0 <= dt)%Q
  | _ => True
  end.

(** * Properties *)

(** Expose the fields of a process state. *)
Ltac open_world w :=
  let a := fresh "a" in
  destruct w as [a ? ? ?]; destruct a; simpl in *.

(** Case analysis on every test of the goal. *)
Ltac break_ifs :=
  repeat match goal with
         | |- context [if ?c then _ else _] => destruct c eqn:?
         end.

(** ** Worked examples *)

Example pointer_slice_index_values :
  pointer_slice_index 0 4 = 3 /\
  pointer_slice_index (PI / 2) 4 = 2 /\
  pointer_slice_index (- PI / 2) 4 = 0 /\
  pointer_slice_index 100 7 = 5 /\
  pointer_slice_index 1 0 = -1.
Proof. vm_compute. repeat split. Qed.

(** Scenario B: two participants, the space key, one long tick. *)
Example spin_then_winner :
  spinning (app spun) = true /\
  spinning (app winner_shown) = false /\
  winner_index (app winner_shown) = 0 /\
  celebration_name (app winner_shown) = "alice".
Proof. vm_compute. repeat split. Qed.

(** Scenario C: half a second of hold keeps the winner; release clears the
    hold. *)
Example hold_released_early :
  let held := native_event host_cfg (SDL_EVENT_KEY_DOWN SDLK_SPACE)
                winner_shown in
  let half := frame host_cfg 0.5 held in
  let released := native_event host_cfg (SDL_EVENT_KEY_UP SDLK_SPACE) half in
  reset_hold_active (app half) = true /\ winner_showing (app half) = true /\
  reset_hold_active (app released) = false /\
  winner_showing (app released) = true.
Proof. vm_compute. repeat split. Qed.

(** Keepalive: one probe, one reply with the same payload. *)
Example ping_pong :
  sock_out (handle_irc_line "PING :tmi.example.org" two_players)
    = [String.append "PONG :tmi.example.org" Str.CRLF].
Proof. reflexivity. Qed.

(** The join command is matched as a prefix, in any case, and only while the
    gate is open. *)
Example join_command :
  let line := ":carol!carol@carol.tmi.twitch.tv PRIVMSG #host :!JOINed" in
  names (entries (app (handle_irc_line line
                         (with_app (set_join true) two_players))))
    = ["alice"; "bob"; "carol"] /\
  names (entries (app (handle_irc_line line two_players))) = ["alice"; "bob"].
Proof. vm_compute. repeat split. Qed.

(** ** Registry *)

Lemma empty_true_iff (s : string) : Str.empty s = true <-> s = "".
Proof. destruct s; simpl; split; congruence. Qed.

Lemma has_name_In (nm : string) (es : list WheelEntry) :
  has_name nm es = true <-> In nm (names es).
Proof.
  unfold has_name, names. rewrite existsb_exists. split.
  - intros [w [Hin Heq]]. apply String.eqb_eq in Heq. subst nm.
    now apply in_map.
  - intros Hin. apply in_map_iff in Hin. destruct Hin as [w [Heq Hin]].
    exists w. split; [assumption|]. now apply String.eqb_eq.
Qed.

Lemma has_name_false (nm : string) (es : list WheelEntry) :
  has_name nm es = false <-> ~ In nm (names es).
Proof.
  rewrite <- has_name_In. destruct (has_name nm es); split; congruence.
Qed.

(** What one call does to the list of names. *)
Lemma add_player_if_new_names (nm : string) (es : list WheelEntry) (idx : Z) :
  names (fst (add_player_if_new nm es idx)) =
    if Str.empty nm || has_name nm es then names es else names es ++ [nm].
Proof.
  unfold add_player_if_new.
  destruct (Str.empty nm); simpl; [reflexivity|].
  destruct (has_name nm es); simpl; [reflexivity|].
  unfold names. now rewrite map_app.
Qed.

Lemma add_player_if_new_NoDup (nm : string) (es : list WheelEntry) (idx : Z) :
  NoDup (names es) -> NoDup (names (fst (add_player_if_new nm es idx))).
Proof.
  intros Hnd. rewrite add_player_if_new_names.
  destruct (Str.empty nm); simpl; [assumption|].
  destruct (has_name nm es) eqn:Hhas; [assumption|].
  apply has_name_false in Hhas.
  assert (H : NoDup (nm :: rev (names es))).
  { constructor; [now rewrite <- in_rev | now apply NoDup_rev]. }
  apply NoDup_rev in H. simpl in H. now rewrite rev_involutive in H.
Qed.

Lemma add_players_NoDup (calls : list string) :
  forall es idx,
    NoDup (names es) -> NoDup (names (fst (add_players calls es idx))).
Proof.
  induction calls as [|c cs IH]; intros es idx Hnd; simpl; [assumption|].
  pose proof (add_player_if_new_NoDup c es idx Hnd) as Hstep.
  destruct (add_player_if_new c es idx) as [es' idx']. simpl in Hstep.
  now apply IH.
Qed.

(** Dropping an element that occurs again later does not change [nodup],
    which keeps last occurrences. *)
Lemma nodup_drop_repeated (c : string) (front back : list string) :
  In c back ->
  nodup string_dec (front ++ c :: back) = nodup string_dec (front ++ back).
Proof.
  intros Hin. induction front as [|a front IH]; simpl.
  - destruct (in_dec string_dec c back); [reflexivity|contradiction].
  - rewrite IH.
    destruct (in_dec string_dec a (front ++ c :: back)) as [H1|H1];
      destruct (in_dec string_dec a (front ++ back)) as [H2|H2];
      try reflexivity; exfalso.
    + apply H2. apply in_app_or in H1. apply in_or_app.
      destruct H1 as [H1|[H1|H1]]; [now left| subst a; now right | now right].
    + apply H1. apply in_app_or in H2. apply in_or_app.
      destruct H2 as [H2|H2]; [now left | right; now right].
Qed.

(** The names after a run of calls, for any registry without repetition. *)
Lemma add_players_order (calls : list string) :
  forall es idx,
    NoDup (names es) ->
    names (fst (add_players calls es idx)) =
      rev (nodup string_dec
             (rev (names es ++ filter (fun s => negb (Str.empty s)) calls))).
Proof.
  induction calls as [|c cs IH]; intros es idx Hnd; simpl.
  - rewrite app_nil_r, nodup_fixed_point by now apply NoDup_rev.
    now rewrite rev_involutive.
  - pose proof (add_player_if_new_names c es idx) as Hn.
    pose proof (add_player_if_new_NoDup c es idx Hnd) as Hnd'.
    destruct (add_player_if_new c es idx) as [es' idx']. simpl in Hn, Hnd'.
    rewrite (IH es' idx' Hnd'), Hn.
    destruct (Str.empty c) eqn:Hc; simpl; [reflexivity|].
    destruct (has_name c es) eqn:Hhas.
    + apply has_name_In in Hhas.
      rewrite (rev_app_distr (names es) (c :: _)). simpl.
      rewrite <- app_assoc. simpl.
      rewrite nodup_drop_repeated by now rewrite <- in_rev.
      now rewrite <- rev_app_distr.
    + now rewrite <- app_assoc.
Qed.

(** C6. [add_player_if_new] appends the name exactly when it is non-empty and
    no entry carries it (string equality, case kept), and changes nothing
    otherwise; after any run of calls from the empty registry no name occurs
    twice and the names stand in the order of their first insertion; the
    calls alice, bob, alice leave alice, bob. *)
Theorem add_player_if_new_unique_in_order :
  (forall nm es idx,
     add_player_if_new nm es idx =
       if negb (String.eqb nm "") && negb (existsb (String.eqb nm) (names es))
       then (es ++ [mkEntry nm (fst (random_color idx))],
             snd (random_color idx))
       else (es, idx)) /\
  (forall calls idx, NoDup (names (fst (add_players calls [] idx)))) /\
  (forall calls idx,
     names (fst (add_players calls [] idx)) = first_insertions calls) /\
  (forall idx,
     names (fst (add_players ["alice"; "bob"; "alice"] [] idx))
       = ["alice"; "bob"]) /\
  (forall idx,
     names (fst (add_players ["alice"; "Alice"] [] idx)) = ["alice"; "Alice"]).
Proof.
  split; [|split; [|split; [|split]]].
  - intros nm es idx. unfold add_player_if_new.
    assert (He : Str.empty nm = String.eqb nm "").
    { destruct nm; reflexivity. }
    assert (Hh : has_name nm es = existsb (String.eqb nm) (names es)).
    { unfold has_name, names. induction es as [|e es IH]; simpl;
        [reflexivity|]. now rewrite IH, String.eqb_sym. }
    rewrite He, Hh.
    destruct (String.eqb nm ""); simpl; [reflexivity|].
    destruct (existsb (String.eqb nm) (names es)); reflexivity.
  - intros calls idx. apply add_players_NoDup. constructor.
  - intros calls idx. unfold first_insertions.
    now rewrite add_players_order by constructor.
  - intros idx. reflexivity.
  - intros idx. reflexivity.
Qed.

(** ** Chat lines that fail to parse *)

Lemma add_player_empty_name (w : World) : add_player "" w = w.
Proof. open_world w. reflexivity. Qed.

(** C9. A line that is not a keepalive probe and contains the PRIVMSG marker,
    and whose sender extraction yields nothing or whose message text has no
    space-colon after the marker, leaves the whole process state as it was:
    in particular the registry is unchanged and nothing is written to the
    socket. *)
Theorem handle_irc_line_parse_miss (line : string) (w : World) (priv : nat) :
  Str.starts_with "PING" line = false ->
  Str.find "PRIVMSG" 0 line = Some priv ->
  parse_username_from_irc_line line = "" \/ Str.find " :" priv line = None ->
  handle_irc_line line w = w /\
  entries (app (handle_irc_line line w)) = entries (app w) /\
  sock_out (handle_irc_line line w) = sock_out w.
Proof.
  intros Hping Hpriv Hmiss.
  assert (H : handle_irc_line line w = w).
  { unfold handle_irc_line.
    destruct (Str.empty line); [reflexivity|].
    rewrite Hping, Hpriv.
    destruct Hmiss as [Huser | Htext].
    - rewrite Huser.
      destruct (Str.find " :" priv line); [|reflexivity].
      destruct (Str.starts_with "!join" _); [|reflexivity].
      destruct (join_open (app w)); [|reflexivity].
      apply add_player_empty_name.
    - now rewrite Htext. }
  now rewrite H.
Qed.

(** A chat line without a sender prefix, received while the gate is open. *)
Lemma handle_irc_line_parse_miss_witness :
  let line := "PRIVMSG #wheel :!join" in
  let w := mkWorld (set_join true app_init) 0 (mkRng (fun _ => 0) 0) [] in
  handle_irc_line line w = w /\
  entries (app (handle_irc_line line w)) = entries (app w) /\
  sock_out (handle_irc_line line w) = sock_out w.
Proof.
  apply (handle_irc_line_parse_miss _ _ 0%nat).
  - reflexivity.
  - reflexivity.
  - left. reflexivity.
Defined.

(** ** Engagement gate *)

Lemma issued_app (c : TimerCall) (t u : TimerState) :
  issued c (t ++ u) = (issued c t + issued c u)%nat.
Proof. unfold issued. now rewrite filter_app, length_app. Qed.

(** The right button in either loop writes the gate and calls no timer
    function. *)
Lemma poll_toggle_timer (b : Build) (cfg : TwitchConfig) (w : World) :
  timer (app (poll_event b cfg (SDL_EVENT_MOUSE_BUTTON_DOWN SDL_BUTTON_RIGHT) w))
    = timer (app w).
Proof.
  destruct b; simpl; [reflexivity|].
  destruct (winner_showing (app w)); reflexivity.
Qed.

(** [set_join_open], which no handler calls, is edge-triggered: it leaves
    the gate at
    the requested value, issues one Start exactly when it opens a closed
    gate and one Stop exactly when it closes an open one, and does nothing
    when the gate already has the value, so a repeated call adds nothing. *)
Theorem set_join_open_edge_triggered (open : bool) (a : AppState) :
  join_open (set_join_open open a) = open /\
  issued TimerStart (timer (set_join_open open a)) =
    (issued TimerStart (timer a)
     + (if negb (join_open a) && open then 1 else 0))%nat /\
  issued TimerStop (timer (set_join_open open a)) =
    (issued TimerStop (timer a)
     + (if join_open a && negb open then 1 else 0))%nat /\
  set_join_open (join_open a) a = a /\
  set_join_open open (set_join_open open a) = set_join_open open a.
Proof.
  repeat split.
  - unfold set_join_open. destruct a; simpl.
    destruct join_open0, open; reflexivity.
  - unfold set_join_open.
    destruct (join_open a), open; cbn -[issued];
      rewrite ?issued_app; cbn; lia.
  - unfold set_join_open.
    destruct (join_open a), open; cbn -[issued];
      rewrite ?issued_app; cbn; lia.
  - unfold set_join_open. now rewrite Bool.eqb_reflx.
  - unfold set_join_open. destruct a; simpl.
    destruct join_open0, open; reflexivity.
Qed.

(** C7. The right-button handlers write the gate themselves and bypass
    [set_join_open], the function that starts and stops the timer: from the
    closed initial state the right button opens the gate in either loop and
    no Start is issued, and a second press closes it and no Stop is issued;
    [set_join_open] on the same state issues the Start. *)
Lemma toggle_opens_without_start :
  let w := mkWorld app_init 0 rng_half [] in
  let w' := native_event host_cfg
              (SDL_EVENT_MOUSE_BUTTON_DOWN SDL_BUTTON_RIGHT) w in
  join_open (app w) = false /\ join_open (app w') = true /\
  issued TimerStart (timer (app w')) = 0%nat /\
  (let v := web_event host_cfg
              (SDL_EVENT_MOUSE_BUTTON_DOWN SDL_BUTTON_RIGHT) w in
   join_open (app v) = true /\ issued TimerStart (timer (app v)) = 0%nat) /\
  (let w'' := native_event host_cfg
                (SDL_EVENT_MOUSE_BUTTON_DOWN SDL_BUTTON_RIGHT) w' in
   join_open (app w'') = false /\
   issued TimerStop (timer (app w'')) = 0%nat) /\
  issued TimerStart (timer (set_join_open true (app w))) = 1%nat.
Proof. vm_compute. repeat split. Qed.

(** ** Inputs while a winner is shown *)

(** The spin trigger only starts the hold while a winner is shown: gate and
    spin state stay as they were, in both loops. *)
Lemma spin_trigger_ignored_while_winner (b : Build) (cfg : TwitchConfig)
    (e : SDL_Event) (w : World) :
  winner_showing (app w) = true ->
  is_spin_trigger e = true ->
  let a' := app (poll_event b cfg e w) in
  join_open a' = join_open (app w) /\ spinning a' = spinning (app w) /\
  angular_velocity a' = angular_velocity (app w) /\
  spin_friction a' = spin_friction (app w) /\
  winner_index a' = winner_index (app w).
Proof.
  intros Hwin Htrig.
  destruct e as [|k|k|bt|bt|]; try discriminate;
    [destruct k | destruct bt]; try discriminate;
    open_world w; destruct b; simpl; rewrite ?Hwin;
    unfold with_app, begin_hold; simpl;
    destruct join_open0, reset_hold_active0; simpl;
    repeat split; reflexivity.
Qed.

(** The browser loop ignores the right button while a winner is shown. *)
Lemma web_toggle_ignored_while_winner (cfg : TwitchConfig) (w : World) :
  winner_showing (app w) = true ->
  web_event cfg (SDL_EVENT_MOUSE_BUTTON_DOWN SDL_BUTTON_RIGHT) w = w.
Proof. intros Hwin. simpl. now rewrite Hwin. Qed.

(** The desktop loop flips the gate on the right button in every state. *)
Lemma native_toggle_flips_gate (cfg : TwitchConfig) (w : World) :
  join_open (app (native_event cfg
                    (SDL_EVENT_MOUSE_BUTTON_DOWN SDL_BUTTON_RIGHT) w))
    = negb (join_open (app w)).
Proof. open_world w. reflexivity. Qed.

(** C1 fails in the desktop loop: with the winner shown and the gate closed,
    the right button opens the gate. *)
Example native_toggle_while_winner :
  let w := winner_shown in
  let w' := native_event host_cfg
              (SDL_EVENT_MOUSE_BUTTON_DOWN SDL_BUTTON_RIGHT) w in
  winner_showing (app w) = true /\
  is_toggle_engagement (SDL_EVENT_MOUSE_BUTTON_DOWN SDL_BUTTON_RIGHT) = true /\
  join_open (app w) = false /\ join_open (app w') = true.
Proof. vm_compute. repeat split. Qed.

(** ** Starting a spin *)

Lemma canonical_range (r : Rng) : (0 <= fst (canonical r) < 1)%Q.
Proof.
  unfold canonical, rng_next. simpl.
  set (x := rng_words r (rng_pos r) mod UINT32_MOD).
  assert (Hx : 0 <= x < UINT32_MOD) by (apply Z.mod_pos_bound; reflexivity).
  split.
  - apply Qle_shift_div_l; [reflexivity|]. rewrite Qmult_0_l.
    change 0%Q with (inject_Z 0). rewrite <- Zle_Qle. lia.
  - apply Qlt_shift_div_r; [reflexivity|]. rewrite Qmult_1_l.
    rewrite <- Zlt_Qlt. lia.
Qed.

(** The state written by a starting spin. *)
Lemma start_spin_state (w : World) :
  let u1 := fst (canonical (rng w)) in
  let u2 := fst (canonical (snd (canonical (rng w)))) in
  let a' := app (start_spin w) in
  spinning a' = true /\
  spin_friction a' = (1.8 + (5.6 - 1.8) * u1)%Q /\
  angular_velocity a' = (10 + (13 - 10) * u2)%Q /\
  winner_index a' = -1 /\
  winner_flash_remaining a' = 0%Q /\ winner_flash_elapsed a' = 0%Q /\
  rng_pos (rng (start_spin w)) = S (S (rng_pos (rng w))) /\
  entries a' = entries (app w) /\ join_open a' = join_open (app w).
Proof. open_world w. repeat split. Qed.

Lemma start_spin_ranges (w : World) :
  (1.8 <= spin_friction (app (start_spin w)) < 5.6)%Q /\
  (10 <= angular_velocity (app (start_spin w)) < 13)%Q.
Proof.
  destruct (start_spin_state w) as (_ & Hf & Hv & _).
  rewrite Hf, Hv.
  pose proof (canonical_range (rng w)) as H1.
  pose proof (canonical_range (snd (canonical (rng w)))) as H2.
  split; split; lra.
Qed.

Lemma handle_spin_or_reset_cases (cfg : TwitchConfig) (w : World) :
  let a := app w in
  (winner_showing a = true /\
   spinning (app (handle_spin_or_reset cfg w)) = false) \/
  (winner_showing a = false /\
   (2 <=? Z.of_nat (List.length (entries a)))
     && negb (spinning a) && negb (join_open a) = true /\
   handle_spin_or_reset cfg w = start_spin w) \/
  (winner_showing a = false /\
   (2 <=? Z.of_nat (List.length (entries a)))
     && negb (spinning a) && negb (join_open a) = false /\
   handle_spin_or_reset cfg w = w).
Proof.
  unfold handle_spin_or_reset. simpl.
  destruct (winner_showing (app w)) eqn:Hwin.
  - left. split; [reflexivity|].
    destruct (negb (Str.empty (nick cfg))); open_world w;
      unfold add_player; simpl.
    + destruct (add_player_if_new (nick cfg) [] _); reflexivity.
    + reflexivity.
  - right.
    destruct ((2 <=? Z.of_nat (List.length (entries (app w))))
              && negb (spinning (app w)) && negb (join_open (app w)));
      [left | right]; repeat split; reflexivity.
Qed.

Lemma wheel_spin_cases (w : World) :
  let a := app w in
  ((2 <=? Z.of_nat (List.length (entries a)))
     && negb (spinning a) && negb (join_open a) = true /\
   wheel_spin w = start_spin w) \/
  ((2 <=? Z.of_nat (List.length (entries a)))
     && negb (spinning a) && negb (join_open a) = false /\
   wheel_spin w = w).
Proof.
  unfold wheel_spin. simpl.
  destruct (Z.ltb_spec (Z.of_nat (List.length (entries (app w)))) 2);
    destruct (Z.leb_spec 2 (Z.of_nat (List.length (entries (app w)))));
    try lia; simpl.
  - now right.
  - destruct (spinning (app w)); simpl; [now right|].
    destruct (join_open (app w)); simpl; [now right | now left].
Qed.

(** When the two spin starters start a spin.  [handle_spin_or_reset] starts
    one exactly when there are at
    least two participants, the wheel is at rest, no winner is shown and
    the gate is closed; [wheel_spin] starts one exactly when there are at
    least two participants, the wheel is at rest and the gate is closed.  A
    starting spin takes friction and then speed from the generator, friction
    in the range 1.8 to 5.6 and speed in the range 10 to 13 as the affine
    image of one canonical sample each, and clears the winner index and the
    flash timers. *)
Theorem spin_starts_when_permitted (cfg : TwitchConfig) (w : World) :
  let a := app w in
  let n := Z.of_nat (List.length (entries a)) in
  let u1 := fst (canonical (rng w)) in
  let u2 := fst (canonical (snd (canonical (rng w)))) in
  (spinning a = false /\ spinning (app (handle_spin_or_reset cfg w)) = true
   <-> 2 <= n /\ spinning a = false /\ winner_showing a = false /\
       join_open a = false) /\
  (spinning a = false /\ spinning (app (wheel_spin w)) = true
   <-> 2 <= n /\ spinning a = false /\ join_open a = false) /\
  (forall w',
     w' = handle_spin_or_reset cfg w \/ w' = wheel_spin w ->
     spinning a = false -> spinning (app w') = true ->
     spin_friction (app w') = (1.8 + (5.6 - 1.8) * u1)%Q /\
     (1.8 <= spin_friction (app w') < 5.6)%Q /\
     angular_velocity (app w') = (10 + (13 - 10) * u2)%Q /\
     (10 <= angular_velocity (app w') < 13)%Q /\
     winner_index (app w') = -1 /\
     winner_flash_remaining (app w') = 0%Q /\
     winner_flash_elapsed (app w') = 0%Q).
Proof.
  intros a n u1 u2.
  assert (Hguard :
    (2 <=? n) && negb (spinning a) && negb (join_open a) = true
    <-> 2 <= n /\ spinning a = false /\ join_open a = false).
  { rewrite !andb_true_iff, !negb_true_iff, Z.leb_le. tauto. }
  pose proof (start_spin_state w) as Hst. cbv zeta in Hst.
  destruct Hst as (Hs & Hf & Hv & Hwi & Hfr & Hfe & _).
  pose proof (start_spin_ranges w) as [Hfrange Hvrange].
  split; [|split].
  - destruct (handle_spin_or_reset_cases cfg w) as
      [[Hwin Hoff] | [(Hwin & Hg & Heq) | (Hwin & Hg & Heq)]];
      fold a in Hwin; try fold a n in Hg.
    + rewrite Hoff, Hwin. split.
      * intros [_ H]. discriminate.
      * intros (_ & _ & H & _). discriminate.
    + rewrite Heq, Hs, Hwin. apply Hguard in Hg. tauto.
    + rewrite Heq, Hwin. split.
      * intros [H0 H1]. fold a in H1. congruence.
      * intros (H2 & H0 & _ & Hj). exfalso.
        assert (Ht : (2 <=? n) && negb (spinning a) && negb (join_open a)
                     = true) by (apply Hguard; auto).
        congruence.
  - destruct (wheel_spin_cases w) as [[Hg Heq] | [Hg Heq]];
      fold a n in Hg; rewrite Heq.
    + rewrite Hs. apply Hguard in Hg. tauto.
    + split.
      * intros [H0 H1]. fold a in H1. congruence.
      * intros H. apply Hguard in H. congruence.
  - intros w' Hw' Hrest Hspin.
    assert (Hstart : w' = start_spin w).
    { destruct Hw' as [-> | ->].
      - destruct (handle_spin_or_reset_cases cfg w) as
          [[_ Hoff] | [(_ & _ & Heq) | (_ & _ & Heq)]].
        + congruence.
        + exact Heq.
        + rewrite Heq in Hspin. fold a in Hspin. congruence.
      - destruct (wheel_spin_cases w) as [[_ Heq] | [_ Heq]].
        + exact Heq.
        + rewrite Heq in Hspin. fold a in Hspin. congruence. }
    subst w'. repeat split; try assumption;
      try (apply Hfrange); apply Hvrange.
Qed.

(** C5. [wheel_spin] misses the winner test of its siblings: with the
    winner shown, two participants, the wheel at rest and the gate closed
    it starts a spin under the banner of the last round, where the space
    key in either loop starts no spin and [handle_spin_or_reset] has the
    test before its spin branch. *)
Lemma wheel_spin_while_winner_shown :
  winner_showing (app winner_shown) = true /\
  spinning (app winner_shown) = false /\
  spinning (app (wheel_spin winner_shown)) = true /\
  winner_showing (app (wheel_spin winner_shown)) = true /\
  spinning (app (poll_event Browser host_cfg
                   (SDL_EVENT_KEY_DOWN SDLK_SPACE) winner_shown)) = false /\
  spinning (app (poll_event Desktop host_cfg
                   (SDL_EVENT_KEY_DOWN SDLK_SPACE) winner_shown)) = false.
Proof. vm_compute. repeat split. Qed.

(** ** The tick: hold handling *)

Lemma frame_unfold (cfg : TwitchConfig) (dt : Q) (w : World) :
  frame cfg dt w =
    with_app (frame_tail (entries (app w))
                (Z.of_nat (List.length (entries (app w)))) dt)
             (frame_hold cfg dt w).
Proof. reflexivity. Qed.

(** Fields the physics, flash and banner sections never write. *)
Lemma frame_tail_untouched (es : list WheelEntry) (n : Z) (dt : Q)
    (a : AppState) :
  let a' := frame_tail es n dt a in
  entries a' = entries a /\ join_open a' = join_open a /\
  timer a' = timer a /\ spin_friction a' = spin_friction a /\
  reset_hold_active a' = reset_hold_active a /\
  reset_hold_elapsed a' = reset_hold_elapsed a /\
  reset_hold_source a' = reset_hold_source a.
Proof.
  destruct a. unfold frame_tail, frame_celebration, frame_flash, frame_physics.
  simpl. break_ifs; simpl; repeat split; reflexivity.
Qed.

(** A shown winner stays shown through the rest of the tick. *)
Lemma frame_tail_keeps_winner (es : list WheelEntry) (n : Z) (dt : Q)
    (a : AppState) :
  winner_showing a = true -> winner_showing (frame_tail es n dt a) = true.
Proof.
  destruct a. unfold frame_tail, frame_celebration, frame_flash, frame_physics,
    winner_showing. simpl. intros H.
  break_ifs; simpl in *; try assumption;
    repeat match goal with
           | H : (_ && _)%bool = true |- _ => apply andb_true_iff in H; destruct H
           end; try reflexivity; try congruence.
Qed.


Lemma handle_spin_or_reset_hold (cfg : TwitchConfig) (w : World) :
  let a' := app (handle_spin_or_reset cfg w) in
  reset_hold_active a' = reset_hold_active (app w) /\
  reset_hold_elapsed a' = reset_hold_elapsed (app w) /\
  reset_hold_source a' = reset_hold_source (app w).
Proof.
  unfold handle_spin_or_reset. open_world w.
  break_ifs; simpl; unfold add_player; simpl;
    try destruct (add_player_if_new _ _ _); simpl; repeat split; reflexivity.
Qed.

(** After the hold section an active hold has a shown winner. *)
Lemma frame_hold_active_winner (cfg : TwitchConfig) (dt : Q) (w : World) :
  reset_hold_active (app (frame_hold cfg dt w)) = true ->
  winner_showing (app (frame_hold cfg dt w)) = true.
Proof.
  unfold frame_hold.
  destruct (reset_hold_active (app w)) eqn:Hact.
  - destruct (winner_showing (app w)) eqn:Hwin; simpl.
    + destruct (Float.leb 1 (B32.add (reset_hold_elapsed (app w)) dt)).
      * destruct (handle_spin_or_reset_hold cfg
                    (with_app (set_hold false 0 0) w)) as (H & _).
        rewrite H. open_world w. discriminate.
      * intros _. open_world w. exact Hwin.
    + open_world w. discriminate.
  - congruence.
Qed.

(** C10. After a tick an active reset hold implies a shown winner; and a
    tick that begins with the hold active and no winner shown ends with the
    hold inactive, its elapsed time zero and its source none. *)
Theorem frame_hold_needs_winner (cfg : TwitchConfig) (dt : Q) (w : World) :
  let a' := app (frame cfg dt w) in
  (reset_hold_active a' = true -> winner_showing a' = true) /\
  (reset_hold_active (app w) = true -> winner_showing (app w) = false ->
   reset_hold_active a' = false /\ reset_hold_elapsed a' = 0%Q /\
   reset_hold_source a' = 0).
Proof.
  cbv zeta. rewrite frame_unfold.
  set (es := entries (app w)). set (n := Z.of_nat (List.length es)).
  pose proof (frame_tail_untouched es n dt (app (frame_hold cfg dt w))) as Hu.
  cbv zeta in Hu. destruct Hu as (_ & _ & _ & _ & Hact & Hel & Hsrc).
  split.
  - simpl. rewrite Hact. intros H.
    apply frame_tail_keeps_winner. now apply frame_hold_active_winner.
  - intros Hon Hno. simpl. rewrite Hact, Hel, Hsrc.
    unfold frame_hold. rewrite Hon, Hno. simpl. repeat split.
Qed.

(** A hold left over after the winner was cleared. *)
Lemma frame_hold_needs_winner_witness :
  let w := with_app (set_hold true 0.25 1) two_players in
  let a' := app (frame host_cfg 0.5 w) in
  reset_hold_active (app w) = true /\ winner_showing (app w) = false /\
  reset_hold_active a' = false /\ reset_hold_elapsed a' = 0%Q /\
  reset_hold_source a' = 0.
Proof.
  split; [reflexivity|]. split; [reflexivity|].
  apply (proj2 (frame_hold_needs_winner host_cfg 0.5
                  (with_app (set_hold true 0.25 1) two_players)));
    reflexivity.
Defined.

(** ** The tick: completing a reset hold *)

Lemma leb_true_iff (x y : Q) : Float.leb x y = true <-> (x <= y)%Q.
Proof. apply Qle_bool_iff. Qed.

Lemma leb_false_iff (x y : Q) : Float.leb x y = false <-> (y < x)%Q.
Proof.
  unfold Float.leb. rewrite <- not_true_iff_false, Qle_bool_iff.
  split; [apply Qnot_le_lt | apply Qlt_not_le].
Qed.

Lemma ltb_true_iff (x y : Q) : Float.ltb x y = true <-> (x < y)%Q.
Proof. unfold Float.ltb. rewrite negb_true_iff. apply leb_false_iff. Qed.

Lemma ltb_false_iff (x y : Q) : Float.ltb x y = false <-> (y <= x)%Q.
Proof. unfold Float.ltb. rewrite negb_false_iff. apply leb_true_iff. Qed.

(** A tick that keeps the hold below the threshold. *)
Lemma frame_hold_below (cfg : TwitchConfig) (dt : Q) (w : World) :
  reset_hold_active (app w) = true ->
  winner_showing (app w) = true ->
  (B32.add (reset_hold_elapsed (app w)) dt < 1)%Q ->
  let w' := frame cfg dt w in
  reset_hold_active (app w') = true /\ winner_showing (app w') = true /\
  reset_hold_elapsed (app w') = B32.add (reset_hold_elapsed (app w)) dt /\
  color_idx w' = color_idx w.
Proof.
  intros Hact Hwin Hlt. cbv zeta. rewrite frame_unfold.
  set (es := entries (app w)). set (n := Z.of_nat (List.length es)).
  assert (Hh : frame_hold cfg dt w =
               with_app (set_hold true (B32.add (reset_hold_elapsed (app w)) dt)
                           (reset_hold_source (app w))) w).
  { unfold frame_hold. rewrite Hact, Hwin. simpl.
    apply leb_false_iff in Hlt. now rewrite Hlt. }
  rewrite Hh.
  pose proof (frame_tail_untouched es n dt
               (app (with_app (set_hold true (B32.add (reset_hold_elapsed (app w)) dt)
                                (reset_hold_source (app w))) w))) as Hu.
  cbv zeta in Hu. destruct Hu as (_ & _ & _ & _ & Ha & He & _).
  simpl. simpl in Ha, He. rewrite Ha, He. repeat split.
  apply frame_tail_keeps_winner. open_world w. exact Hwin.
Qed.

(** The tick on which the hold reaches the threshold. *)
Lemma frame_hold_complete (cfg : TwitchConfig) (dt : Q) (w : World) :
  reset_hold_active (app w) = true ->
  winner_showing (app w) = true ->
  (1 <= B32.add (reset_hold_elapsed (app w)) dt)%Q ->
  let a' := app (frame cfg dt w) in
  round_reset cfg (color_idx w) a'.
Proof.
  intros Hact Hwin Hle. cbv zeta. rewrite frame_unfold.
  set (es := entries (app w)). set (n := Z.of_nat (List.length es)).
  clearbody es n.
  unfold frame_hold. rewrite Hact, Hwin. simpl.
  apply leb_true_iff in Hle. rewrite Hle.
  unfold handle_spin_or_reset.
  replace (winner_showing (app (with_app (set_hold false 0 0) w)))
    with true by (open_world w; symmetry; exact Hwin).
  open_world w. clear Hact Hwin Hle. unfold round_reset.
  destruct (Str.empty (nick cfg)) eqn:Hn; simpl.
  - unfold frame_tail, frame_physics, frame_flash, frame_celebration. simpl.
    repeat split.
  - unfold add_player, add_player_if_new. simpl. rewrite Hn. simpl.
    unfold frame_tail, frame_physics, frame_flash, frame_celebration. simpl.
    repeat split.
Qed.

Lemma frames_app (cfg : TwitchConfig) (xs ys : list Q) :
  forall w, frames cfg (xs ++ ys) w = frames cfg ys (frames cfg xs w).
Proof. induction xs as [|x xs IH]; intros w; simpl; [reflexivity|apply IH]. Qed.

(** A run of ticks that keeps the hold below the threshold. *)
Lemma frames_hold_below (cfg : TwitchConfig) (dts : list Q) :
  forall w,
    reset_hold_active (app w) = true ->
    winner_showing (app w) = true ->
    hold_below (reset_hold_elapsed (app w)) dts ->
    let w' := frames cfg dts w in
    reset_hold_active (app w') = true /\ winner_showing (app w') = true /\
    reset_hold_elapsed (app w')
      = hold_elapsed (reset_hold_elapsed (app w)) dts /\
    color_idx w' = color_idx w.
Proof.
  induction dts as [|dt dts IH]; intros w Hact Hwin Hlt; simpl in *.
  - repeat split; assumption.
  - destruct Hlt as [Hdt Hrest].
    destruct (frame_hold_below cfg dt w Hact Hwin Hdt) as (Ha & Hw & He & Hc).
    rewrite <- He in Hrest.
    destruct (IH (frame cfg dt w) Ha Hw Hrest) as (Ha' & Hw' & He' & Hc').
    repeat split; try assumption.
    + now rewrite He', He.
    + congruence.
Qed.

(** The spin trigger on a shown winner starts the hold at zero. *)
Lemma trigger_starts_hold (b : Build) (cfg : TwitchConfig) (e : SDL_Event)
    (w : World) :
  winner_showing (app w) = true ->
  reset_hold_active (app w) = false ->
  (b = Browser -> join_open (app w) = false) ->
  is_spin_trigger e = true ->
  let w0 := poll_event b cfg e w in
  reset_hold_active (app w0) = true /\ winner_showing (app w0) = true /\
  reset_hold_elapsed (app w0) = 0%Q /\ color_idx w0 = color_idx w.
Proof.
  intros Hwin Hidle Hgate Htrig. cbv zeta.
  destruct e as [|k|k|bt|bt|]; try discriminate;
    [destruct k | destruct bt]; try discriminate;
    destruct b; simpl; rewrite ?Hwin, ?(Hgate eq_refl);
    open_world w; unfold begin_hold; simpl; rewrite Hidle; simpl;
    repeat split; assumption.
Qed.

(** C8. With a winner shown and no hold in progress, the spin trigger starts
    the hold (in the browser loop provided the gate is closed); the ticks
    that follow leave winner and hold as they are while the hold time the
    code accumulates, each addition rounded to binary32, stays below one
    second, and the tick that brings it to one second resets the round: no
    winner, no banner, flash timers zero, wheel at rest with zero speed,
    gate closed, hold cleared, and the registry holds the configured host
    alone, or nothing when no host nick is configured. *)
Theorem reset_hold_resets_round (b : Build) (cfg : TwitchConfig)
    (e : SDL_Event) (w : World) (dts : list Q) (dt : Q) :
  winner_showing (app w) = true ->
  reset_hold_active (app w) = false ->
  (b = Browser -> join_open (app w) = false) ->
  is_spin_trigger e = true ->
  hold_below 0 dts ->
  (1 <= B32.add (hold_elapsed 0 dts) dt)%Q ->
  let w1 := frames cfg dts (poll_event b cfg e w) in
  let a' := app (frames cfg (dts ++ [dt]) (poll_event b cfg e w)) in
  (reset_hold_active (app w1) = true /\ winner_showing (app w1) = true /\
   reset_hold_elapsed (app w1) = hold_elapsed 0 dts) /\
  round_reset cfg (color_idx w) a'.
Proof.
  intros Hwin Hidle Hgate Htrig Hlt Hge.
  set (w0 := poll_event b cfg e w).
  destruct (trigger_starts_hold b cfg e w Hwin Hidle Hgate Htrig)
    as (Ha0 & Hw0 & He0 & Hc0).
  fold w0 in Ha0, Hw0, He0, Hc0.
  cbv zeta. rewrite frames_app. simpl.
  rewrite <- He0 in Hlt, Hge |- *.
  destruct (frames_hold_below cfg dts w0 Ha0 Hw0 Hlt) as (Ha & Hw & He & Hc).
  split; [repeat split; assumption|].
  rewrite <- Hc0, <- Hc.
  apply frame_hold_complete; try assumption.
  now rewrite He.
Qed.

(** Scenario D: the space key on the shown winner, then two half-second
    ticks. *)
Lemma reset_hold_resets_round_witness :
  let w1 := frames host_cfg [0.5%Q]
              (poll_event Desktop host_cfg
                 (SDL_EVENT_KEY_DOWN SDLK_SPACE) winner_shown) in
  let a' := app (frames host_cfg ([0.5%Q] ++ [0.5%Q])
                   (poll_event Desktop host_cfg
                      (SDL_EVENT_KEY_DOWN SDLK_SPACE) winner_shown)) in
  (reset_hold_active (app w1) = true /\ winner_showing (app w1) = true /\
   reset_hold_elapsed (app w1) = hold_elapsed 0 [0.5%Q]) /\
  round_reset host_cfg (color_idx winner_shown) a'.
Proof.
  apply (reset_hold_resets_round Desktop host_cfg
           (SDL_EVENT_KEY_DOWN SDLK_SPACE) winner_shown [0.5%Q] 0.5%Q).
  - vm_compute. reflexivity.
  - vm_compute. reflexivity.
  - intros H. discriminate H.
  - reflexivity.
  - split; [reflexivity | exact I].
  - vm_compute. discriminate.
Defined.

(** The claim of C8 as stated fails on the code: forty ticks of 25 ms after
    the space key on the shown winner add up to one second and more, yet
    the hold time the code has accumulated in binary32 is
    16777209 * 2^-24 and winner, banner and hold are still there; the round
    is reset one tick later. *)
Lemma reset_hold_one_tick_late :
  (1 <= total_time (repeat dt_25ms 40))%Q /\
  let w0 := poll_event Desktop host_cfg (SDL_EVENT_KEY_DOWN SDLK_SPACE)
              winner_shown in
  let w40 := frames host_cfg (repeat dt_25ms 40) w0 in
  reset_hold_active (app w40) = true /\
  winner_showing (app w40) = true /\
  reset_hold_elapsed (app w40) = (16777209 # 16777216)%Q /\
  ~ round_reset host_cfg (color_idx winner_shown) (app w40) /\
  round_reset host_cfg (color_idx winner_shown)
    (app (frame host_cfg dt_25ms w40)).
Proof.
  split; [vm_compute; discriminate|]. cbv zeta.
  set (w0 := poll_event Desktop host_cfg (SDL_EVENT_KEY_DOWN SDLK_SPACE)
               winner_shown).
  assert (H0 : reset_hold_active (app w0) = true /\
               winner_showing (app w0) = true /\
               reset_hold_elapsed (app w0) = 0%Q /\
               color_idx w0 = color_idx winner_shown).
  { apply trigger_starts_hold;
      [vm_compute; reflexivity | vm_compute; reflexivity
      | discriminate | reflexivity]. }
  destruct H0 as (Ha0 & Hw0 & He0 & Hc0).
  assert (Hb : hold_below (reset_hold_elapsed (app w0)) (repeat dt_25ms 40)).
  { rewrite He0. vm_compute. repeat split. }
  destruct (frames_hold_below host_cfg (repeat dt_25ms 40) w0 Ha0 Hw0 Hb)
    as (Ha & Hw & He & Hc).
  assert (Hv : hold_elapsed (reset_hold_elapsed (app w0)) (repeat dt_25ms 40)
               = (16777209 # 16777216)%Q)
    by (rewrite He0; vm_compute; reflexivity).
  rewrite Hv in He.
  split; [exact Ha|]. split; [exact Hw|]. split; [exact He|]. split.
  - intros R. destruct R as (_ & _ & _ & _ & _ & _ & _ & _ & _ & R & _).
    congruence.
  - rewrite <- Hc0, <- Hc. apply frame_hold_complete; try assumption.
    rewrite He. vm_compute. discriminate.
Qed.

(** ** Truncation and [fmod] *)

Section FloatFacts.

Local Open Scope Q_scope.

Lemma Qnum_nonneg (q : Q) : 0 <= q <-> (0 <= Qnum q)%Z.
Proof. destruct q as [n d]. unfold Qle. simpl. lia. Qed.

Lemma to_int_nonneg (q : Q) : 0 <= q -> Float.to_int q = Qfloor q.
Proof.
  intros H. apply Qnum_nonneg in H. destruct q as [n d].
  unfold Float.to_int, Qfloor. simpl in *.
  apply Z.quot_div_nonneg; lia.
Qed.

Lemma to_int_nonpos (q : Q) : q <= 0 -> Float.to_int q = Qceiling q.
Proof.
  intros H. destruct q as [n d].
  assert (Hn : (n <= 0)%Z) by (unfold Qle in H; simpl in H; lia).
  unfold Float.to_int, Qceiling, Qfloor, Qopp. simpl.
  rewrite <- (Z.opp_involutive n) at 1.
  rewrite Z.quot_opp_l by lia.
  rewrite Z.quot_div_nonneg by lia. reflexivity.
Qed.

(** Truncation is the floor, or one more when the number is negative and not
    whole. *)
Lemma to_int_floor (q : Q) :
  Float.to_int q = Qfloor q \/
  (Float.to_int q = (Qfloor q + 1)%Z /\ q < inject_Z (Qfloor q + 1) /\ q < 0).
Proof.
  destruct (Qlt_le_dec q 0) as [Hneg | Hpos].
  - rewrite to_int_nonpos by lra.
    pose proof (Qfloor_le q) as Hf. pose proof (Qlt_floor q) as Hf'.
    pose proof (Qle_ceiling q) as Hc. pose proof (Qceiling_lt q) as Hc'.
    assert (Hlo : (Qfloor q <= Qceiling q)%Z).
    { rewrite Zle_Qle. lra. }
    assert (Hhi : (Qceiling q - 1 < Qfloor q + 1)%Z).
    { rewrite Zlt_Qlt. lra. }
    destruct (Z.eq_dec (Qceiling q) (Qfloor q)) as [E | E]; [now left|].
    right. replace (Qceiling q) with (Qfloor q + 1)%Z by lia. auto.
  - left. now apply to_int_nonneg.
Qed.

Variable y : Q.
Hypothesis y_pos : 0 < y.

Lemma floor_mod_range (x : Q) : 0 <= floor_mod y x < y.
Proof.
  unfold floor_mod.
  assert (Hx : x == (x / y) * y) by (field; lra).
  pose proof (Qfloor_le (x / y)) as Hf. pose proof (Qlt_floor (x / y)) as Hf'.
  rewrite inject_Z_plus in Hf'. change (inject_Z 1) with 1 in Hf'.
  set (q := x / y) in *. set (k := inject_Z (Qfloor q)) in *.
  clearbody k. clearbody q.
  split.
  - assert (0 <= (q - k) * y) by (apply Qmult_le_0_compat; lra). lra.
  - assert (0 < (k + 1 - q) * y) by (apply Qmult_lt_0_compat; lra). lra.
Qed.

(** [fmod] followed by the correction of a negative result is the
    mathematical remainder. *)
Lemma fmod_corrected (x : Q) :
  (if Float.ltb (Float.fmod x y) 0 then Float.fmod x y + y
   else Float.fmod x y) == floor_mod y x.
Proof.
  unfold Float.fmod, floor_mod.
  assert (Hx : x == (x / y) * y) by (field; lra).
  pose proof (Qfloor_le (x / y)) as Hf.
  set (q := x / y) in *.
  destruct (to_int_floor q) as [E | (E & Hlt & _)]; rewrite E.
  - set (k := inject_Z (Qfloor q)) in *.
    assert (Hr : 0 <= x - k * y).
    { clearbody k. clearbody q.
      assert (0 <= (q - k) * y) by (apply Qmult_le_0_compat; lra). lra. }
    apply ltb_false_iff in Hr. rewrite Hr. reflexivity.
  - rewrite inject_Z_plus in *. change (inject_Z 1) with 1 in *.
    set (k := inject_Z (Qfloor q)) in *.
    assert (Hr : x - (k + 1) * y < 0).
    { clearbody k. clearbody q.
      assert (0 < (k + 1 - q) * y) by (apply Qmult_lt_0_compat; lra). lra. }
    apply ltb_true_iff in Hr. rewrite Hr. ring.
Qed.

End FloatFacts.

(** ** Rounding to binary32 *)

Lemma rne_bounds (q : Q) : Qfloor q <= B32.rne q <= Qfloor q + 1.
Proof.
  unfold B32.rne. cbv zeta.
  destruct (Qcompare _ _); [destruct (Z.even _)| |]; lia.
Qed.

Lemma rne_inject (z : Z) : B32.rne (inject_Z z) = z.
Proof.
  unfold B32.rne. cbv zeta. rewrite Qfloor_Z.
  destruct (Qcompare_spec (inject_Z z - inject_Z z) (1 # 2));
    [exfalso; lra | reflexivity | exfalso; lra].
Qed.

Lemma rne_le (p q : Q) : (p <= q)%Q -> B32.rne p <= B32.rne q.
Proof.
  intros H. pose proof (Qfloor_resp_le _ _ H) as Hf.
  pose proof (rne_bounds p) as Hp. pose proof (rne_bounds q) as Hq.
  destruct (Z.eq_dec (Qfloor p) (Qfloor q)) as [E|E]; [|lia].
  clear Hp Hq. unfold B32.rne. cbv zeta. rewrite E.
  destruct (Qcompare_spec (p - inject_Z (Qfloor q)) (1 # 2));
    destruct (Qcompare_spec (q - inject_Z (Qfloor q)) (1 # 2));
    try (exfalso; lra); destruct (Z.even (Qfloor q)); lia.
Qed.

Lemma pow2_pos (k : Z) : (0 < 2 ^ k)%Q.
Proof. apply Qpower_0_lt. reflexivity. Qed.

Lemma pow2_succ (k : Z) : (2 ^ (k + 1) == 2 * 2 ^ k)%Q.
Proof.
  rewrite Qpower_plus by discriminate. change (2 ^ 1)%Q with 2%Q. ring.
Qed.

Lemma pow2_le (a b : Z) : a <= b -> (2 ^ a <= 2 ^ b)%Q.
Proof. intros H. apply Qpower_le_compat_l; [assumption | discriminate]. Qed.

Lemma pow2_Z (a : Z) : 0 <= a -> (inject_Z (2 ^ a) == 2 ^ a)%Q.
Proof. intros H. now rewrite Zpower_Qpower. Qed.

Lemma log2_floor_spec (x : Q) :
  (0 < x)%Q ->
  (2 ^ B32.log2_floor x <= x < 2 ^ (B32.log2_floor x + 1))%Q.
Proof.
  intros Hx. destruct x as [n d].
  assert (Hn : 0 < n) by (unfold Qlt in Hx; simpl in Hx; lia).
  unfold B32.log2_floor. cbn [Qnum Qden].
  set (a := Z.log2 n). set (b := Z.log2 (Z.pos d)).
  pose proof (Z.log2_spec n Hn) as Ha. fold a in Ha.
  pose proof (Z.log2_spec (Z.pos d) eq_refl) as Hb. fold b in Hb.
  assert (Ha0 : 0 <= a) by apply Z.log2_nonneg.
  assert (Hb0 : 0 <= b) by apply Z.log2_nonneg.
  assert (HA : (2 ^ a <= inject_Z n < 2 * 2 ^ a)%Q).
  { rewrite <- pow2_succ, <- !pow2_Z by lia.
    rewrite <- Zle_Qle, <- Zlt_Qlt. unfold Z.succ in Ha. lia. }
  assert (HB : (2 ^ b <= inject_Z (Z.pos d) < 2 * 2 ^ b)%Q).
  { rewrite <- pow2_succ, <- !pow2_Z by lia.
    rewrite <- Zle_Qle, <- Zlt_Qlt. unfold Z.succ in Hb. lia. }
  assert (Hk : (2 ^ (a - b) == 2 ^ a / 2 ^ b)%Q)
    by (apply Qpower_minus; discriminate).
  assert (Hxe : (n # d == inject_Z n / inject_Z (Z.pos d))%Q)
    by (rewrite Qmake_Qdiv; reflexivity).
  pose proof (pow2_pos a) as PA. pose proof (pow2_pos b) as PB.
  set (A := (2 ^ a)%Q) in *. set (B := (2 ^ b)%Q) in *.
  set (N := inject_Z n) in *. set (D := inject_Z (Z.pos d)) in *.
  assert (HD : (0 < D)%Q) by lra.
  assert (Hlo : (A / (2 * B) < N / D)%Q).
  { apply Qlt_shift_div_l; [assumption|].
    assert (E : (A / (2 * B) * D == (A * D) / (2 * B))%Q) by (field; lra).
    rewrite E. apply Qlt_shift_div_r; [lra|]. nra. }
  assert (Hhi : (N / D < 2 * A / B)%Q).
  { apply Qlt_shift_div_r; [assumption|].
    assert (E : (2 * A / B * D == (2 * A * D) / B)%Q) by (field; lra).
    rewrite E. apply Qlt_shift_div_l; [lra|]. nra. }
  destruct (Qle_bool (2 ^ (a - b)) (n # d)) eqn:C.
  - apply Qle_bool_iff in C. split; [assumption|].
    rewrite pow2_succ, Hk, Hxe.
    assert (E : (2 * (A / B) == 2 * A / B)%Q) by (field; lra).
    now rewrite E.
  - assert (C' : (n # d < 2 ^ (a - b))%Q).
    { apply Qnot_le_lt. intros H. apply Qle_bool_iff in H. congruence. }
    replace (a - b - 1 + 1) with (a - b) by lia.
    split; [|assumption].
    assert (E : (2 ^ (a - b - 1) == A / (2 * B))%Q).
    { assert (E1 : (2 ^ (a - b) == 2 * 2 ^ (a - b - 1))%Q).
      { rewrite <- pow2_succ. replace (a - b - 1 + 1) with (a - b) by lia.
        reflexivity. }
      rewrite Hk in E1.
      assert (E2 : (A / (2 * B) == (A / B) / 2)%Q) by (field; lra).
      rewrite E2, E1. field. }
    rewrite E, Hxe. now apply Qlt_le_weak.
Qed.

Lemma log2_floor_le (x y : Q) :
  (0 < x)%Q -> (x <= y)%Q -> B32.log2_floor x <= B32.log2_floor y.
Proof.
  intros Hx Hxy.
  destruct (log2_floor_spec x Hx) as [Hlx _].
  destruct (log2_floor_spec y ltac:(lra)) as [_ Hly].
  destruct (Z.le_gt_cases (B32.log2_floor x) (B32.log2_floor y)) as [H|H];
    [assumption|].
  pose proof (pow2_le (B32.log2_floor y + 1) (B32.log2_floor x) ltac:(lia)).
  lra.
Qed.

Lemma ulp_exp_le (x y : Q) :
  (0 < x)%Q -> (x <= y)%Q -> B32.ulp_exp x <= B32.ulp_exp y.
Proof.
  intros Hx Hxy. unfold B32.ulp_exp.
  pose proof (log2_floor_le x y Hx Hxy). lia.
Qed.

Lemma scaled_le (x y : Q) (e : Z) :
  (x <= y)%Q -> (x / 2 ^ e <= y / 2 ^ e)%Q.
Proof.
  intros H. pose proof (pow2_pos e) as P.
  apply Qle_shift_div_l; [assumption|].
  assert (E : (x / 2 ^ e * 2 ^ e == x)%Q) by (field; lra).
  now rewrite E.
Qed.

Lemma round_pos_nonneg (x : Q) : (0 <= x)%Q -> (0 <= B32.round_pos x)%Q.
Proof.
  intros Hx. unfold B32.round_pos.
  pose proof (pow2_pos (B32.ulp_exp x)) as P.
  assert (H : (0 <= x / 2 ^ B32.ulp_exp x)%Q)
    by (apply Qle_shift_div_l; lra).
  apply rne_le in H. change 0%Q with (inject_Z 0) in H.
  rewrite rne_inject in H. rewrite Zle_Qle in H.
  change (inject_Z 0) with 0%Q in H.
  apply Qmult_le_0_compat; lra.
Qed.

(** A rounded positive number stays within its binade. *)
Lemma round_pos_upper (x : Q) :
  (0 < x)%Q -> (B32.round_pos x <= 2 ^ (B32.ulp_exp x + 24))%Q.
Proof.
  intros Hx. unfold B32.round_pos.
  set (e := B32.ulp_exp x).
  pose proof (pow2_pos e) as P.
  destruct (log2_floor_spec x Hx) as [_ Hhi].
  assert (He : B32.log2_floor x + 1 <= e + 24)
    by (unfold e, B32.ulp_exp; lia).
  pose proof (pow2_le _ _ He) as Hp.
  assert (Hs : (x / 2 ^ e <= inject_Z (2 ^ 24))%Q).
  { apply Qle_shift_div_r; [assumption|].
    rewrite pow2_Z by lia. rewrite <- Qpower_plus by discriminate.
    rewrite Z.add_comm. lra. }
  apply rne_le in Hs. rewrite rne_inject in Hs. rewrite Zle_Qle in Hs.
  rewrite pow2_Z in Hs by lia.
  rewrite Qpower_plus by discriminate.
  rewrite (Qmult_comm (2 ^ e)).
  apply Qmult_le_compat_r; lra.
Qed.

Lemma round_pos_lower (x : Q) :
  (0 < x)%Q -> B32.ulp_exp x = B32.log2_floor x - 23 ->
  (2 ^ (B32.ulp_exp x + 23) <= B32.round_pos x)%Q.
Proof.
  intros Hx He. unfold B32.round_pos.
  set (e := B32.ulp_exp x) in *.
  pose proof (pow2_pos e) as P.
  destruct (log2_floor_spec x Hx) as [Hlo _].
  replace (B32.log2_floor x) with (e + 23) in Hlo by lia.
  assert (Hs : (inject_Z (2 ^ 23) <= x / 2 ^ e)%Q).
  { apply Qle_shift_div_l; [assumption|].
    rewrite pow2_Z by lia. rewrite <- Qpower_plus by discriminate.
    now rewrite Z.add_comm. }
  apply rne_le in Hs. rewrite rne_inject in Hs. rewrite Zle_Qle in Hs.
  rewrite pow2_Z in Hs by lia.
  rewrite Qpower_plus by discriminate.
  rewrite (Qmult_comm (2 ^ e)).
  apply Qmult_le_compat_r; lra.
Qed.

Lemma round_pos_le (x y : Q) :
  (0 < x)%Q -> (x <= y)%Q -> (B32.round_pos x <= B32.round_pos y)%Q.
Proof.
  intros Hx Hxy.
  pose proof (ulp_exp_le x y Hx Hxy) as He.
  destruct (Z.eq_dec (B32.ulp_exp x) (B32.ulp_exp y)) as [E|E].
  - unfold B32.round_pos. rewrite E.
    pose proof (pow2_pos (B32.ulp_exp y)) as P.
    apply Qmult_le_compat_r; [|lra].
    rewrite <- Zle_Qle. apply rne_le. now apply scaled_le.
  - assert (Hy : B32.ulp_exp y = B32.log2_floor y - 23).
    { unfold B32.ulp_exp in *. lia. }
    pose proof (round_pos_upper x Hx) as Hu.
    pose proof (round_pos_lower y ltac:(lra) Hy) as Hl.
    pose proof (pow2_le (B32.ulp_exp x + 24) (B32.ulp_exp y + 23)
                  ltac:(lia)).
    lra.
Qed.

(** What [round] is, case by case. *)
Lemma round_cases (x : Q) :
  ((x == 0)%Q /\ B32.round x = 0%Q) \/
  ((0 < x)%Q /\ (B32.round x == B32.round_pos (Qred x))%Q) \/
  ((x < 0)%Q /\ (B32.round x == - B32.round_pos (- Qred x))%Q).
Proof.
  unfold B32.round. cbv zeta.
  pose proof (Qred_correct x) as E.
  destruct (Qcompare_spec (Qred x) 0) as [H|H|H].
  - left. split; [now rewrite <- E | reflexivity].
  - right. right. split; [now rewrite <- E | apply Qred_correct].
  - right. left. split; [now rewrite <- E | apply Qred_correct].
Qed.

Lemma round_nonneg (x : Q) : (0 <= x)%Q -> (0 <= B32.round x)%Q.
Proof.
  intros Hx.
  destruct (round_cases x) as [[_ ->] | [[Hp ->] | [Hn _]]].
  - lra.
  - apply round_pos_nonneg. rewrite Qred_correct. lra.
  - lra.
Qed.

(** Rounding keeps the order. *)
Lemma round_le (x y : Q) : (x <= y)%Q -> (B32.round x <= B32.round y)%Q.
Proof.
  intros H.
  pose proof (Qred_correct x) as Ex. pose proof (Qred_correct y) as Ey.
  destruct (round_cases x) as [[Hx Rx] | [[Hx Rx] | [Hx Rx]]];
    destruct (round_cases y) as [[Hy Ry] | [[Hy Ry] | [Hy Ry]]];
    rewrite Rx, Ry; try lra.
  - apply round_pos_nonneg. lra.
  - apply round_pos_le; lra.
  - assert (0 <= B32.round_pos (- Qred x))%Q
      by (apply round_pos_nonneg; lra). lra.
  - assert (0 <= B32.round_pos (- Qred x))%Q
      by (apply round_pos_nonneg; lra).
    assert (0 <= B32.round_pos (Qred y))%Q
      by (apply round_pos_nonneg; lra). lra.
  - assert (B32.round_pos (- Qred y) <= B32.round_pos (- Qred x))%Q
      by (apply round_pos_le; lra). lra.
Qed.

Lemma round_comp (x y : Q) : (x == y)%Q -> B32.round x = B32.round y.
Proof. intros H. unfold B32.round. now rewrite (Qred_complete x y H). Qed.

Lemma Qfloor_unique (q : Q) (z : Z) :
  (inject_Z z <= q < inject_Z (z + 1))%Q -> Qfloor q = z.
Proof.
  intros [Hlo Hhi].
  pose proof (Qfloor_le q) as Hf. pose proof (Qlt_floor q) as Hf'.
  assert (z < Qfloor q + 1) by (rewrite Zlt_Qlt; lra).
  assert (Qfloor q < z + 1) by (rewrite Zlt_Qlt; lra).
  lia.
Qed.

(** The rounding numbers of binary32: a tenth, a tie above 2^24 in both
    directions, and the smallest subnormal steps. *)
Example round_values :
  B32.round 0.1 = (13421773 # 134217728)%Q /\
  B32.round (- 0.1) = (- 13421773 # 134217728)%Q /\
  B32.round (inject_Z (2 ^ 24 + 1)) = inject_Z (2 ^ 24) /\
  B32.round (inject_Z (2 ^ 24 + 3)) = inject_Z (2 ^ 24 + 4) /\
  B32.round (1 # 2 ^ 150) = 0%Q /\
  B32.round (3 # 2 ^ 150) = (1 # 2 ^ 148)%Q.
Proof. vm_compute. repeat split. Qed.

(** ** Winner resolution *)

Lemma TWO_PI_pos : (0 < TWO_PI)%Q.
Proof. reflexivity. Qed.

(** The constants of [pointer_slice_index] are the binary32 numbers the
    source's expressions denote. *)
Lemma constants_binary32 :
  B32.round 3.14159265358979323846 = PI /\
  (B32.mul 2 PI == TWO_PI)%Q /\ (B32.mul (- PI) 0.5 == POINTER_ANGLE)%Q /\
  B32.round TWO_PI = Qred TWO_PI.
Proof. vm_compute. repeat split. Qed.

Lemma Qdiv_nonneg (a b : Q) : (0 <= a)%Q -> (0 <= b)%Q -> (0 <= a / b)%Q.
Proof.
  intros Ha Hb. unfold Qdiv. apply Qmult_le_0_compat; [assumption|].
  now apply Qinv_le_0_compat.
Qed.

(** The bearing is the normalised difference, rounded once more when the
    wrap had to add a turn. *)
Lemma pointer_bearing_normalize (angle : Q) :
  let d := B32.sub POINTER_ANGLE angle in
  ((0 <= Float.fmod d TWO_PI)%Q /\
   (pointer_bearing angle == normalize d)%Q) \/
  ((Float.fmod d TWO_PI < 0)%Q /\
   pointer_bearing angle = B32.round (normalize d)).
Proof.
  cbv zeta. unfold pointer_bearing.
  set (d := B32.sub POINTER_ANGLE angle).
  pose proof (fmod_corrected TWO_PI TWO_PI_pos d) as Ha.
  fold (normalize d) in Ha.
  destruct (Float.ltb (Float.fmod d TWO_PI) 0) eqn:E.
  - apply ltb_true_iff in E. right. split; [assumption|].
    unfold B32.add. now apply round_comp.
  - apply ltb_false_iff in E. left. split; assumption.
Qed.

Lemma pointer_bearing_range (angle : Q) :
  (0 <= pointer_bearing angle <= TWO_PI)%Q.
Proof.
  pose proof (floor_mod_range TWO_PI TWO_PI_pos
                (B32.sub POINTER_ANGLE angle)) as Hr.
  fold (normalize (B32.sub POINTER_ANGLE angle)) in Hr.
  destruct (pointer_bearing_normalize angle) as [[_ E] | [_ E]].
  - rewrite E. lra.
  - rewrite E. split.
    + apply round_nonneg. lra.
    + assert (H : (B32.round (normalize (B32.sub POINTER_ANGLE angle))
                   <= B32.round TWO_PI)%Q) by (apply round_le; lra).
      destruct constants_binary32 as (_ & _ & _ & ET).
      rewrite ET, Qred_correct in H. exact H.
Qed.

(** The index is the floor of the rounded quotient, clamped, and in range. *)
Lemma pointer_slice_index_floor (angle : Q) (n : Z) :
  1 <= n ->
  pointer_slice_index angle n =
    Z.min (Qfloor (B32.div (pointer_bearing angle)
                     (B32.div TWO_PI (B32.of_int n))))
          (n - 1) /\
  0 <= pointer_slice_index angle n <= n - 1.
Proof.
  intros Hn.
  assert (HnQ : (0 <= inject_Z n)%Q).
  { change 0%Q with (inject_Z 0). rewrite <- Zle_Qle. lia. }
  unfold pointer_slice_index.
  destruct (Z.leb_spec n 0) as [Hle | _]; [lia|].
  fold (pointer_bearing angle).
  set (slice := B32.div TWO_PI (B32.of_int n)).
  assert (Hslice : (0 <= slice)%Q).
  { unfold slice, B32.div, B32.of_int. apply round_nonneg.
    apply Qdiv_nonneg; [apply Qlt_le_weak, TWO_PI_pos|].
    now apply round_nonneg. }
  assert (Hq : (0 <= B32.div (pointer_bearing angle) slice)%Q).
  { unfold B32.div. apply round_nonneg.
    apply Qdiv_nonneg; [apply pointer_bearing_range | assumption]. }
  rewrite to_int_nonneg by exact Hq.
  assert (H0 : 0 <= Qfloor (B32.div (pointer_bearing angle) slice)).
  { change 0 with (Qfloor 0). now apply Qfloor_resp_le. }
  destruct (Z.geb_spec (Qfloor (B32.div (pointer_bearing angle) slice)) n);
    lia.
Qed.

(** C2. For at least one participant and any rotation angle,
    [pointer_slice_index] is the specification's formula with binary32
    rounding: the bearing is the difference of the pointer angle (minus a
    quarter turn) and the rotation angle, rounded, then normalised into
    [0, 2 pi) exactly and rounded once more when the wrap added a turn, so
    that it can reach 2 pi itself; the index is the floor of the rounded
    quotient of the bearing by the rounded slice width 2 pi / n, clamped to
    n - 1; it lies between 0 and n - 1, and equal arguments give the same
    index.  The circle constant is the binary32 number of the literal. *)
Theorem pointer_slice_index_formula (angle : Q) (n : Z) :
  1 <= n ->
  let d := B32.sub POINTER_ANGLE angle in
  let bearing := pointer_bearing angle in
  let slice := B32.div TWO_PI (B32.of_int n) in
  B32.round 3.14159265358979323846 = PI /\
  (POINTER_ANGLE == - (PI / 2))%Q /\
  ((bearing == normalize d)%Q \/ bearing = B32.round (normalize d)) /\
  (0 <= bearing <= TWO_PI)%Q /\
  pointer_slice_index angle n
    = Z.min (Qfloor (B32.div bearing slice)) (n - 1) /\
  0 <= pointer_slice_index angle n <= n - 1 /\
  (forall angle', (angle' == angle)%Q ->
     pointer_slice_index angle' n = pointer_slice_index angle n).
Proof.
  intros Hn d bearing slice.
  destruct (pointer_slice_index_floor angle n Hn) as [Hfloor Hrange].
  split; [apply constants_binary32|].
  split; [unfold POINTER_ANGLE; field|].
  split.
  { destruct (pointer_bearing_normalize angle) as [[_ E] | [_ E]];
      [left | right]; exact E. }
  split; [apply pointer_bearing_range|].
  split; [exact Hfloor|].
  split; [exact Hrange|].
  intros angle' E.
  assert (Hd : B32.sub POINTER_ANGLE angle' = B32.sub POINTER_ANGLE angle).
  { unfold B32.sub. apply round_comp. now rewrite E. }
  unfold pointer_slice_index. now rewrite Hd.
Qed.

(** Four participants, the wheel a quarter turn on. *)
Lemma pointer_slice_index_formula_witness :
  let angle := (PI / 2)%Q in
  let d := B32.sub POINTER_ANGLE angle in
  let bearing := pointer_bearing angle in
  let slice := B32.div TWO_PI (B32.of_int 4) in
  B32.round 3.14159265358979323846 = PI /\
  (POINTER_ANGLE == - (PI / 2))%Q /\
  ((bearing == normalize d)%Q \/ bearing = B32.round (normalize d)) /\
  (0 <= bearing <= TWO_PI)%Q /\
  pointer_slice_index angle 4
    = Z.min (Qfloor (B32.div bearing slice)) (4 - 1) /\
  0 <= pointer_slice_index angle 4 <= 4 - 1 /\
  (forall angle', (angle' == angle)%Q ->
     pointer_slice_index angle' 4 = pointer_slice_index angle 4).
Proof.
  apply (pointer_slice_index_formula (PI / 2)%Q 4). lia.
Defined.

(** The exact formula on the quarter turn, for a circle constant between 3
    and the code's [PI]. *)
Lemma claimed_index_quarter_turn (pi : Q) :
  (3 < pi < PI)%Q -> claimed_index pi (PI / 2) 4 = 1.
Proof.
  intros [Hlo Hhi]. unfold claimed_index. cbv zeta.
  assert (HP : (PI == 13176795 # 4194304)%Q) by reflexivity.
  set (x := (- (pi / 2) - PI / 2)%Q).
  assert (Hx : (x == - (1 # 2) * pi - (1 # 2) * PI)%Q)
    by (unfold x; field).
  assert (Hf : Qfloor (x / (2 * pi)) = -1).
  { apply Qfloor_unique. change (inject_Z (-1)) with (-1)%Q.
    change (inject_Z (-1 + 1)) with 0%Q. clearbody x. split.
    - apply Qle_shift_div_l; lra.
    - apply Qlt_shift_div_r; lra. }
  unfold floor_mod. fold x. rewrite Hf.
  change (inject_Z (-1)) with (-1)%Q. change (inject_Z 4) with 4%Q.
  set (s := (2 * pi / 4)%Q).
  assert (Hs : (s == (1 # 2) * pi)%Q) by (unfold s; field).
  assert (Hq : Qfloor ((x - -1 * (2 * pi)) / s) = 1).
  { apply Qfloor_unique. change (inject_Z 1) with 1%Q.
    change (inject_Z (1 + 1)) with 2%Q. clearbody x s. split.
    - apply Qle_shift_div_l; lra.
    - apply Qlt_shift_div_r; lra. }
  rewrite Hq. reflexivity.
Qed.

(** The claim of C2 as stated fails on the code: with four participants and
    the wheel at the binary32 quarter turn 0x3fc90fdb every step of
    [pointer_slice_index] is exact and the index is 2, where the formula in
    exact arithmetic gives 1 for the circle constant to 21 digits, and for
    every number between 3 and the code's [PI], the mathematical constant
    among them.  With the code's [PI] itself for the circle constant the
    formula fails at a slice boundary: with sixteen participants, one slice
    width on from angle 0, where both give 12, the formula gives 11 and the
    code 10. *)
Lemma pointer_slice_index_not_exact_formula :
  (PI / 2 == 13176795 # 8388608)%Q /\
  B32.round (PI / 2) = Qred (PI / 2) /\
  pointer_slice_index (PI / 2) 4 = 2 /\
  claimed_index 3.14159265358979323846 (PI / 2) 4 = 1 /\
  (forall pi : Q, (3 < pi < PI)%Q -> claimed_index pi (PI / 2) 4 = 1) /\
  B32.round (PI / 8) = Qred (PI / 8) /\
  pointer_slice_index 0 16 = 12 /\ claimed_index PI 0 16 = 12 /\
  pointer_slice_index (PI / 8) 16 = 10 /\ claimed_index PI (PI / 8) 16 = 11.
Proof.
  split; [reflexivity|].
  split; [vm_compute; reflexivity|].
  split; [vm_compute; reflexivity|].
  split; [apply claimed_index_quarter_turn; split; reflexivity|].
  split; [exact claimed_index_quarter_turn|].
  vm_compute. repeat split.
Qed.

(** The clamp is needed: one binary32 step past the pointer angle the
    bearing rounds up to 2 pi and the quotient is the participant count. *)
Example pointer_slice_index_clamp :
  let angle := (- 6588397 # 4194304)%Q in
  B32.round angle = angle /\
  (pointer_bearing angle == TWO_PI)%Q /\
  Float.to_int (B32.div (pointer_bearing angle)
                  (B32.div TWO_PI (B32.of_int 4))) = 4 /\
  pointer_slice_index angle 4 = 3.
Proof. vm_compute. repeat split. Qed.

(** ** Angle wrap *)

Lemma advance_angle_range (angle velocity dt : Q) :
  (0 <= advance_angle angle velocity dt < TWO_PI)%Q.
Proof.
  unfold advance_angle.
  rewrite (fmod_corrected TWO_PI TWO_PI_pos).
  apply floor_mod_range, TWO_PI_pos.
Qed.

(** The angle in range is an invariant of the tick. *)
Lemma frame_angle_range (cfg : TwitchConfig) (dt : Q) (w : World) :
  (0 <= current_angle (app w) < TWO_PI)%Q ->
  (0 <= current_angle (app (frame cfg dt w)) < TWO_PI)%Q.
Proof.
  intros Hin. rewrite frame_unfold.
  set (es := entries (app w)). set (n := Z.of_nat (List.length es)).
  clearbody es n.
  assert (Hh : current_angle (app (frame_hold cfg dt w))
               = current_angle (app w)).
  { unfold frame_hold, handle_spin_or_reset. open_world w.
    break_ifs; simpl; unfold add_player; simpl;
      try destruct (add_player_if_new _ _ _); reflexivity. }
  rewrite <- Hh in Hin. simpl.
  destruct (app (frame_hold cfg dt w)). simpl in Hin.
  pose proof (advance_angle_range current_angle0 angular_velocity0 dt).
  unfold frame_tail, frame_celebration, frame_flash, frame_physics. simpl.
  break_ifs; simpl; assumption.
Qed.

(** A non-negative speed is an invariant of the tick. *)
Lemma frame_velocity_nonneg (cfg : TwitchConfig) (dt : Q) (w : World) :
  (0 <= angular_velocity (app w))%Q ->
  (0 <= angular_velocity (app (frame cfg dt w)))%Q.
Proof.
  intros Hv. rewrite frame_unfold.
  set (es := entries (app w)). set (n := Z.of_nat (List.length es)).
  clearbody es n.
  assert (Hh : (0 <= angular_velocity (app (frame_hold cfg dt w)))%Q).
  { unfold frame_hold.
    destruct (reset_hold_active (app w)); [|exact Hv].
    destruct (negb (winner_showing (app w))); [open_world w; exact Hv|].
    destruct (Float.leb 1 (B32.add (reset_hold_elapsed (app w)) dt));
      [|open_world w; exact Hv].
    set (w1 := with_app (set_hold false 0 0) w).
    assert (Hv1 : (0 <= angular_velocity (app w1))%Q)
      by (subst w1; open_world w; exact Hv).
    destruct (handle_spin_or_reset_cases cfg w1) as
      [[Hwin _] | [(_ & _ & Heq) | (_ & _ & Heq)]].
    - unfold handle_spin_or_reset. rewrite Hwin.
      destruct (negb (Str.empty (nick cfg))); subst w1; open_world w;
        unfold add_player; simpl;
        try destruct (add_player_if_new _ _ _); simpl; discriminate.
    - rewrite Heq. pose proof (start_spin_ranges w1) as [_ [H _]]. lra.
    - now rewrite Heq. }
  simpl. destruct (app (frame_hold cfg dt w)). simpl in Hh.
  unfold frame_tail, frame_celebration, frame_flash, frame_physics. simpl.
  break_ifs; simpl; try assumption; try discriminate.
  all: match goal with
       | H : Float.leb _ 0 = false |- _ => apply leb_false_iff in H; lra
       end.
Qed.

(** C4. From an angle in [0, 2 pi), with a non-negative speed, after every
    prefix of a run of non-negative ticks the rotation angle lies in
    [0, 2 pi), and the speed is still non-negative. *)
Theorem angle_stays_wrapped (cfg : TwitchConfig) (w : World) (dts : list Q) :
  (0 <= current_angle (app w) < TWO_PI)%Q ->
  (0 <= angular_velocity (app w))%Q ->
  Forall (fun dt => 0 <= dt)%Q dts ->
  forall k : nat,
    (0 <= current_angle (app (frames cfg (firstn k dts) w)) < TWO_PI)%Q /\
    (0 <= angular_velocity (app (frames cfg (firstn k dts) w)))%Q.
Proof.
  intros Hin Hv _ k. revert w Hin Hv k.
  induction dts as [|dt dts IH]; intros w Hin Hv k.
  - rewrite firstn_nil. now split.
  - destruct k as [|k]; simpl; [now split|].
    apply IH; [now apply frame_angle_range | now apply frame_velocity_nonneg].
Qed.

(** The spinning wheel of the sample run, after three ticks. *)
Lemma angle_stays_wrapped_witness :
  (0 <= current_angle
          (app (frames host_cfg (firstn 3 [0.1; 0; 0.25]%Q) spun))
     < TWO_PI)%Q /\
  (0 <= angular_velocity
          (app (frames host_cfg (firstn 3 [0.1; 0; 0.25]%Q) spun)))%Q.
Proof.
  apply (angle_stays_wrapped host_cfg spun [0.1; 0; 0.25]%Q).
  - vm_compute. split; [discriminate | reflexivity].
  - vm_compute. discriminate.
  - repeat constructor; discriminate.
Defined.

(** ** Termination of a spin *)

Section Spin.

Variable cfg : TwitchConfig.
Variable dt : Q.

Lemma frame_hold_idle (w : World) :
  no_hold_on_winner (app w) ->
  exists e s, frame_hold cfg dt w = with_app (set_hold false e s) w.
Proof.
  intros [Hoff | Hno]; unfold frame_hold.
  - rewrite Hoff. exists (reset_hold_elapsed (app w)), (reset_hold_source (app w)).
    open_world w. now rewrite Hoff.
  - destruct (reset_hold_active (app w)) eqn:Hact.
    + rewrite Hno. simpl. now exists 0%Q, 0.
    + exists (reset_hold_elapsed (app w)), (reset_hold_source (app w)).
      open_world w. now rewrite Hact.
Qed.

(** The physics section on a spinning wheel with positive friction. *)
Lemma frame_tail_spinning (es : list WheelEntry) (n : Z) (a : AppState) :
  spinning a = true -> 1 <= n -> (0 < spin_friction a)%Q ->
  let v' := (angular_velocity a - spin_friction a * dt)%Q in
  let a' := frame_tail es n dt a in
  ((v' <= 0)%Q ->
     spinning a' = false /\ 0 <= winner_index a' < n /\
     angular_velocity a' = 0%Q) /\
  ((0 < v')%Q ->
     spinning a' = true /\ winner_index a' = winner_index a /\
     angular_velocity a' = v' /\
     celebration_active a' = celebration_active a).
Proof.
  intros Hspin Hn Hf. cbv zeta.
  destruct a. simpl in *. subst spinning0.
  unfold frame_tail, frame_physics. simpl.
  destruct (Z.ltb_spec 0 n) as [_ | Hbad]; [|lia].
  unfold Float.max. apply ltb_true_iff in Hf. rewrite Hf. simpl.
  set (v' := (angular_velocity0 - spin_friction0 * dt)%Q).
  set (angle' := advance_angle current_angle0 angular_velocity0 dt).
  destruct (pointer_slice_index_floor angle' n Hn) as [_ Hidx].
  split; intros Hv.
  - apply leb_true_iff in Hv. rewrite Hv. simpl.
    destruct (Z.leb_spec 0 (pointer_slice_index angle' n)); [|lia].
    destruct (Z.ltb_spec (pointer_slice_index angle' n) n); [|lia].
    simpl. unfold frame_celebration, frame_flash. simpl.
    break_ifs; simpl; repeat split; lia.
  - apply leb_false_iff in Hv. rewrite Hv. simpl.
    unfold frame_celebration, frame_flash. simpl.
    break_ifs; simpl; repeat split; reflexivity.
Qed.

(** One tick of a spinning wheel. *)
Lemma frame_spinning (w : World) :
  spinning (app w) = true ->
  no_hold_on_winner (app w) ->
  entries (app w) <> [] ->
  (0 < spin_friction (app w))%Q ->
  let v' := (angular_velocity (app w) - spin_friction (app w) * dt)%Q in
  let n := Z.of_nat (List.length (entries (app w))) in
  let a' := app (frame cfg dt w) in
  entries a' = entries (app w) /\ spin_friction a' = spin_friction (app w) /\
  reset_hold_active a' = false /\
  ((v' <= 0)%Q ->
     spinning a' = false /\ 0 <= winner_index a' < n /\
     angular_velocity a' = 0%Q) /\
  ((0 < v')%Q ->
     spinning a' = true /\ winner_index a' = winner_index (app w) /\
     angular_velocity a' = v').
Proof.
  intros Hspin Hhold Hne Hf. cbv zeta. rewrite frame_unfold.
  destruct (frame_hold_idle w Hhold) as (e & s & Hh). rewrite Hh.
  set (es := entries (app w)). set (n := Z.of_nat (List.length es)).
  assert (Hn : 1 <= n).
  { subst n es. destruct (entries (app w)); [congruence | simpl; lia]. }
  set (a := app (with_app (set_hold false e s) w)).
  pose proof (frame_tail_untouched es n dt a) as Hu. cbv zeta in Hu.
  destruct Hu as (Hes & _ & _ & Hfr & Hact & _).
  assert (Ha : spinning a = true /\ spin_friction a = spin_friction (app w) /\
               angular_velocity a = angular_velocity (app w) /\
               winner_index a = winner_index (app w) /\
               entries a = entries (app w) /\ reset_hold_active a = false).
  { subst a. open_world w. repeat split. assumption. }
  destruct Ha as (Hsa & Hfa & Hva & Hwa & Hea & Hha).
  pose proof (frame_tail_spinning es n a Hsa Hn) as Ht.
  rewrite Hfa, Hva, Hwa in Ht. cbv zeta in Ht.
  destruct (Ht Hf) as [Hstop Hgo].
  change (app (with_app (frame_tail es n dt) (with_app (set_hold false e s) w)))
    with (frame_tail es n dt a).
  rewrite Hes, Hfr, Hact, Hea, Hfa, Hha.
  repeat split; try (apply Hstop; assumption); try (apply Hgo; assumption).
Qed.




Variable es : list WheelEntry.
Variable f : Q.
Hypothesis es_nonempty : es <> [].
Hypothesis f_pos : (0 < f)%Q.

(** The state of a running spin. *)
Definition spin_running (w : World) : Prop :=
  spinning (app w) = true /\ winner_index (app w) = -1 /\
  no_hold_on_winner (app w) /\ entries (app w) = es /\
  spin_friction (app w) = f /\ (0 < angular_velocity (app w))%Q.

(** The spin has come to rest at the [k]-th tick and not before. *)
Definition stops_at (k : nat) (w : World) : Prop :=
  (forall j, (j < k)%nat ->
     spinning (app (frame_iter cfg dt j w)) = true /\
     winner_index (app (frame_iter cfg dt j w)) = -1 /\
     (0 < angular_velocity (app (frame_iter cfg dt j w)))%Q) /\
  spinning (app (frame_iter cfg dt k w)) = false /\
  reset_hold_active (app (frame_iter cfg dt k w)) = false /\
  angular_velocity (app (frame_iter cfg dt k w)) = 0%Q /\
  0 <= winner_index (app (frame_iter cfg dt k w))
    < Z.of_nat (List.length es).

Lemma spin_stops_within (N : nat) :
  forall w,
    spin_running w ->
    (angular_velocity (app w) <= inject_Z (Z.of_nat N) * (f * dt))%Q ->
    exists k, (1 <= k <= N)%nat /\ stops_at k w.
Proof.
  induction N as [|N IH]; intros w (Hs & Hw & Hh & He & Hf & Hv) Hbound.
  - change (inject_Z (Z.of_nat 0)) with 0%Q in Hbound. lra.
  - assert (Hne : entries (app w) <> []) by now rewrite He.
    assert (Hfp : (0 < spin_friction (app w))%Q) by now rewrite Hf.
    pose proof (frame_spinning w Hs Hh Hne Hfp) as Hstep. cbv zeta in Hstep.
    rewrite Hf, He in Hstep.
    destruct Hstep as (He' & Hf' & Hoff & Hstop & Hgo).
    destruct (Qlt_le_dec 0 (angular_velocity (app w) - f * dt)) as [Hpos | Hneg].
    + destruct (Hgo Hpos) as (Hs' & Hw' & Hv').
      assert (Hrun : spin_running (frame cfg dt w)).
      { unfold spin_running. split; [exact Hs'|]. split; [congruence|].
        split; [now left|]. split; [congruence|]. split; [congruence|].
        rewrite Hv'. exact Hpos. }
      destruct (IH (frame cfg dt w) Hrun) as (k & Hk & Hbefore & Hat).
      { rewrite Hv'. rewrite Nat2Z.inj_succ, <- Z.add_1_r, inject_Z_plus in Hbound.
        change (inject_Z 1) with 1%Q in Hbound. lra. }
      exists (S k). split; [lia|]. split; [|exact Hat].
      intros [|j] Hj; simpl; [repeat split; assumption|].
      apply Hbefore. lia.
    + destruct (Hstop Hneg) as (Hs' & Hw' & Hv').
      exists 1%nat. split; [lia|]. split; [|simpl; auto].
      intros j Hj. assert (j = 0)%nat by lia. subst j. simpl. auto.
Qed.

End Spin.





(** ** Input events: what they never do *)

Lemma start_spin_frame (w : World) :
  entries (app (start_spin w)) = entries (app w) /\
  color_idx (start_spin w) = color_idx w /\
  sock_out (start_spin w) = sock_out w /\
  timer (app (start_spin w)) = timer (app w) /\
  reset_hold_active (app (start_spin w)) = reset_hold_active (app w) /\
  reset_hold_elapsed (app (start_spin w)) = reset_hold_elapsed (app w) /\
  reset_hold_source (app (start_spin w)) = reset_hold_source (app w) /\
  celebration_active (app (start_spin w)) = celebration_active (app w).
Proof. open_world w. repeat split. Qed.

(** The mouse and key handlers reach [handle_spin_or_reset] only when no
    winner is shown, so it either starts a spin or does nothing. *)
Lemma poll_event_cases (b : Build) (cfg : TwitchConfig) (e : SDL_Event)
    (w : World) :
  poll_event b cfg e w = w \/
  (winner_showing (app w) = false /\ spinning (app w) = false /\
   poll_event b cfg e w = start_spin w) \/
  (exists src, poll_event b cfg e w = with_app (begin_hold src) w /\
               winner_showing (app w) = true) \/
  (exists src, release_source e = Some src /\
               poll_event b cfg e w = with_app (release_hold src) w) \/
  poll_event b cfg e w = with_app (fun a => set_join (negb (join_open a)) a) w.
Proof.
  assert (Hspin : winner_showing (app w) = false ->
            handle_spin_or_reset cfg w = w \/
            (winner_showing (app w) = false /\ spinning (app w) = false /\
             handle_spin_or_reset cfg w = start_spin w)).
  { intros Hno.
    destruct (handle_spin_or_reset_cases cfg w) as
      [[Hwin _] | [(_ & Hg & Heq) | (_ & _ & Heq)]].
    - congruence.
    - right. repeat split; try assumption.
      apply andb_true_iff in Hg. destruct Hg as [Hg _].
      apply andb_true_iff in Hg. destruct Hg as [_ Hg].
      now apply negb_true_iff in Hg.
    - now left. }
  assert (Hdown : forall src,
            (if winner_showing (app w) then with_app (begin_hold src) w
             else handle_spin_or_reset cfg w) = w \/
            (winner_showing (app w) = false /\ spinning (app w) = false /\
             (if winner_showing (app w) then with_app (begin_hold src) w
              else handle_spin_or_reset cfg w) = start_spin w) \/
            (exists src',
               (if winner_showing (app w) then with_app (begin_hold src) w
                else handle_spin_or_reset cfg w)
                 = with_app (begin_hold src') w /\
               winner_showing (app w) = true)).
  { intros src. destruct (winner_showing (app w)) eqn:Hwin.
    - right. right. now exists src.
    - destruct (Hspin eq_refl) as [H | H]; [now left | right; now left]. }
  destruct b; destruct e as [|k|k|bt|bt|];
    try destruct k; try destruct bt; simpl; try (now left).
  - destruct (Hdown 1) as [H | [H | H]]; auto.
  - right. right. right. left. now exists 1.
  - destruct (Hdown 2) as [H | [H | H]]; auto.
  - right. right. right. now right.
  - right. right. right. left. now exists 2.
  - destruct (join_open (app w)); [now left|].
    destruct (Hdown 1) as [H | [H | H]]; auto.
  - right. right. right. left. now exists 1.
  - destruct (join_open (app w)); [now left|].
    destruct (Hdown 2) as [H | [H | H]]; auto.
  - destruct (winner_showing (app w)); [now left|].
    right. right. right. now right.
  - right. right. right. left. now exists 2.
Qed.

(** X1. No input event of either loop changes the registry, the palette
    cursor, the socket output or the timer trace, and none hides a shown
    winner: the reset branch of [handle_spin_or_reset] is not reachable from
    the event handlers. *)
Theorem events_keep_registry_and_winner (b : Build) (cfg : TwitchConfig)
    (e : SDL_Event) (w : World) :
  let w' := poll_event b cfg e w in
  entries (app w') = entries (app w) /\ color_idx w' = color_idx w /\
  sock_out w' = sock_out w /\ timer (app w') = timer (app w) /\
  (winner_showing (app w) = true ->
   winner_showing (app w') = true /\
   winner_index (app w') = winner_index (app w) /\
   celebration_name (app w') = celebration_name (app w)).
Proof.
  cbv zeta.
  destruct (poll_event_cases b cfg e w) as
    [-> | [(Hno & _ & ->) | [(src & -> & Hwin) | [(src & _ & ->) | ->]]]].
  - repeat split; auto.
  - destruct (start_spin_frame w) as (He & Hc & Hs & Ht & _).
    repeat split; try assumption; congruence.
  - open_world w. unfold begin_hold. simpl.
    destruct reset_hold_active0; simpl; repeat split; auto.
  - open_world w. unfold release_hold. simpl.
    destruct (reset_hold_source0 =? src); simpl; repeat split; auto.
  - open_world w. repeat split; auto.
Qed.

(** X2. An input event ends or restarts a hold only when it is the release
    of the input that started it: after any other event (a repeated key
    press included) the three hold fields are as they were. *)
Theorem hold_ends_only_by_its_release (b : Build) (cfg : TwitchConfig)
    (e : SDL_Event) (w : World) :
  reset_hold_active (app w) = true ->
  release_source e <> Some (reset_hold_source (app w)) ->
  let w' := poll_event b cfg e w in
  reset_hold_active (app w') = true /\
  reset_hold_elapsed (app w') = reset_hold_elapsed (app w) /\
  reset_hold_source (app w') = reset_hold_source (app w).
Proof.
  intros Hact Hrel. cbv zeta.
  destruct (poll_event_cases b cfg e w) as
    [-> | [(Hno & _ & ->) | [(src & -> & Hwin) | [(src & Hsrc & ->) | ->]]]].
  - auto.
  - destruct (start_spin_frame w) as (_ & _ & _ & _ & Ha & He & Hs & _).
    rewrite Ha, He, Hs. auto.
  - open_world w. unfold begin_hold. simpl. rewrite Hact. simpl. auto.
  - assert (Hne : reset_hold_source (app w) <> src) by congruence.
    open_world w. unfold release_hold. simpl.
    destruct (Z.eqb_spec reset_hold_source0 src); [contradiction|].
    simpl. auto.
  - open_world w. auto.
Qed.

(** The mouse button is released while a hold started by the space key
    runs. *)
Lemma hold_ends_only_by_its_release_witness :
  let w := native_event host_cfg (SDL_EVENT_KEY_DOWN SDLK_SPACE)
             winner_shown in
  let w' := poll_event Desktop host_cfg
              (SDL_EVENT_MOUSE_BUTTON_UP SDL_BUTTON_LEFT) w in
  reset_hold_active (app w') = true /\
  reset_hold_elapsed (app w') = reset_hold_elapsed (app w) /\
  reset_hold_source (app w') = reset_hold_source (app w).
Proof.
  apply (hold_ends_only_by_its_release Desktop host_cfg
           (SDL_EVENT_MOUSE_BUTTON_UP SDL_BUTTON_LEFT)
           (native_event host_cfg (SDL_EVENT_KEY_DOWN SDLK_SPACE)
              winner_shown)).
  - vm_compute. reflexivity.
  - vm_compute. discriminate.
Defined.

(** X3. No input event stops or alters a running spin: the wheel keeps
    spinning with the same angle, speed and friction. *)
Theorem events_keep_running_spin (b : Build) (cfg : TwitchConfig)
    (e : SDL_Event) (w : World) :
  spinning (app w) = true ->
  let w' := poll_event b cfg e w in
  spinning (app w') = true /\
  current_angle (app w') = current_angle (app w) /\
  angular_velocity (app w') = angular_velocity (app w) /\
  spin_friction (app w') = spin_friction (app w).
Proof.
  intros Hspin. cbv zeta.
  destruct (poll_event_cases b cfg e w) as
    [-> | [(_ & Hrest & _) | [(src & -> & _) | [(src & _ & ->) | ->]]]].
  - auto.
  - congruence.
  - open_world w. unfold begin_hold. simpl.
    destruct reset_hold_active0; simpl; auto.
  - open_world w. unfold release_hold. simpl.
    destruct (reset_hold_source0 =? src); simpl; auto.
  - open_world w. auto.
Qed.

(** The gate is toggled while the sample spin runs. *)
Lemma events_keep_running_spin_witness :
  let w' := poll_event Desktop host_cfg
              (SDL_EVENT_MOUSE_BUTTON_DOWN SDL_BUTTON_RIGHT) spun in
  spinning (app w') = true /\
  current_angle (app w') = current_angle (app spun) /\
  angular_velocity (app w') = angular_velocity (app spun) /\
  spin_friction (app w') = spin_friction (app spun).
Proof.
  apply (events_keep_running_spin Desktop host_cfg
           (SDL_EVENT_MOUSE_BUTTON_DOWN SDL_BUTTON_RIGHT) spun).
  reflexivity.
Defined.

(** ** Invariants of the running program *)

Lemma add_player_NoDup (nm : string) (w : World) :
  NoDup (names (entries (app w))) ->
  NoDup (names (entries (app (add_player nm w)))).
Proof.
  intros H. unfold add_player.
  pose proof (add_player_if_new_NoDup nm (entries (app w)) (color_idx w) H).
  destruct (add_player_if_new nm (entries (app w)) (color_idx w)).
  open_world w. assumption.
Qed.

Lemma add_player_to_empty (nm : string) (w : World) :
  entries (app w) = [] ->
  NoDup (names (entries (app (add_player nm w)))).
Proof. intros H. apply add_player_NoDup. rewrite H. constructor. Qed.

Lemma handle_spin_or_reset_NoDup (cfg : TwitchConfig) (w : World) :
  NoDup (names (entries (app w))) ->
  NoDup (names (entries (app (handle_spin_or_reset cfg w)))).
Proof.
  intros H.
  destruct (handle_spin_or_reset_cases cfg w) as
    [[Hwin _] | [(_ & _ & ->) | (_ & _ & ->)]].
  - unfold handle_spin_or_reset. rewrite Hwin.
    destruct (negb (Str.empty (nick cfg))).
    + apply add_player_to_empty. open_world w. reflexivity.
    + open_world w. constructor.
  - destruct (start_spin_frame w) as (He & _). now rewrite He.
  - assumption.
Qed.

Lemma with_app_hold_entries (act : bool) (el : Q) (src : Z) (w : World) :
  entries (app (with_app (set_hold act el src) w)) = entries (app w).
Proof. open_world w. reflexivity. Qed.

Lemma frame_NoDup (cfg : TwitchConfig) (dt : Q) (w : World) :
  NoDup (names (entries (app w))) ->
  NoDup (names (entries (app (frame cfg dt w)))).
Proof.
  intros H. rewrite frame_unfold.
  set (es := entries (app w)). set (n := Z.of_nat (List.length es)).
  pose proof (frame_tail_untouched es n dt (app (frame_hold cfg dt w))) as Hu.
  cbv zeta in Hu. destruct Hu as (He & _). simpl. rewrite He.
  unfold frame_hold.
  destruct (reset_hold_active (app w)); [|assumption].
  destruct (negb (winner_showing (app w)));
    [now rewrite with_app_hold_entries|].
  destruct (Float.leb 1 (B32.add (reset_hold_elapsed (app w)) dt)).
  - apply handle_spin_or_reset_NoDup. now rewrite with_app_hold_entries.
  - now rewrite with_app_hold_entries.
Qed.

Lemma poll_event_entries (b : Build) (cfg : TwitchConfig) (e : SDL_Event)
    (w : World) :
  entries (app (poll_event b cfg e w)) = entries (app w).
Proof.
  destruct (poll_event_cases b cfg e w) as
    [-> | [(_ & _ & ->) | [(src & -> & _) | [(src & _ & ->) | ->]]]].
  - reflexivity.
  - apply start_spin_frame.
  - open_world w. unfold begin_hold. simpl.
    now destruct reset_hold_active0.
  - open_world w. unfold release_hold. simpl.
    now destruct (reset_hold_source0 =? src).
  - open_world w. reflexivity.
Qed.

Lemma handle_irc_line_cases (line : string) (w : World) :
  handle_irc_line line w = w \/
  (exists reply, handle_irc_line line w = send_line reply w) \/
  (join_open (app w) = true /\
   handle_irc_line line w
     = add_player (parse_username_from_irc_line line) w).
Proof.
  unfold handle_irc_line.
  destruct (Str.empty line); [now left|].
  destruct (Str.starts_with "PING" line); [right; left; eauto|].
  destruct (Str.find "PRIVMSG" 0 line); [|now left].
  destruct (Str.find " :" _ line); [|now left].
  destruct (Str.starts_with "!join" _); [|now left].
  destruct (join_open (app w)) eqn:Hopen; [|now left].
  right. right. auto.
Qed.

Lemma run_op_NoDup (cfg : TwitchConfig) (op : Op) (w : World) :
  NoDup (names (entries (app w))) ->
  NoDup (names (entries (app (run_op cfg op w)))).
Proof.
  intros H. destruct op as [dt | b e | line | user | |]; simpl.
  - now apply frame_NoDup.
  - now rewrite poll_event_entries.
  - destruct (handle_irc_line_cases line w) as [-> | [[r ->] | [_ ->]]].
    + assumption.
    + open_world w. assumption.
    + now apply add_player_NoDup.
  - unfold wheel_join. destruct user as [u|]; [|assumption].
    destruct (Str.empty u); [assumption|].
    destruct (_ || _); [now apply add_player_NoDup | assumption].
  - unfold wheel_reset. destruct (negb (Str.empty (nick cfg))).
    + apply add_player_to_empty. open_world w. reflexivity.
    + open_world w. constructor.
  - destruct (wheel_spin_cases w) as [[_ ->] | [_ ->]]; [|assumption].
    destruct (start_spin_frame w) as (He & _). now rewrite He.
Qed.

(** X4. Whatever the two threads and the page do, in whatever order, the
    registry never holds two entries with the same name: from the initial
    state, after any run of ticks, input events, chat lines and
    entry-point calls, the names are pairwise different. *)
Theorem registry_names_always_unique (cfg : TwitchConfig) (ops : list Op)
    (idx : Z) (r : Rng) :
  NoDup (names (entries (app (run_ops cfg ops (mkWorld app_init idx r []))))).
Proof.
  assert (H : forall w, NoDup (names (entries (app w))) ->
                        NoDup (names (entries (app (run_ops cfg ops w))))).
  { induction ops as [|op ops IH]; intros w Hw; simpl; [assumption|].
    apply IH. now apply run_op_NoDup. }
  apply H. constructor.
Qed.

(** ** The authorisation flag gates nothing *)

Lemma add_player_authorized (b : bool) (nm : string) (w : World) :
  add_player nm (with_app (set_authorized b) w)
    = with_app (set_authorized b) (add_player nm w).
Proof.
  unfold add_player. open_world w.
  destruct (add_player_if_new nm entries0 color_idx0). reflexivity.
Qed.

Lemma start_spin_authorized (b : bool) (w : World) :
  start_spin (with_app (set_authorized b) w)
    = with_app (set_authorized b) (start_spin w).
Proof. open_world w. reflexivity. Qed.

Lemma handle_spin_or_reset_authorized (b : bool) (cfg : TwitchConfig)
    (w : World) :
  handle_spin_or_reset cfg (with_app (set_authorized b) w)
    = with_app (set_authorized b) (handle_spin_or_reset cfg w).
Proof.
  unfold handle_spin_or_reset.
  replace (winner_showing (app (with_app (set_authorized b) w)))
    with (winner_showing (app w)) by (open_world w; reflexivity).
  replace (entries (app (with_app (set_authorized b) w)))
    with (entries (app w)) by (open_world w; reflexivity).
  replace (spinning (app (with_app (set_authorized b) w)))
    with (spinning (app w)) by (open_world w; reflexivity).
  replace (join_open (app (with_app (set_authorized b) w)))
    with (join_open (app w)) by (open_world w; reflexivity).
  cbv zeta.
  destruct (winner_showing (app w)).
  - destruct (negb (Str.empty (nick cfg))).
    + rewrite <- add_player_authorized. f_equal; open_world w; reflexivity.
    + open_world w. reflexivity.
  - destruct (_ && _); [apply start_spin_authorized | reflexivity].
Qed.

Lemma frame_tail_authorized (b : bool) (es : list WheelEntry) (n : Z)
    (dt : Q) (a : AppState) :
  frame_tail es n dt (set_authorized b a)
    = set_authorized b (frame_tail es n dt a).
Proof.
  assert (Hp : forall a0, frame_physics es n dt (set_authorized b a0)
                          = set_authorized b (frame_physics es n dt a0)).
  { intros a0. destruct a0. unfold frame_physics. cbn.
    break_ifs; reflexivity. }
  assert (Hf : forall a0, frame_flash dt (set_authorized b a0)
                          = set_authorized b (frame_flash dt a0)).
  { intros a0. destruct a0. unfold frame_flash. cbn.
    break_ifs; reflexivity. }
  assert (Hc : forall a0, frame_celebration dt (set_authorized b a0)
                          = set_authorized b (frame_celebration dt a0)).
  { intros a0. destruct a0. unfold frame_celebration. cbn.
    break_ifs; reflexivity. }
  unfold frame_tail. now rewrite Hp, Hf, Hc.
Qed.

Lemma frame_authorized (b : bool) (cfg : TwitchConfig) (dt : Q) (w : World) :
  frame cfg dt (with_app (set_authorized b) w)
    = with_app (set_authorized b) (frame cfg dt w).
Proof.
  rewrite !frame_unfold.
  replace (entries (app (with_app (set_authorized b) w)))
    with (entries (app w)) by (open_world w; reflexivity).
  assert (Hh : frame_hold cfg dt (with_app (set_authorized b) w)
               = with_app (set_authorized b) (frame_hold cfg dt w)).
  { unfold frame_hold.
    replace (reset_hold_active (app (with_app (set_authorized b) w)))
      with (reset_hold_active (app w)) by (open_world w; reflexivity).
    replace (winner_showing (app (with_app (set_authorized b) w)))
      with (winner_showing (app w)) by (open_world w; reflexivity).
    replace (reset_hold_elapsed (app (with_app (set_authorized b) w)))
      with (reset_hold_elapsed (app w)) by (open_world w; reflexivity).
    replace (reset_hold_source (app (with_app (set_authorized b) w)))
      with (reset_hold_source (app w)) by (open_world w; reflexivity).
    cbv zeta.
    destruct (reset_hold_active (app w)); [|reflexivity].
    destruct (negb (winner_showing (app w)));
      [open_world w; reflexivity|].
    destruct (Float.leb 1 (B32.add (reset_hold_elapsed (app w)) dt)).
    - rewrite <- handle_spin_or_reset_authorized.
      f_equal; open_world w; reflexivity.
    - open_world w. reflexivity. }
  rewrite Hh.
  destruct (frame_hold cfg dt w) as [a ci r so]. unfold with_app. simpl.
  now rewrite frame_tail_authorized.
Qed.

Lemma poll_event_authorized (b : bool) (bd : Build) (cfg : TwitchConfig)
    (e : SDL_Event) (w : World) :
  poll_event bd cfg e (with_app (set_authorized b) w)
    = with_app (set_authorized b) (poll_event bd cfg e w).
Proof.
  assert (Hw : winner_showing (app (with_app (set_authorized b) w))
               = winner_showing (app w)) by (open_world w; reflexivity).
  assert (Hj : join_open (app (with_app (set_authorized b) w))
               = join_open (app w)) by (open_world w; reflexivity).
  assert (Hb : forall src,
            with_app (begin_hold src) (with_app (set_authorized b) w)
            = with_app (set_authorized b) (with_app (begin_hold src) w)).
  { intros src. destruct w as [a ? ? ?]. destruct a.
    unfold with_app, begin_hold. cbn. break_ifs; reflexivity. }
  assert (Hr : forall src,
            with_app (release_hold src) (with_app (set_authorized b) w)
            = with_app (set_authorized b) (with_app (release_hold src) w)).
  { intros src. destruct w as [a ? ? ?]. destruct a.
    unfold with_app, release_hold. cbn. break_ifs; reflexivity. }
  assert (Ht : with_app (fun a => set_join (negb (join_open a)) a)
                 (with_app (set_authorized b) w)
               = with_app (set_authorized b)
                   (with_app (fun a => set_join (negb (join_open a)) a) w)).
  { destruct w as [a ? ? ?]. destruct a. reflexivity. }
  destruct bd; destruct e as [|k|k|bt|bt|];
    try destruct k; try destruct bt;
    cbn [poll_event native_event web_event]; try reflexivity;
    rewrite ?Hw, ?Hj;
    try destruct (join_open (app w));
    try destruct (winner_showing (app w));
    first [ reflexivity | apply handle_spin_or_reset_authorized
          | apply Hb | apply Hr | apply Ht ].
Qed.

(** X5. The stored authorisation result influences nothing: every operation
    of the program commutes with setting the flag, so two runs that differ
    only in the flag differ only in the flag afterwards. *)
Theorem authorized_gates_nothing (b : bool) (cfg : TwitchConfig)
    (ops : list Op) (w : World) :
  run_ops cfg ops (with_app (set_authorized b) w)
    = with_app (set_authorized b) (run_ops cfg ops w).
Proof.
  revert w. induction ops as [|op ops IH]; intros w; simpl; [reflexivity|].
  rewrite <- IH. f_equal.
  destruct op as [dt | bd e | line | user | |]; simpl.
  - apply frame_authorized.
  - apply poll_event_authorized.
  - unfold handle_irc_line.
    replace (join_open (app (with_app (set_authorized b) w)))
      with (join_open (app w)) by (open_world w; reflexivity).
    break_ifs; try reflexivity; try apply add_player_authorized.
    all: destruct (Str.find "PRIVMSG" 0 line); try reflexivity.
    all: destruct (Str.find " :" _ line); try reflexivity.
    all: break_ifs; try reflexivity; try apply add_player_authorized;
      congruence.
  - unfold wheel_join. destruct user as [u|]; [|reflexivity].
    replace (join_open (app (with_app (set_authorized b) w)))
      with (join_open (app w)) by (open_world w; reflexivity).
    replace (entries (app (with_app (set_authorized b) w)))
      with (entries (app w)) by (open_world w; reflexivity).
    break_ifs; try reflexivity; apply add_player_authorized.
  - unfold wheel_reset. destruct (negb (Str.empty (nick cfg))).
    + rewrite <- add_player_authorized. f_equal; open_world w; reflexivity.
    + open_world w. reflexivity.
  - unfold wheel_spin.
    replace (join_open (app (with_app (set_authorized b) w)))
      with (join_open (app w)) by (open_world w; reflexivity).
    replace (entries (app (with_app (set_authorized b) w)))
      with (entries (app w)) by (open_world w; reflexivity).
    replace (spinning (app (with_app (set_authorized b) w)))
      with (spinning (app w)) by (open_world w; reflexivity).
    cbv zeta. break_ifs; try reflexivity; apply start_spin_authorized.
Qed.

(** ** The tick on a wheel that has nothing to do *)

(** X6. A tick changes nothing at all when the wheel is at rest, no hold is
    running, the flash timer has run out and no banner is shown. *)
Theorem frame_idle (cfg : TwitchConfig) (dt : Q) (w : World) :
  spinning (app w) = false ->
  reset_hold_active (app w) = false ->
  celebration_active (app w) = false ->
  (winner_flash_remaining (app w) <= 0)%Q ->
  frame cfg dt w = w.
Proof.
  intros Hs Hh Hc Hf. rewrite frame_unfold. unfold frame_hold. rewrite Hh.
  apply ltb_false_iff in Hf.
  open_world w. subst.
  unfold with_app, frame_tail, frame_physics, frame_flash, frame_celebration.
  cbn. now rewrite Hf.
Qed.

(** Two participants waiting for a spin. *)
Lemma frame_idle_witness : frame host_cfg 0.25 two_players = two_players.
Proof.
  apply (frame_idle host_cfg 0.25 two_players).
  - reflexivity.
  - reflexivity.
  - reflexivity.
  - vm_compute. discriminate.
Defined.

(** ** How long a spin lasts *)

(** X7. A spin started by [handle_spin_or_reset] or [wheel_spin] with no hold
    running is over after at most [N] ticks of length [dt], for every [N]
    with [N * dt] at least 13 / 1.8 seconds (the largest speed over the
    smallest friction): at some tick [k <= N] the wheel is at rest with a
    valid winner index. *)
Theorem spin_lasts_at_most (cfg : TwitchConfig) (dt : Q) (w0 w : World)
    (N : nat) :
  w = handle_spin_or_reset cfg w0 \/ w = wheel_spin w0 ->
  spinning (app w0) = false ->
  spinning (app w) = true ->
  reset_hold_active (app w0) = false ->
  (0 < dt)%Q ->
  (13 <= inject_Z (Z.of_nat N) * (1.8 * dt))%Q ->
  exists k : nat,
    (1 <= k <= N)%nat /\
    spinning (app (frame_iter cfg dt k w)) = false /\
    angular_velocity (app (frame_iter cfg dt k w)) = 0%Q /\
    0 <= winner_index (app (frame_iter cfg dt k w))
      < Z.of_nat (List.length (entries (app w0))).
Proof.
  intros Hw Hrest Hspin Hhold Hdt HN.
  assert (Hstart : w = start_spin w0 /\
                   (2 <= Z.of_nat (List.length (entries (app w0))))).
  { destruct Hw as [-> | ->].
    - destruct (handle_spin_or_reset_cases cfg w0) as
        [[_ Hoff] | [(_ & Hg & Heq) | (_ & _ & Heq)]].
      + congruence.
      + split; [exact Heq|].
        apply andb_true_iff in Hg. destruct Hg as [Hg _].
        apply andb_true_iff in Hg. destruct Hg as [Hg _].
        now apply Z.leb_le.
      + rewrite Heq in Hspin. congruence.
    - destruct (wheel_spin_cases w0) as [[Hg Heq] | [_ Heq]].
      + split; [exact Heq|].
        apply andb_true_iff in Hg. destruct Hg as [Hg _].
        apply andb_true_iff in Hg. destruct Hg as [Hg _].
        now apply Z.leb_le.
      + rewrite Heq in Hspin. congruence. }
  destruct Hstart as [-> Hn].
  pose proof (start_spin_state w0) as Hst. cbv zeta in Hst.
  destruct Hst as (Hs & _ & _ & Hwi & _ & _ & _ & He & _).
  destruct (start_spin_frame w0) as (_ & _ & _ & _ & Hact & _).
  destruct (start_spin_ranges w0) as [[Hf1 Hf2] [Hv1 Hv2]].
  assert (Hne : entries (app (start_spin w0)) <> []).
  { rewrite He. destruct (entries (app w0)); [simpl in Hn; lia | discriminate]. }
  assert (Hfpos : (0 < spin_friction (app (start_spin w0)))%Q) by lra.
  destruct (spin_stops_within cfg dt (entries (app (start_spin w0)))
              (spin_friction (app (start_spin w0))) Hne Hfpos N
              (start_spin w0))
    as (k & Hk & _ & Hstop & _ & Hzero & Hidx).
  - repeat split; try assumption; try reflexivity; try lra.
    left. congruence.
  - assert (HNpos : (0 <= inject_Z (Z.of_nat N))%Q).
    { change 0%Q with (inject_Z 0). rewrite <- Zle_Qle. lia. }
    assert (Hmono : (inject_Z (Z.of_nat N) * (1.8 * dt)
                     <= inject_Z (Z.of_nat N)
                        * (spin_friction (app (start_spin w0)) * dt))%Q).
    { rewrite (Qmult_comm (inject_Z (Z.of_nat N)) (1.8 * dt)).
      rewrite (Qmult_comm (inject_Z (Z.of_nat N))
                 (spin_friction (app (start_spin w0)) * dt)).
      apply Qmult_le_compat_r; [|assumption].
      apply Qmult_le_compat_r; lra. }
    lra.
  - exists k. rewrite He in Hidx. auto.
Qed.

(** The sample spin with ticks of a tenth of a second: 73 ticks suffice. *)
Lemma spin_lasts_at_most_witness :
  exists k : nat,
    (1 <= k <= 73)%nat /\
    spinning (app (frame_iter host_cfg 0.1 k spun)) = false /\
    angular_velocity (app (frame_iter host_cfg 0.1 k spun)) = 0%Q /\
    0 <= winner_index (app (frame_iter host_cfg 0.1 k spun))
      < Z.of_nat (List.length (entries (app two_players))).
Proof.
  apply (spin_lasts_at_most host_cfg 0.1 two_players spun 73).
  - left. reflexivity.
  - reflexivity.
  - reflexivity.
  - reflexivity.
  - reflexivity.
  - vm_compute. discriminate.
Defined.

(** ** The flash timer *)

Lemma frame_tail_flash_range (es : list WheelEntry) (n : Z) (dt : Q)
    (a : AppState) :
  (0 <= dt)%Q ->
  (0 <= winner_flash_remaining a <= 2)%Q ->
  (0 <= winner_flash_remaining (frame_tail es n dt a) <= 2)%Q.
Proof.
  intros Hdt Hin. destruct a. simpl in Hin.
  unfold frame_tail, frame_celebration, frame_flash, frame_physics. cbn.
  break_ifs; cbn in *;
    repeat match goal with
           | H : Float.ltb _ _ = true |- _ => apply ltb_true_iff in H
           | H : Float.ltb _ _ = false |- _ => apply ltb_false_iff in H
           end; lra.
Qed.

Lemma run_op_flash_range (cfg : TwitchConfig) (op : Op) (w : World) :
  forward_in_time op ->
  (0 <= winner_flash_remaining (app w) <= 2)%Q ->
  (0 <= winner_flash_remaining (app (run_op cfg op w)) <= 2)%Q.
Proof.
  intros Hop Hin.
  assert (Hadd : forall nm w0,
            winner_flash_remaining (app (add_player nm w0))
            = winner_flash_remaining (app w0)).
  { intros nm w0. unfold add_player.
    destruct (add_player_if_new _ _ _). open_world w0. reflexivity. }
  assert (Hstart : forall w0,
            (0 <= winner_flash_remaining (app (start_spin w0)) <= 2)%Q).
  { intros w0. pose proof (start_spin_state w0) as H. cbv zeta in H.
    destruct H as (_ & _ & _ & _ & H & _). rewrite H. lra. }
  assert (Hhsr : forall w0,
            (0 <= winner_flash_remaining (app w0) <= 2)%Q ->
            (0 <= winner_flash_remaining
                    (app (handle_spin_or_reset cfg w0)) <= 2)%Q).
  { intros w0 H0.
    destruct (handle_spin_or_reset_cases cfg w0) as
      [[Hwin _] | [(_ & _ & ->) | (_ & _ & ->)]]; auto.
    unfold handle_spin_or_reset. rewrite Hwin.
    destruct (negb (Str.empty (nick cfg))); [rewrite Hadd|];
      open_world w0; lra. }
  destruct op as [dt | b e | line | user | |];
    cbn [run_op forward_in_time] in *.
  - rewrite frame_unfold.
    change (app (with_app ?f ?x)) with (f (app x)).
    apply frame_tail_flash_range; [assumption|].
    unfold frame_hold.
    destruct (reset_hold_active (app w)); [|assumption].
    destruct (negb (winner_showing (app w))); [open_world w; assumption|].
    destruct (Float.leb 1 (B32.add (reset_hold_elapsed (app w)) dt)).
    + apply Hhsr. open_world w. assumption.
    + open_world w. assumption.
  - destruct (poll_event_cases b cfg e w) as
      [-> | [(_ & _ & ->) | [(src & -> & _) | [(src & _ & ->) | ->]]]].
    + assumption.
    + apply Hstart.
    + open_world w. unfold begin_hold. cbn. now destruct reset_hold_active0.
    + open_world w. unfold release_hold. cbn.
      now destruct (reset_hold_source0 =? src).
    + open_world w. assumption.
  - destruct (handle_irc_line_cases line w) as [-> | [[r ->] | [_ ->]]].
    + assumption.
    + open_world w. assumption.
    + now rewrite Hadd.
  - unfold wheel_join. destruct user as [u|]; [|assumption].
    destruct (Str.empty u); [assumption|].
    destruct (_ || _); [now rewrite Hadd | assumption].
  - unfold wheel_reset.
    destruct (negb (Str.empty (nick cfg))); [rewrite Hadd|];
      open_world w; assumption.
  - destruct (wheel_spin_cases w) as [[_ ->] | [_ ->]];
      [apply Hstart | assumption].
Qed.

(** X8. In every state the program reaches from its initial state with time
    running forward, the remaining flash time lies between 0 and 2
    seconds. *)
Theorem flash_timer_bounded (cfg : TwitchConfig) (ops : list Op) (idx : Z)
    (r : Rng) :
  Forall forward_in_time ops ->
  (0 <= winner_flash_remaining
          (app (run_ops cfg ops (mkWorld app_init idx r []))) <= 2)%Q.
Proof.
  intros Hops.
  assert (H : forall w, (0 <= winner_flash_remaining (app w) <= 2)%Q ->
                (0 <= winner_flash_remaining (app (run_ops cfg ops w))
                   <= 2)%Q).
  { induction Hops as [|op ops Hop _ IH]; intros w Hw; simpl; [assumption|].
    apply IH. now apply run_op_flash_range. }
  apply H. simpl. lra.
Qed.

(** The host joins, the gate opens, a viewer joins by chat, and half a
    second passes. *)
Lemma flash_timer_bounded_witness :
  (0 <= winner_flash_remaining
          (app (run_ops host_cfg
                  [OpJoin (Some "host"); OpEvent Desktop
                     (SDL_EVENT_MOUSE_BUTTON_DOWN SDL_BUTTON_RIGHT);
                   OpLine ":bob!bob@bob.tmi.twitch.tv PRIVMSG #host :!join";
                   OpFrame 0.5]
                  (mkWorld app_init 0 rng_half []))) <= 2)%Q.
Proof.
  apply (flash_timer_bounded host_cfg _ 0 rng_half).
  repeat constructor. discriminate.
Defined.

(** ** Strings: append, substring, search *)

Lemma append_nil_r (s : string) : String.append s "" = s.
Proof. induction s as [|c s IH]; simpl; [reflexivity | now rewrite IH]. Qed.

Lemma append_assoc (a b c : string) :
  String.append (String.append a b) c = String.append a (String.append b c).
Proof. induction a as [|x a IH]; simpl; [reflexivity | now rewrite IH]. Qed.

Lemma append_length (a b : string) :
  String.length (String.append a b) = (String.length a + String.length b)%nat.
Proof. induction a as [|x a IH]; simpl; [reflexivity | now rewrite IH]. Qed.

Lemma substring_all (s : string) : String.substring 0 (String.length s) s = s.
Proof. induction s as [|c s IH]; simpl; [reflexivity | now rewrite IH]. Qed.

Lemma substring_prefix (a b : string) :
  String.substring 0 (String.length a) (String.append a b) = a.
Proof.
  induction a as [|x a IH]; simpl.
  - destruct b; reflexivity.
  - now rewrite IH.
Qed.

Lemma substring_skip (a b : string) (n m : nat) :
  String.substring (String.length a + n) m (String.append a b)
    = String.substring n m b.
Proof. induction a as [|x a IH]; simpl; [reflexivity | exact IH]. Qed.

(** The middle of a string cut in three. *)
Lemma substring_middle (a m b : string) :
  String.substring (String.length a) (String.length m)
    (String.append a (String.append m b)) = m.
Proof.
  rewrite <- (Nat.add_0_r (String.length a)), substring_skip.
  apply substring_prefix.
Qed.

Lemma substr_from_skip (a b : string) :
  Str.substr_from (String.length a) (String.append a b) = b.
Proof.
  unfold Str.substr_from. rewrite append_length.
  replace (String.length a + String.length b - String.length a)%nat
    with (String.length b) by lia.
  rewrite <- (Nat.add_0_r (String.length a)) at 1.
  rewrite substring_skip. apply substring_all.
Qed.

(** ** Trimming *)

Lemma last_char_cons (c : ascii) (s : string) :
  s <> "" -> last_char (String c s) = last_char s.
Proof. destruct s; [congruence | reflexivity]. Qed.

Lemma last_char_append (a m : string) :
  m <> "" -> last_char (String.append a m) = last_char m.
Proof.
  intros Hm. induction a as [|x a IH]; simpl; [reflexivity|].
  rewrite <- IH. destruct (String.append a m) eqn:E; [|reflexivity].
  destruct a; simpl in E; [congruence | discriminate].
Qed.

(** Where the first and the last non-blank stand, and what lies between. *)
Lemma trim_positions (s : string) :
  match find_first_not_of BLANKS s, find_last_not_of BLANKS s with
  | None, None => all_blank s = true
  | Some f, Some l =>
      (f <= l)%nat /\
      exists pre m post,
        s = String.append pre (String.append m post) /\
        String.length pre = f /\ String.length m = (l - f + 1)%nat /\
        all_blank pre = true /\ all_blank post = true /\
        clean m = true /\ m <> ""
  | _, _ => False
  end.
Proof.
  induction s as [|c t IH]; [reflexivity|].
  cbn [find_first_not_of find_last_not_of all_blank].
  fold (blank c).
  destruct (find_first_not_of BLANKS t) as [f|] eqn:Hf;
    destruct (find_last_not_of BLANKS t) as [l|] eqn:Hl;
    try contradiction; destruct (blank c) eqn:Hc;
    cbn [option_map andb].
  - destruct IH as (Hfl & pre & m & post & -> & Hp & Hm & Hbp & Hbq & Hcl & Hne).
    split; [lia|]. exists (String c pre), m, post. simpl.
    rewrite Hc, Hbp. repeat split; auto; lia.
  - destruct IH as (Hfl & pre & m & post & -> & Hp & Hm & Hbp & Hbq & Hcl & Hne).
    split; [lia|].
    exists "", (String c (String.append pre m)), post.
    assert (Hpm : String.append pre m <> "")
      by (destruct pre; simpl; [assumption | discriminate]).
    repeat split; auto.
    + cbn [String.append]. now rewrite append_assoc.
    + cbn [String.length]. rewrite append_length. lia.
    + unfold clean. rewrite (last_char_cons c _ Hpm).
      rewrite (last_char_append pre m Hne).
      rewrite Hc. cbn [negb andb]. unfold clean in Hcl.
      destruct m as [|x m']; [congruence|].
      destruct (last_char (String x m')); [|reflexivity].
      now apply andb_true_iff in Hcl.
    + discriminate.
  - now rewrite IH.
  - split; [lia|]. exists "", (String c ""), t. simpl.
    unfold clean. simpl. rewrite Hc. repeat split; auto. discriminate.
Qed.

Lemma trim_blank (s : string) : all_blank s = true -> trim_in_place s = "".
Proof.
  intros H. unfold trim_in_place.
  assert (Hf : find_first_not_of BLANKS s = None).
  { induction s as [|c t IH]; [reflexivity|].
    cbn [all_blank] in H. apply andb_true_iff in H. destruct H as [Hc Ht].
    cbn [find_first_not_of]. fold (blank c). now rewrite Hc, IH. }
  now rewrite Hf.
Qed.

(** The result of [trim_in_place] inside its argument. *)
Lemma trim_decompose (s : string) :
  exists pre post,
    s = String.append pre (String.append (trim_in_place s) post) /\
    all_blank pre = true /\ all_blank post = true /\
    clean (trim_in_place s) = true.
Proof.
  pose proof (trim_positions s) as H. unfold trim_in_place.
  destruct (find_first_not_of BLANKS s) as [f|];
    destruct (find_last_not_of BLANKS s) as [l|]; try contradiction.
  - destruct H as (_ & pre & m & post & -> & <- & Hm & Hbp & Hbq & Hcl & _).
    exists pre, post. unfold Str.substr. rewrite <- Hm, substring_middle.
    auto.
  - exists s, "". simpl. rewrite append_nil_r. auto.
Qed.

Lemma find_last_clean (c : ascii) (s : string) :
  match last_char (String c s) with
  | Some d => blank d = false
  | None => True
  end ->
  find_last_not_of BLANKS (String c s) = Some (String.length s).
Proof.
  revert c. induction s as [|x s IH]; intros c H.
  - cbn [last_char] in H. cbn [find_last_not_of String.length].
    fold (blank c). now rewrite H.
  - rewrite last_char_cons in H by discriminate.
    change (find_last_not_of BLANKS (String c (String x s)))
      with (match find_last_not_of BLANKS (String x s) with
            | Some i => Some (S i)
            | None => if in_set c BLANKS then None else Some 0%nat
            end).
    now rewrite (IH x H).
Qed.

Lemma last_char_some (c : ascii) (s : string) :
  last_char (String c s) <> None.
Proof.
  revert c. induction s as [|x s IH]; intros c; [discriminate|].
  rewrite last_char_cons by discriminate. apply IH.
Qed.

Lemma trim_clean (s : string) : clean s = true -> trim_in_place s = s.
Proof.
  intros H. destruct s as [|c t]; [reflexivity|].
  unfold clean in H. unfold trim_in_place.
  pose proof (find_last_clean c t) as Hl.
  destruct (last_char (String c t)) as [d|] eqn:Hd.
  - apply andb_true_iff in H. destruct H as [Hc Hdd].
    apply negb_true_iff in Hc, Hdd.
    rewrite (Hl Hdd).
    cbn [find_first_not_of]. fold (blank c). rewrite Hc.
    unfold Str.substr.
    replace (String.length t - 0 + 1)%nat
      with (String.length (String c t)) by (simpl; lia).
    apply substring_all.
  - now apply last_char_some in Hd.
Qed.

(** Leading blanks do not matter. *)
Lemma trim_drop_blanks (pre s : string) :
  all_blank pre = true ->
  trim_in_place (String.append pre s) = trim_in_place s.
Proof.
  induction pre as [|c pre IH]; intros H; [reflexivity|].
  cbn [all_blank] in H. apply andb_true_iff in H. destruct H as [Hc Hp].
  rewrite <- (IH Hp). unfold trim_in_place.
  pose proof (trim_positions (String.append pre s)) as Hpos.
  cbn [String.append find_first_not_of find_last_not_of].
  fold (blank c). rewrite Hc.
  destruct (find_first_not_of BLANKS (String.append pre s)) as [f|];
    destruct (find_last_not_of BLANKS (String.append pre s)) as [l|];
    try contradiction; cbn [option_map]; reflexivity.
Qed.

(** X10.  [trim_in_place] removes blanks (space, tab, carriage return,
    newline) from both ends and nothing else: the argument is the result with
    blanks before and after it, the result neither starts nor ends with a
    blank, and trimming twice is trimming once.  The source does not test the
    position of the last non-blank against [npos]; that case never arises. *)
Theorem trim_in_place_strips_blanks (s : string) :
  (exists pre post,
     s = String.append pre (String.append (trim_in_place s) post) /\
     all_blank pre = true /\ all_blank post = true) /\
  clean (trim_in_place s) = true /\
  trim_in_place (trim_in_place s) = trim_in_place s /\
  (find_first_not_of BLANKS s <> None -> find_last_not_of BLANKS s <> None).
Proof.
  destruct (trim_decompose s) as (pre & post & Hs & Hp & Hq & Hc).
  split; [now exists pre, post|].
  split; [assumption|].
  split; [now apply trim_clean|].
  pose proof (trim_positions s) as H.
  destruct (find_first_not_of BLANKS s);
    destruct (find_last_not_of BLANKS s); try contradiction; congruence.
Qed.

(** ** Configuration lines *)

Lemma find_last_blank (s : string) :
  all_blank s = true -> find_last_not_of BLANKS s = None.
Proof.
  induction s as [|c t IH]; [reflexivity|].
  cbn [all_blank find_last_not_of]. intros H.
  apply andb_true_iff in H. destruct H as [Hc Ht].
  rewrite (IH Ht). fold (blank c). now rewrite Hc.
Qed.

Lemma find_last_append (a b : string) :
  find_last_not_of BLANKS (String.append a b)
    = match find_last_not_of BLANKS b with
      | Some l => Some (String.length a + l)%nat
      | None => find_last_not_of BLANKS a
      end.
Proof.
  induction a as [|c a IH].
  - cbn [String.append String.length Nat.add find_last_not_of].
    now destruct (find_last_not_of BLANKS b).
  - cbn [String.append String.length find_last_not_of]. rewrite IH.
    destruct (find_last_not_of BLANKS b); reflexivity.
Qed.

Lemma rstrip_blank (s : string) : all_blank s = true -> rstrip s = "".
Proof. intros H. unfold rstrip. now rewrite find_last_blank. Qed.

Lemma clean_last (c : ascii) (s : string) :
  clean (String c s) = true ->
  blank c = false /\
  find_last_not_of BLANKS (String c s) = Some (String.length s).
Proof.
  intros H. unfold clean in H.
  pose proof (find_last_clean c s) as Hl.
  destruct (last_char (String c s)) as [d|] eqn:Hd.
  - apply andb_true_iff in H. destruct H as [Hc Hdd].
    apply negb_true_iff in Hc, Hdd. auto.
  - now apply last_char_some in Hd.
Qed.

(** Trimming a string with a clean, non-empty head strips the right end of
    what follows the head. *)
Lemma trim_head (c : ascii) (h r : string) :
  clean (String c h) = true ->
  trim_in_place (String.append (String c h) r)
    = String.append (String c h) (rstrip r).
Proof.
  intros H. destruct (clean_last c h H) as [Hc Hl].
  unfold trim_in_place. rewrite find_last_append, Hl.
  cbn [String.append find_first_not_of]. fold (blank c). rewrite Hc.
  unfold rstrip, Str.substr.
  destruct (find_last_not_of BLANKS r) as [l|] eqn:Hr.
  - pose proof (trim_positions r) as Hpos. rewrite Hr in Hpos.
    destruct (find_first_not_of BLANKS r) as [f|]; [|contradiction].
    destruct Hpos as (Hfl & pre & m & post & -> & Hp & Hm & _).
    replace (String.length (String c h) + l - 0 + 1)%nat
      with (String.length (String c (String.append h
              (String.append pre m)))).
    2:{ cbn [String.length]. rewrite !append_length. lia. }
    replace (l + 1)%nat with (String.length (String.append pre m))
      by (rewrite append_length; lia).
    rewrite <- (append_assoc pre m post).
    rewrite (substring_prefix (String.append pre m) post).
    change (String c (String.append h (String.append (String.append pre m)
              post)))
      with (String.append (String c h)
              (String.append (String.append pre m) post)).
    rewrite <- (append_assoc (String c h) (String.append pre m) post).
    apply substring_prefix.
  - replace (String.length h - 0 + 1)%nat
      with (String.length (String c h)) by (cbn [String.length]; lia).
    change (String c (String.append h r))
      with (String.append (String c h) r).
    rewrite substring_prefix. now rewrite append_nil_r.
Qed.

(** A clean value between blanks. *)
Lemma trim_rstrip_value (c v d : string) :
  all_blank c = true -> all_blank d = true -> clean v = true ->
  trim_in_place (rstrip (String.append c (String.append v d))) = v.
Proof.
  intros Hc Hd Hv. destruct v as [|x v].
  - cbn [String.append]. rewrite rstrip_blank; [reflexivity|].
    clear -Hc Hd. induction c as [|y c IH]; [assumption|].
    cbn [all_blank String.append] in *.
    apply andb_true_iff in Hc. destruct Hc as [Hy Hc].
    now rewrite Hy, IH.
  - destruct (clean_last x v Hv) as [Hx Hl].
    unfold rstrip. rewrite !find_last_append, (find_last_blank d Hd), Hl.
    replace (String.length c + String.length v + 1)%nat
      with (String.length (String.append c (String x v)))
      by (rewrite append_length; cbn [String.length]; lia).
    rewrite <- (append_assoc c (String x v) d), substring_prefix.
    rewrite (trim_drop_blanks c _ Hc). now apply trim_clean.
Qed.

Lemma blank_cases (c : ascii) :
  blank c = true ->
  c = " "%char \/ c = ascii_of_nat 9 \/ c = ascii_of_nat 13
    \/ c = ascii_of_nat 10.
Proof.
  unfold blank, BLANKS. cbn [in_set]. intros H.
  repeat (apply orb_true_iff in H; destruct H as [H|H]);
    try discriminate; apply Ascii.eqb_eq in H; auto.
Qed.

Lemma plain_tolower (c : ascii) :
  plain (Str.tolower c) = true -> plain c = true.
Proof.
  destruct (plain c) eqn:E; [reflexivity|]. intros H.
  assert (Hc : Str.tolower c = c).
  { unfold plain in E.
    destruct (blank c) eqn:Hb.
    - destruct (blank_cases c Hb) as [->|[->|[->| ->]]]; reflexivity.
    - destruct (Ascii.eqb c "=") eqn:He.
      + apply Ascii.eqb_eq in He. now subst.
      + destruct (Ascii.eqb c "#") eqn:Hh; [|discriminate].
        apply Ascii.eqb_eq in Hh. now subst. }
  congruence.
Qed.

Lemma all_plain_to_lower (s : string) :
  all_plain (to_lower s) = true -> all_plain s = true.
Proof.
  induction s as [|c s IH]; [reflexivity|].
  unfold to_lower in *. cbn [Str.map all_plain]. intros H.
  apply andb_true_iff in H. destruct H as [Hc Hs].
  now rewrite (plain_tolower c Hc), (IH Hs).
Qed.

Lemma plain_parts (c : ascii) :
  plain c = true ->
  blank c = false /\ c <> "="%char /\ c <> "#"%char.
Proof.
  unfold plain. intros H.
  apply andb_true_iff in H. destruct H as [H Hh].
  apply andb_true_iff in H. destruct H as [Hb He].
  apply negb_true_iff in Hb, He, Hh.
  repeat split; [assumption| |]; intros ->; discriminate.
Qed.

Lemma all_plain_last (c : ascii) (s : string) :
  all_plain (String c s) = true ->
  match last_char (String c s) with
  | Some d => blank d = false
  | None => False
  end.
Proof.
  revert c. induction s as [|x s IH]; intros c H.
  - cbn [all_plain] in H. apply andb_true_iff in H.
    cbn [last_char]. now apply plain_parts.
  - rewrite last_char_cons by discriminate. apply IH.
    cbn [all_plain] in H. now apply andb_true_iff in H.
Qed.

Lemma all_plain_clean (s : string) : all_plain s = true -> clean s = true.
Proof.
  destruct s as [|c s]; [reflexivity|]. intros H.
  pose proof (all_plain_last c s H) as Hl. unfold clean.
  destruct (last_char (String c s)) as [d|]; [|reflexivity].
  cbn [all_plain] in H. apply andb_true_iff in H. destruct H as [Hc _].
  apply plain_parts in Hc. destruct Hc as [Hc _]. now rewrite Hc, Hl.
Qed.

Lemma all_plain_no_equals (s : string) :
  all_plain s = true -> lacks "=" s = true.
Proof.
  induction s as [|c s IH]; [reflexivity|].
  cbn [all_plain lacks]. intros H.
  apply andb_true_iff in H. destruct H as [Hc Hs].
  rewrite (IH Hs). unfold plain in Hc.
  apply andb_true_iff in Hc. destruct Hc as [Hc _].
  apply andb_true_iff in Hc. destruct Hc as [_ Hc]. now rewrite Hc.
Qed.

Lemma all_blank_no_equals (s : string) :
  all_blank s = true -> lacks "=" s = true.
Proof.
  induction s as [|c s IH]; [reflexivity|].
  cbn [all_blank lacks]. intros H.
  apply andb_true_iff in H. destruct H as [Hc Hs].
  rewrite (IH Hs).
  destruct (blank_cases c Hc) as [->|[->|[->| ->]]]; reflexivity.
Qed.

Lemma lacks_append (x : ascii) (a b : string) :
  lacks x a = true -> lacks x b = true ->
  lacks x (String.append a b) = true.
Proof.
  intros Ha Hb. induction a as [|c a IH]; [assumption|].
  cbn [lacks String.append] in *.
  apply andb_true_iff in Ha. destruct Ha as [Hc Ha].
  now rewrite Hc, IH.
Qed.

Lemma all_blank_append (a b : string) :
  all_blank a = true -> all_blank b = true ->
  all_blank (String.append a b) = true.
Proof.
  intros Ha Hb. induction a as [|c a IH]; [assumption|].
  cbn [all_blank String.append] in *.
  apply andb_true_iff in Ha. destruct Ha as [Hc Ha].
  now rewrite Hc, IH.
Qed.

Lemma lacks_head (x c : ascii) (s : string) :
  lacks x (String c s) = true -> c <> x /\ lacks x s = true.
Proof.
  cbn [lacks]. intros H. apply andb_true_iff in H. destruct H as [Hc Hs].
  split; [|assumption]. intros ->. now rewrite Ascii.eqb_refl in Hc.
Qed.

(** The first [x] comes after a part that has none. *)
Lemma find_char (x : ascii) (p r : string) :
  lacks x p = true ->
  Str.find (String x "") 0 (String.append p (String x r))
    = Some (String.length p).
Proof.
  unfold Str.find. induction p as [|c p IH]; intros H.
  - cbn [String.append String.length String.index String.prefix].
    destruct (ascii_dec x x) as [_|n]; [|congruence].
    now destruct r.
  - apply lacks_head in H. destruct H as [Hc Hp].
    cbn [String.append String.length String.index String.prefix].
    destruct (ascii_dec x c) as [e|_]; [congruence|].
    now rewrite (IH Hp).
Qed.

(** The line of an assignment with a clean key (no equals sign inside, no
    comment sign in front): the key and the value the loop body extracts. *)
Lemma config_line_parts (a b c d v : string) (k : ascii) (key : string) :
  all_blank a = true -> all_blank b = true ->
  all_blank c = true -> all_blank d = true ->
  clean v = true -> all_plain (String k key) = true ->
  let line := trim_in_place (assignment a (String k key) b c v d) in
  Str.empty line = false /\ Str.char_at_is 0 "#" line = false /\
  Str.find "=" 0 line = Some (String.length (String k key) + String.length b)%nat /\
  trim_in_place
    (Str.substr 0 (String.length (String k key) + String.length b) line)
    = String k key /\
  trim_in_place
    (Str.substr_from (String.length (String k key) + String.length b + 1)
       line) = v.
Proof.
  intros Ha Hb Hc Hd Hv Hk line.
  set (K := String k key) in *.
  set (R := String.append c (String.append v d)).
  assert (Hline : line
            = String.append (String.append K b) (String "=" (rstrip R))).
  { unfold line, assignment. rewrite (trim_drop_blanks a _ Ha).
    change (String "=" (String.append c (String.append v d)))
      with (String.append "=" R).
    rewrite <- (append_assoc b "=" R), <- (append_assoc K _ R).
    assert (Hh : String.append K (String.append b "=")
                 = String k (String.append key (String.append b "=")))
      by reflexivity.
    rewrite Hh, trim_head.
    - rewrite <- Hh, <- (append_assoc K b "="), append_assoc. reflexivity.
    - unfold clean. rewrite last_char_cons
        by (destruct key; [destruct b|]; discriminate).
      rewrite <- (append_assoc key b "="), last_char_append by discriminate.
      cbn [last_char]. cbn [all_plain] in Hk. unfold K in Hk.
      cbn [all_plain] in Hk.
      apply andb_true_iff in Hk. destruct Hk as [Hk _].
      apply plain_parts in Hk. destruct Hk as [Hk _]. now rewrite Hk. }
  assert (Hlen : (String.length K + String.length b)%nat
                 = String.length (String.append K b))
    by now rewrite append_length.
  pose proof (all_plain_clean K Hk) as HKc.
  rewrite Hline, Hlen. repeat split.
  - unfold K. cbn [String.append Str.empty]. unfold Str.char_at_is.
    cbn [String.get]. unfold K in Hk. cbn [all_plain] in Hk.
    apply andb_true_iff in Hk. destruct Hk as [Hk _].
    apply plain_parts in Hk. destruct Hk as (_ & _ & Hk).
    destruct (Ascii.eqb k "#") eqn:E; [|reflexivity].
    now apply Ascii.eqb_eq in E.
  - apply (find_char "="), lacks_append.
    + now apply all_plain_no_equals.
    + now apply all_blank_no_equals.
  - unfold Str.substr. rewrite substring_prefix.
    unfold K at 1. rewrite trim_head by exact HKc.
    now rewrite rstrip_blank, append_nil_r.
  - replace (String.length (String.append K b) + 1)%nat
      with (String.length (String.append (String.append K b) "="))
      by (rewrite !append_length; reflexivity).
    change (String "=" (rstrip R)) with (String.append "=" (rstrip R)).
    rewrite <- (append_assoc (String.append K b) "=" (rstrip R)).
    rewrite substr_from_skip. now apply trim_rstrip_value.
Qed.

Lemma config_line_key (a key b c v d : string) (out : TwitchConfig) :
  all_blank a = true -> all_blank b = true ->
  all_blank c = true -> all_blank d = true ->
  clean v = true -> all_plain key = true -> key <> "" ->
  config_line (assignment a key b c v d) out
    = if String.eqb (to_lower key) "oauth"
      then mkCfg v (nick out) (channel out)
      else if String.eqb (to_lower key) "nick"
      then mkCfg (oauth out) v (channel out)
      else if String.eqb (to_lower key) "channel"
      then mkCfg (oauth out) (nick out) v
      else out.
Proof.
  intros Ha Hb Hc Hd Hv Hk Hne.
  destruct key as [|k key]; [congruence|].
  destruct (config_line_parts a b c d v k key Ha Hb Hc Hd Hv Hk)
    as (He & Hh & Hf & Hkey & Hval).
  unfold config_line. rewrite He, Hh. cbn [orb]. rewrite Hf, Hkey, Hval.
  reflexivity.
Qed.

(** X11.  A line [key = value] of the configuration file, with blanks
    (spaces, tabs, a carriage return left by a CRLF file) before and after
    the key and the value, stores exactly the value in the field the key
    names; the key is matched without regard to case, and a line with any
    other key (free of blanks, equals signs and comment signs) changes
    nothing. *)
Theorem config_line_assignment (a key b c v d : string)
    (out : TwitchConfig) :
  all_blank a = true -> all_blank b = true ->
  all_blank c = true -> all_blank d = true -> clean v = true ->
  (to_lower key = "oauth" ->
     config_line (assignment a key b c v d) out
       = mkCfg v (nick out) (channel out)) /\
  (to_lower key = "nick" ->
     config_line (assignment a key b c v d) out
       = mkCfg (oauth out) v (channel out)) /\
  (to_lower key = "channel" ->
     config_line (assignment a key b c v d) out
       = mkCfg (oauth out) (nick out) v) /\
  (all_plain key = true -> key <> "" ->
     to_lower key <> "oauth" -> to_lower key <> "nick" ->
     to_lower key <> "channel" ->
     config_line (assignment a key b c v d) out = out).
Proof.
  intros Ha Hb Hc Hd Hv.
  assert (Hknown : forall k, to_lower key = k -> all_plain k = true ->
            k <> "" -> all_plain key = true /\ key <> "").
  { intros k Hk Hp Hne. split.
    - apply all_plain_to_lower. now rewrite Hk.
    - intros ->. now apply Hne. }
  repeat split.
  - intros Hk.
    destruct (Hknown _ Hk eq_refl ltac:(discriminate)) as [Hp Hne].
    rewrite config_line_key by assumption. now rewrite Hk.
  - intros Hk.
    destruct (Hknown _ Hk eq_refl ltac:(discriminate)) as [Hp Hne].
    rewrite config_line_key by assumption. now rewrite Hk.
  - intros Hk.
    destruct (Hknown _ Hk eq_refl ltac:(discriminate)) as [Hp Hne].
    rewrite config_line_key by assumption. now rewrite Hk.
  - intros Hp Hne H1 H2 H3.
    rewrite config_line_key by assumption.
    apply String.eqb_neq in H1, H2, H3. now rewrite H1, H2, H3.
Qed.

(** A line of a file with CRLF line ends, as [std::getline] leaves it:
    [  Nick = Some Body] followed by a carriage return. *)
Lemma config_line_assignment_witness :
  config_line
    (assignment "  " "Nick" " " " " "Some Body"
       (String (ascii_of_nat 13) ""))
    (mkCfg "" "" "")
  = mkCfg "" "Some Body" "".
Proof.
  apply (config_line_assignment "  " "Nick" " " " " "Some Body"
           (String (ascii_of_nat 13) "") (mkCfg "" "" "")); reflexivity.
Defined.

Lemma config_line_clean (line : string) (out : TwitchConfig) :
  clean_cfg out = true -> clean_cfg (config_line line out) = true.
Proof.
  unfold clean_cfg. intros H.
  apply andb_true_iff in H. destruct H as [H Hch].
  apply andb_true_iff in H. destruct H as [Ho Hn].
  unfold config_line.
  destruct (Str.empty (trim_in_place line)
            || Str.char_at_is 0 "#" (trim_in_place line));
    [now rewrite Ho, Hn, Hch|].
  destruct (Str.find "=" 0 (trim_in_place line)) as [eq|];
    [|now rewrite Ho, Hn, Hch].
  set (value := trim_in_place (Str.substr_from (eq + 1) (trim_in_place line))).
  assert (Hv : clean value = true)
    by (destruct (trim_decompose
          (Str.substr_from (eq + 1) (trim_in_place line)))
          as (? & ? & _ & _ & _ & Hcl); exact Hcl).
  repeat match goal with
         | |- context [if ?b then _ else _] => destruct b
         end; cbn [oauth nick channel]; now rewrite ?Ho, ?Hn, ?Hch, ?Hv.
Qed.

(** X12.  Every value [load_twitch_config] stores is trimmed: if no field
    of the configuration starts or ends with a blank before the call, none
    does after it, whatever the file holds; a file that cannot be opened
    leaves the configuration as it was and is reported as a failure. *)
Theorem load_twitch_config_values_trimmed (file : option string)
    (out : TwitchConfig) :
  clean_cfg out = true ->
  clean_cfg (snd (load_twitch_config file out)) = true /\
  load_twitch_config None out = (false, out).
Proof.
  intros H. split; [|reflexivity].
  destruct file as [content|]; [|exact H].
  cbn [load_twitch_config snd].
  revert out H. induction (getlines content) as [|l ls IH]; intros out H.
  - exact H.
  - cbn [fold_left]. apply IH. now apply config_line_clean.
Qed.

(** A file with padded values, read into the empty configuration. *)
Lemma load_twitch_config_values_trimmed_witness :
  clean_cfg
    (snd (load_twitch_config
            (Some (String.append "oauth =  oauth:abc  "
                     (String (ascii_of_nat 10) "nick=Host ")))
            (mkCfg "" "" ""))) = true /\
  load_twitch_config None (mkCfg "" "" "") = (false, mkCfg "" "" "").
Proof.
  apply (load_twitch_config_values_trimmed
           (Some (String.append "oauth =  oauth:abc  "
                    (String (ascii_of_nat 10) "nick=Host ")))
           (mkCfg "" "" "")).
  reflexivity.
Defined.

Lemma lacks_split (x : ascii) (a b : string) :
  lacks x (String.append a b) = true ->
  lacks x a = true /\ lacks x b = true.
Proof.
  induction a as [|c a IH]; [now split|].
  cbn [String.append lacks]. intros H.
  apply andb_true_iff in H. destruct H as [Hc H].
  destruct (IH H) as [Ha Hb]. now rewrite Hc, Ha.
Qed.

Lemma find_lacks (x : ascii) (s : string) :
  lacks x s = true -> Str.find (String x "") 0 s = None.
Proof.
  unfold Str.find. induction s as [|c s IH]; [reflexivity|].
  intros H. apply lacks_head in H. destruct H as [Hc Hs].
  cbn [String.index String.prefix].
  destruct (ascii_dec x c) as [e|_]; [congruence|].
  now rewrite (IH Hs).
Qed.

(** X13.  The configuration loader skips what is not an assignment: a
    blank line, a comment line (a [#] after optional blanks), and a line
    without an equals sign each leave the configuration unchanged. *)
Theorem config_line_skips_non_assignments (pre rest line : string)
    (out : TwitchConfig) :
  all_blank pre = true ->
  config_line pre out = out /\
  config_line (String.append pre (String "#" rest)) out = out /\
  (lacks "=" line = true -> config_line line out = out).
Proof.
  intros Hp. repeat split.
  - unfold config_line. now rewrite (trim_blank pre Hp).
  - unfold config_line. rewrite (trim_drop_blanks pre _ Hp).
    change (String "#" rest) with (String.append (String "#" "") rest).
    now rewrite trim_head.
  - intros Hl. unfold config_line.
    destruct (trim_decompose line) as (p & q & Hs & _).
    rewrite Hs in Hl. apply lacks_split in Hl. destruct Hl as [_ Hl].
    apply lacks_split in Hl. destruct Hl as [Hl _].
    rewrite (find_lacks "=" _ Hl).
    now destruct (Str.empty (trim_in_place line)
                  || Str.char_at_is 0 "#" (trim_in_place line)).
Qed.

(** An indented comment that holds an assignment. *)
Lemma config_line_skips_non_assignments_witness :
  config_line "  " host_cfg = host_cfg /\
  config_line (String.append "  " (String "#" " nick = other")) host_cfg
    = host_cfg /\
  (lacks "=" "nick other" = true -> config_line "nick other" host_cfg = host_cfg).
Proof.
  apply (config_line_skips_non_assignments "  " " nick = other"
           "nick other" host_cfg).
  reflexivity.
Defined.

(** ** Chat lines *)

Lemma index_skip (a s pat : string) (n : nat) :
  String.index (String.length a + n) pat (String.append a s)
    = option_map (Nat.add (String.length a)) (String.index n pat s).
Proof.
  induction a as [|c a IH].
  - cbn [String.length String.append Nat.add].
    destruct (String.index n pat s); reflexivity.
  - cbn [String.length String.append Nat.add String.index]. rewrite IH.
    destruct (String.index n pat s); reflexivity.
Qed.

Lemma prefix_nil (s : string) : String.prefix "" s = true.
Proof. destruct s; reflexivity. Qed.

Lemma prefix_append_same (pat b : string) :
  String.prefix pat (String.append pat b) = true.
Proof.
  induction pat as [|c pat IH]; [apply prefix_nil|].
  cbn [String.append String.prefix].
  destruct (ascii_dec c c); [exact IH | congruence].
Qed.

Lemma index_first_le (a pat b : string) :
  exists k, String.index 0 pat (String.append a (String.append pat b))
            = Some k /\ (k <= String.length a)%nat.
Proof.
  induction a as [|c a IH].
  - cbn [String.append String.length].
    destruct (String.append pat b) eqn:E.
    + destruct pat; [|discriminate]. exists 0%nat. split; [reflexivity|lia].
    + rewrite <- E. exists 0%nat. rewrite E. cbn [String.index].
      rewrite <- E, prefix_append_same. split; [reflexivity|lia].
  - cbn [String.append String.length String.index].
    destruct IH as (k & Hk & Hle). rewrite Hk.
    destruct (String.prefix pat _).
    + exists 0%nat. split; [reflexivity|lia].
    + exists (S k). split; [reflexivity|lia].
Qed.

Lemma index_from_le (pat s : string) (n m : nat) :
  String.index 0 pat s = Some m -> (n <= m)%nat ->
  String.index n pat s = Some m.
Proof.
  revert n m. induction s as [|c s IH]; intros n m H Hle.
  - cbn [String.index] in H. destruct pat; [|discriminate].
    injection H as <-. now replace n with 0%nat by lia.
  - destruct n as [|n]; [assumption|].
    cbn [String.index] in *.
    destruct (String.prefix pat (String c s)).
    + injection H as <-. lia.
    + destruct (String.index 0 pat s) as [m'|]; [|discriminate].
      injection H as <-. rewrite (IH n m' eq_refl); [reflexivity|lia].
Qed.

Lemma space_colon_free_weaken (b : bool) (s : string) :
  space_colon_free b s = true -> space_colon_free false s = true.
Proof.
  destruct s as [|c s]; [reflexivity|]. cbn [space_colon_free].
  intros H. apply andb_true_iff in H. destruct H as [_ H].
  now rewrite H.
Qed.

Lemma find_space_colon (p msg : string) :
  space_colon_free false (String.append p " ") = true ->
  String.index 0 " :" (String.append p (String " " (String ":" msg)))
    = Some (String.length p).
Proof.
  induction p as [|c p IH]; intros H.
  - cbn. now rewrite prefix_nil.
  - cbn [String.append space_colon_free andb negb] in H.
    cbn [String.append String.length String.index String.prefix].
    rewrite (IH (space_colon_free_weaken _ _ H)).
    destruct (ascii_dec " " c) as [e|_]; [|reflexivity].
    subst c. cbn [Ascii.eqb Bool.eqb] in H.
    destruct p as [|d p].
    + reflexivity.
    + cbn [String.append String.prefix].
      destruct (ascii_dec ":" d) as [e|_]; [|reflexivity].
      subst d. discriminate.
Qed.

Lemma space_colon_free_skip (u x : string) :
  lacks " " u = true ->
  space_colon_free false (String.append u x) = space_colon_free false x.
Proof.
  induction u as [|c u IH]; intros H; [reflexivity|].
  apply lacks_head in H. destruct H as [Hc Hu].
  cbn [String.append space_colon_free andb negb].
  apply Ascii.eqb_neq in Hc. rewrite Hc. now apply IH.
Qed.

Lemma privmsg_split (user host chan msg : string) :
  privmsg user host chan msg
    = String.append (privmsg_head user host chan)
        (String " " (String ":" msg)).
Proof.
  unfold privmsg, privmsg_head. cbn [String.append].
  rewrite !append_assoc. cbn [String.append]. rewrite !append_assoc.
  reflexivity.
Qed.

Lemma privmsg_marker (user host chan msg : string) :
  exists priv,
    Str.find "PRIVMSG" 0 (privmsg user host chan msg) = Some priv /\
    (priv <= String.length (privmsg_head user host chan))%nat.
Proof.
  destruct (index_first_le
              (String ":" (String.append user (String "!"
                 (String.append host " "))))
              "PRIVMSG"
              (String " " (String.append chan (String.append " :" msg))))
    as (k & Hk & Hle).
  exists k. unfold Str.find. split.
  - rewrite <- Hk. f_equal. unfold privmsg. cbn [String.append].
    rewrite !append_assoc. cbn [String.append]. rewrite !append_assoc.
    reflexivity.
  - unfold privmsg_head. cbn [String.length] in *.
    rewrite !append_length in *. cbn [String.length] in *.
    rewrite !append_length in *. cbn [String.length] in *. lia.
Qed.

Lemma privmsg_head_free (user host chan : string) :
  lacks " " user = true -> lacks " " host = true ->
  lacks " " chan = true -> lacks ":" chan = true ->
  space_colon_free false (String.append (privmsg_head user host chan) " ")
    = true.
Proof.
  intros Hu Hh Hc Hcc. unfold privmsg_head.
  cbn [String.append space_colon_free andb negb Ascii.eqb Bool.eqb].
  rewrite !append_assoc. rewrite (space_colon_free_skip user _ Hu).
  cbn [String.append space_colon_free andb negb Ascii.eqb Bool.eqb].
  rewrite !append_assoc. rewrite (space_colon_free_skip host _ Hh).
  cbn [String.append space_colon_free andb negb Ascii.eqb Bool.eqb].
  destruct chan as [|c chan]; [reflexivity|].
  apply lacks_head in Hc, Hcc. destruct Hc as [Hc Hc'], Hcc as [Hcc _].
  cbn [String.append space_colon_free andb].
  apply Ascii.eqb_neq in Hc, Hcc. rewrite Hc, Hcc. cbn [negb andb].
  now rewrite (space_colon_free_skip chan _ Hc').
Qed.

Lemma parse_username_privmsg (user host chan msg : string) :
  lacks "!" user = true ->
  parse_username_from_irc_line (privmsg user host chan msg) = user.
Proof.
  intros Hu. unfold parse_username_from_irc_line, privmsg.
  unfold Str.char_at_is. cbn [String.get Ascii.eqb Bool.eqb].
  unfold Str.find. cbn [Nat.add String.index].
  change (String.index 0 "!" (String.append user (String "!" ?r)))
    with (Str.find "!" 0 (String.append user (String "!" r))).
  rewrite (find_char "!" user _ Hu).
  unfold Str.substr. cbn [String.substring].
  replace (S (String.length user) - 1)%nat with (String.length user) by lia.
  apply substring_prefix.
Qed.

(** X14.  A chat message [:user!host PRIVMSG chan :msg] whose user, host
    and channel hold no space (the user no exclamation mark, the channel no
    colon) registers exactly [user] when its text starts with [!join] in any
    letter case and the gate is open, and changes nothing otherwise, whatever
    else the text holds. *)
Theorem chat_join_registers_sender (user host chan msg : string)
    (w : World) :
  lacks "!" user = true -> lacks " " user = true ->
  lacks " " host = true ->
  lacks " " chan = true -> lacks ":" chan = true ->
  handle_irc_line (privmsg user host chan msg) w
    = if Str.starts_with "!join" (to_lower msg) && join_open (app w)
      then add_player user w else w.
Proof.
  intros Hu1 Hu2 Hh Hc1 Hc2.
  destruct (privmsg_marker user host chan msg) as (priv & Hpriv & Hle).
  pose proof (find_space_colon (privmsg_head user host chan) msg
                (privmsg_head_free user host chan Hu2 Hh Hc1 Hc2)) as Hsc.
  rewrite <- privmsg_split in Hsc.
  apply (index_from_le _ _ priv) in Hsc; [|exact Hle].
  unfold handle_irc_line. rewrite Hpriv.
  change (Str.find " :" priv (privmsg user host chan msg))
    with (String.index priv " :" (privmsg user host chan msg)).
  rewrite Hsc. rewrite (parse_username_privmsg user host chan msg Hu1).
  assert (Hmsg : Str.substr_from
                   (String.length (privmsg_head user host chan) + 2)
                   (privmsg user host chan msg) = msg).
  { rewrite privmsg_split.
    change (String " " (String ":" msg)) with (String.append " :" msg).
    rewrite <- append_assoc.
    replace (String.length (privmsg_head user host chan) + 2)%nat
      with (String.length (String.append (privmsg_head user host chan) " :"))
      by (rewrite append_length; reflexivity).
    apply substr_from_skip. }
  rewrite Hmsg.
  now destruct (Str.starts_with "!join" (to_lower msg)).
Qed.

(** A viewer joins in capitals while the gate is open. *)
Lemma chat_join_registers_sender_witness :
  handle_irc_line
    (privmsg "carol" "carol@carol.tmi.twitch.tv" "#host" "!JOIN please")
    (with_app (set_join true) two_players)
  = add_player "carol" (with_app (set_join true) two_players).
Proof.
  apply (chat_join_registers_sender "carol" "carol@carol.tmi.twitch.tv"
           "#host" "!JOIN please" (with_app (set_join true) two_players));
    reflexivity.
Defined.

Lemma get_skip (a s : string) (n : nat) :
  String.get (String.length a + n) (String.append a s) = String.get n s.
Proof. induction a as [|c a IH]; [reflexivity | exact IH]. Qed.

(** X15.  [parse_username_from_irc_line] returns the name between the
    leading colon and the first exclamation mark, also behind a block of
    IRCv3 tags ([@tags] up to the first space). *)
Theorem parse_username_round_trip (tags user rest : string) :
  lacks "!" user = true ->
  parse_username_from_irc_line
    (String ":" (String.append user (String "!" rest))) = user /\
  (lacks " " tags = true ->
   parse_username_from_irc_line
     (String "@" (String.append tags (String " "
        (String ":" (String.append user (String "!" rest)))))) = user).
Proof.
  intros Hu. split.
  - unfold parse_username_from_irc_line.
    unfold Str.char_at_is. cbn [String.get Ascii.eqb Bool.eqb].
    unfold Str.find. cbn [Nat.add String.index].
    change (String.index 0 "!" (String.append user (String "!" rest)))
      with (Str.find "!" 0 (String.append user (String "!" rest))).
    rewrite (find_char "!" user _ Hu).
    unfold Str.substr. cbn [String.substring].
    replace (S (String.length user) - 1)%nat with (String.length user)
      by lia.
    apply substring_prefix.
  - intros Ht. unfold parse_username_from_irc_line.
    set (body := String.append user (String "!" rest)).
    set (a := String "@" (String.append tags " :")).
    assert (Hline : String "@" (String.append tags (String " "
                      (String ":" body))) = String.append a body).
    { unfold a. cbn [String.append]. rewrite append_assoc. reflexivity. }
    assert (Hlen : String.length a = (String.length tags + 1 + 1 + 1)%nat).
    { unfold a. cbn [String.length]. rewrite append_length.
      cbn [String.length]. lia. }
    assert (Hsp : Str.find " " 0 (String "@" (String.append tags
                    (String " " (String ":" body))))
                  = Some (S (String.length tags))).
    { unfold Str.find. cbn [String.index String.prefix].
      destruct (ascii_dec " " "@") as [e|_]; [discriminate|].
      change (String.index 0 " " (String.append tags (String " " ?r)))
        with (Str.find " " 0 (String.append tags (String " " r))).
      now rewrite (find_char " " tags _ Ht). }
    unfold Str.char_at_is at 1. cbn [String.get Ascii.eqb Bool.eqb].
    rewrite Hsp.
    assert (Hcolon : Str.char_at_is (S (String.length tags) + 1) ":"
                       (String "@" (String.append tags
                          (String " " (String ":" body)))) = true).
    { unfold Str.char_at_is. cbn [String.get Nat.add].
      replace (String.length tags + 1)%nat
        with (String.length (String.append tags " ") + 0)%nat
        by (rewrite append_length; cbn [String.length]; lia).
      change (String " " (String ":" body))
        with (String.append " " (String ":" body)).
      rewrite <- append_assoc, get_skip. reflexivity. }
    rewrite Hcolon, Hline.
    replace (S (String.length tags) + 1 + 1)%nat
      with (String.length a + 0)%nat by lia.
    unfold Str.find. rewrite index_skip.
    change (String.index 0 "!" body) with (Str.find "!" 0 body).
    unfold body at 1. rewrite (find_char "!" user _ Hu).
    cbn [option_map]. unfold Str.substr.
    replace (String.length a + String.length user - (String.length a + 0))%nat
      with (String.length user) by lia.
    rewrite substring_skip. apply substring_prefix.
Qed.

(** A tagged line. *)
Lemma parse_username_round_trip_witness :
  parse_username_from_irc_line
    (String ":" (String.append "dana" (String "!" "dana@x PRIVMSG #h :hi")))
    = "dana" /\
  (lacks " " "badges=vip/1;color=" = true ->
   parse_username_from_irc_line
     (String "@" (String.append "badges=vip/1;color=" (String " "
        (String ":" (String.append "dana"
           (String "!" "dana@x PRIVMSG #h :hi")))))) = "dana").
Proof.
  apply (parse_username_round_trip "badges=vip/1;color=" "dana"
           "dana@x PRIVMSG #h :hi").
  reflexivity.
Defined.

(** X16.  A keepalive probe is answered with its own payload: a line
    [PING...:payload] gives the one reply [PONG :payload], and a probe
    without a colon gives [PONG :tmi.twitch.tv]. *)
Theorem ping_answered_with_payload (x payload : string) (w : World) :
  lacks ":" x = true ->
  handle_irc_line
    (String.append "PING" (String.append x (String ":" payload))) w
    = send_line (String.append "PONG :" payload) w /\
  handle_irc_line (String.append "PING" x) w
    = send_line "PONG :tmi.twitch.tv" w.
Proof.
  intros Hx.
  assert (Hp : lacks ":" (String.append "PING" x) = true)
    by (apply lacks_append; [reflexivity | assumption]).
  split.
  - unfold handle_irc_line.
    cbn [String.append Str.empty Str.starts_with String.prefix].
    repeat match goal with
           | |- context [ascii_dec ?a ?b] =>
               destruct (ascii_dec a b); [|congruence]
           end.
    rewrite prefix_nil.
    change (String "P" (String "I" (String "N" (String "G"
              (String.append x (String ":" payload))))))
      with (String.append (String.append "PING" x) (String ":" payload)).
    rewrite (find_char ":" _ payload Hp).
    replace (String.length (String.append "PING" x) + 1)%nat
      with (String.length (String.append (String.append "PING" x) ":"))
      by (rewrite (append_length _ ":"); reflexivity).
    change (String ":" payload) with (String.append ":" payload).
    rewrite <- (append_assoc (String.append "PING" x) ":" payload).
    now rewrite substr_from_skip.
  - unfold handle_irc_line.
    rewrite (find_lacks ":" _ Hp).
    cbn [String.append Str.empty Str.starts_with String.prefix].
    repeat match goal with
           | |- context [ascii_dec ?a ?b] =>
               destruct (ascii_dec a b); [|congruence]
           end.
    now rewrite prefix_nil.
Qed.

(** A probe as the server sends it. *)
Lemma ping_answered_with_payload_witness :
  handle_irc_line
    (String.append "PING" (String.append " " (String ":" "tmi.twitch.tv 42")))
    two_players
    = send_line (String.append "PONG :" "tmi.twitch.tv 42") two_players /\
  handle_irc_line (String.append "PING" " ") two_players
    = send_line "PONG :tmi.twitch.tv" two_players.
Proof.
  apply (ping_answered_with_payload " " "tmi.twitch.tv 42" two_players).
  reflexivity.
Defined.

(** X17.  What one chat line can do: the generator and every field of the
    round state but the registry stay as they are; the registry either stays
    or gains one entry at its end, named as [parse_username_from_irc_line]
    reads the line and coloured by the palette cursor, and only while the
    gate is open; a line is written to the socket only for a line that
    starts with [PING], and then the registry stays. *)
Theorem handle_irc_line_effects (line : string) (w : World) :
  let w' := handle_irc_line line w in
  rng w' = rng w /\
  app w' = set_entries (entries (app w')) (app w) /\
  ((entries (app w') = entries (app w) /\ color_idx w' = color_idx w) \/
   (entries (app w')
      = entries (app w)
          ++ [mkEntry (parse_username_from_irc_line line)
                (fst (random_color (color_idx w)))] /\
    color_idx w' = snd (random_color (color_idx w)) /\
    join_open (app w) = true /\ sock_out w' = sock_out w)) /\
  (sock_out w' = sock_out w \/
   (exists reply,
      sock_out w' = sock_out w ++ [reply] /\
      Str.starts_with "PING" line = true /\
      entries (app w') = entries (app w))).
Proof.
  intros w'. subst w'.
  assert (Hid : forall a : AppState, a = set_entries (entries a) a)
    by (intros a; destruct a; reflexivity).
  assert (Hping : Str.starts_with "PING" line = false ->
                  sock_out (handle_irc_line line w) = sock_out w).
  { intros Hp. unfold handle_irc_line. rewrite Hp.
    destruct (Str.empty line); [reflexivity|].
    destruct (Str.find "PRIVMSG" 0 line); [|reflexivity].
    destruct (Str.find " :" _ line); [|reflexivity].
    destruct (Str.starts_with "!join" _); [|reflexivity].
    destruct (join_open (app w)); [|reflexivity].
    unfold add_player.
    now destruct (add_player_if_new _ _ _). }
  destruct (handle_irc_line_cases line w) as [H|[[reply H]|[Hopen H]]].
  - rewrite H. repeat split; auto.
  - destruct (Str.starts_with "PING" line) eqn:Hp.
    + rewrite H. repeat split; auto.
      right. exists (String.append reply Str.CRLF). auto.
    + specialize (Hping eq_refl). rewrite H in *.
      repeat split; auto.
  - rewrite H. unfold add_player, add_player_if_new.
    destruct (Str.empty (parse_username_from_irc_line line));
      [repeat split; auto|].
    destruct (has_name _ _); [repeat split; auto|].
    unfold random_color.
    cbn [app entries set_entries rng color_idx sock_out fst snd].
    split; [reflexivity|]. split; [destruct (app w); reflexivity|].
    split; [|now left].
    right. repeat split; auto.
Qed.

(** ** Framing of the received bytes *)

Lemma prefix_length (pat a : string) :
  String.prefix pat a = true -> (String.length pat <= String.length a)%nat.
Proof.
  revert a. induction pat as [|c pat IH]; intros a H.
  - cbn [String.length]. lia.
  - destruct a as [|d a]; [discriminate|].
    cbn [String.prefix] in H. destruct (ascii_dec c d); [|discriminate].
    apply IH in H. cbn [String.length]. lia.
Qed.

Lemma prefix_append_long (pat a b : string) :
  (String.length pat <= String.length a)%nat ->
  String.prefix pat (String.append a b) = String.prefix pat a.
Proof.
  revert a. induction pat as [|c pat IH]; intros a H.
  - now rewrite !prefix_nil.
  - destruct a as [|d a]; [cbn [String.length] in H; lia|].
    cbn [String.append String.prefix].
    destruct (ascii_dec c d); [|reflexivity].
    apply IH. cbn [String.length] in H. lia.
Qed.

Lemma index_bound (pat s : string) (p : nat) :
  String.index 0 pat s = Some p ->
  (p + String.length pat <= String.length s)%nat.
Proof.
  revert p. induction s as [|c s IH]; intros p H.
  - cbn [String.index] in H. destruct pat; [|discriminate].
    injection H as <-. cbn [String.length]. lia.
  - cbn [String.index] in H.
    destruct (String.prefix pat (String c s)) eqn:Hp.
    + injection H as <-. apply prefix_length in Hp. lia.
    + destruct (String.index 0 pat s) as [q|]; [|discriminate].
      injection H as <-. specialize (IH q eq_refl).
      cbn [String.length]. lia.
Qed.

Lemma index_append_some (pat a b : string) (p : nat) :
  String.index 0 pat a = Some p ->
  String.index 0 pat (String.append a b) = Some p.
Proof.
  revert p. induction a as [|c a IH]; intros p H.
  - cbn [String.index] in H. destruct pat; [|discriminate].
    injection H as <-. cbn [String.append].
    destruct b; cbn [String.index String.prefix]; reflexivity.
  - cbn [String.index] in H. cbn [String.append String.index].
    change (String c (String.append a b))
      with (String.append (String c a) b).
    destruct (String.prefix pat (String c a)) eqn:Hp.
    + injection H as <-.
      rewrite prefix_append_long by now apply prefix_length.
      now rewrite Hp.
    + destruct (String.index 0 pat a) as [q|] eqn:Hq; [|discriminate].
      injection H as <-.
      rewrite prefix_append_long.
      * rewrite Hp. now rewrite (IH q eq_refl).
      * apply index_bound in Hq. cbn [String.length]. lia.
Qed.

Lemma substring_append_l (n m : nat) (a b : string) :
  (n + m <= String.length a)%nat ->
  String.substring n m (String.append a b) = String.substring n m a.
Proof.
  revert n m. induction a as [|c a IH]; intros n m H.
  - cbn [String.length] in H. assert (n = 0 /\ m = 0)%nat as [-> ->] by lia.
    cbn [String.append]. destruct b; reflexivity.
  - cbn [String.length] in H. cbn [String.append].
    destruct n as [|n].
    + destruct m as [|m]; [reflexivity|].
      cbn [String.substring]. rewrite IH by lia. reflexivity.
    + cbn [String.substring]. apply IH. lia.
Qed.

Lemma substring_length (n m : nat) (s : string) :
  (n + m <= String.length s)%nat ->
  String.length (String.substring n m s) = m.
Proof.
  revert n m. induction s as [|c s IH]; intros n m H.
  - cbn [String.length] in H. assert (n = 0 /\ m = 0)%nat as [-> ->] by lia.
    reflexivity.
  - cbn [String.length] in H. destruct n as [|n].
    + destruct m as [|m]; [reflexivity|].
      cbn [String.substring String.length]. rewrite IH by lia. reflexivity.
    + cbn [String.substring]. apply IH. lia.
Qed.

Lemma substring_split (n : nat) (s : string) :
  (n <= String.length s)%nat ->
  s = String.append (String.substring 0 n s)
        (String.substring n (String.length s - n) s).
Proof.
  revert n. induction s as [|c s IH]; intros n H.
  - cbn [String.length] in H. now replace n with 0%nat by lia.
  - destruct n as [|n].
    + cbn [String.substring String.append String.length Nat.sub].
      now rewrite substring_all.
    + cbn [String.length] in H.
      cbn [String.substring String.append String.length Nat.sub].
      f_equal. apply IH. lia.
Qed.

Lemma substr_from_append (n : nat) (a b : string) :
  (n <= String.length a)%nat ->
  Str.substr_from n (String.append a b)
    = String.append (Str.substr_from n a) b.
Proof.
  intros H. rewrite (substring_split n a H) at 1.
  rewrite append_assoc.
  assert (Hl : String.length (String.substring 0 n a) = n)
    by (apply substring_length; lia).
  rewrite <- Hl at 1. rewrite substr_from_skip. reflexivity.
Qed.

Lemma substr_from_length (n : nat) (s : string) :
  (n <= String.length s)%nat ->
  String.length (Str.substr_from n s) = (String.length s - n)%nat.
Proof. intros H. unfold Str.substr_from. apply substring_length. lia. Qed.

Lemma find_CRLF_bound (s : string) (pos : nat) :
  Str.find Str.CRLF 0 s = Some pos -> (pos + 2 <= String.length s)%nat.
Proof. intros H. apply index_bound in H. exact H. Qed.

Lemma drain_lines_fuel (fuel1 fuel2 : nat) (s : string) (w : World) :
  (String.length s <= fuel1)%nat -> (String.length s <= fuel2)%nat ->
  drain_lines fuel1 s w = drain_lines fuel2 s w.
Proof.
  revert fuel2 s w. induction fuel1 as [|f1 IH]; intros fuel2 s w H1 H2.
  - destruct s; [|cbn [String.length] in H1; lia].
    destruct fuel2; reflexivity.
  - cbn [drain_lines].
    destruct (Str.find Str.CRLF 0 s) as [pos|] eqn:Hf.
    + pose proof (find_CRLF_bound s pos Hf) as Hb.
      destruct fuel2 as [|f2]; [lia|].
      cbn [drain_lines]. rewrite Hf.
      apply IH; rewrite substr_from_length by lia; lia.
    + destruct fuel2; cbn [drain_lines]; [|rewrite Hf]; reflexivity.
Qed.

Lemma drain_none (s : string) (w : World) :
  Str.find Str.CRLF 0 s = None -> drain s w = (s, w).
Proof.
  intros H. unfold drain.
  destruct (String.length s); cbn [drain_lines]; [|rewrite H]; reflexivity.
Qed.

Lemma drain_some (s : string) (w : World) (pos : nat) :
  Str.find Str.CRLF 0 s = Some pos ->
  drain s w = drain (Str.substr_from (pos + 2) s)
                (handle_irc_line (Str.substr 0 pos s) w).
Proof.
  intros H. pose proof (find_CRLF_bound s pos H) as Hb. unfold drain.
  destruct (String.length s) as [|n] eqn:Hn; [lia|].
  cbn [drain_lines]. rewrite H.
  apply drain_lines_fuel; rewrite substr_from_length by lia; lia.
Qed.

Lemma drain_append (a b : string) (w : World) :
  drain (String.append a b) w
    = drain (String.append (fst (drain a w)) b) (snd (drain a w)).
Proof.
  remember (String.length a) as n eqn:Hn.
  assert (Hle : (String.length a <= n)%nat) by lia. clear Hn.
  revert a w Hle. induction n as [|n IH]; intros a w Hle.
  - destruct a; [|cbn [String.length] in Hle; lia].
    rewrite (drain_none "" w) by reflexivity. reflexivity.
  - destruct (Str.find Str.CRLF 0 a) as [pos|] eqn:Hf.
    + pose proof (find_CRLF_bound a pos Hf) as Hb.
      rewrite (drain_some a w pos Hf).
      rewrite (drain_some (String.append a b) w pos)
        by (now apply index_append_some).
      unfold Str.substr. rewrite substring_append_l by lia.
      rewrite substr_from_append by lia.
      apply IH. rewrite substr_from_length by lia. lia.
    + now rewrite (drain_none a w Hf).
Qed.

Lemma drain_leftover (s : string) (w : World) :
  Str.find Str.CRLF 0 (fst (drain s w)) = None.
Proof.
  remember (String.length s) as n eqn:Hn.
  assert (Hle : (String.length s <= n)%nat) by lia. clear Hn.
  revert s w Hle. induction n as [|n IH]; intros s w Hle.
  - destruct s; [|cbn [String.length] in Hle; lia]. reflexivity.
  - destruct (Str.find Str.CRLF 0 s) as [pos|] eqn:Hf.
    + pose proof (find_CRLF_bound s pos Hf) as Hb.
      rewrite (drain_some s w pos Hf).
      apply IH. rewrite substr_from_length by lia. lia.
    + now rewrite (drain_none s w Hf).
Qed.

Lemma until_nul_append (a b : string) :
  until_nul (String.append (until_nul a) b)
    = String.append (until_nul a) (until_nul b).
Proof.
  induction a as [|c a IH]; [reflexivity|].
  cbn [until_nul]. destruct (Ascii.eqb c zero) eqn:E; [reflexivity|].
  cbn [String.append until_nul]. now rewrite E, IH.
Qed.

Lemma until_nul_stream (results : list RecvResult) :
  until_nul (stream results) = stream results.
Proof.
  induction results as [|[| | |c] rest IH]; cbn [stream];
    try reflexivity; try assumption.
  now rewrite until_nul_append, IH.
Qed.

Lemma on_receive_drain (chunk : string) (st : string * World) :
  on_receive chunk st
    = drain (String.append (fst st) (until_nul chunk)) (snd st).
Proof. reflexivity. Qed.

(** The loop is one [on_receive] of the whole stream. *)
Lemma receive_loop_stream (results : list RecvResult)
    (st : string * World) :
  Str.find Str.CRLF 0 (fst st) = None ->
  receive_loop results st = on_receive (stream results) st.
Proof.
  revert st. induction results as [|r rest IH]; intros [buf w] Hst.
  - cbn [receive_loop stream]. rewrite on_receive_drain.
    cbn [fst snd until_nul]. rewrite append_nil_r.
    now rewrite drain_none.
  - assert (Hstop : (buf, w) = on_receive "" (buf, w)).
    { rewrite on_receive_drain. cbn [fst snd until_nul].
      rewrite append_nil_r. now rewrite drain_none. }
    destruct r as [| | |c]; cbn [receive_loop stream]; try exact Hstop.
    + now apply IH.
    + rewrite IH by (rewrite on_receive_drain; apply drain_leftover).
      rewrite !on_receive_drain. cbn [fst snd].
      rewrite until_nul_append, until_nul_stream.
      rewrite <- append_assoc. symmetry. apply drain_append.
Qed.

Lemma find_CRLF_line (l x : string) :
  Str.find Str.CRLF 0 l = None ->
  Str.find Str.CRLF 0 (String.append l (String.append Str.CRLF x))
    = Some (String.length l).
Proof.
  unfold Str.find, Str.CRLF.
  change (String.append (String (ascii_of_nat 13)
            (String (ascii_of_nat 10) "")) x)
    with (String (ascii_of_nat 13) (String (ascii_of_nat 10) x)).
  induction l as [|c l IH]; intros H.
  - cbn [String.append String.index String.prefix String.length].
    destruct (ascii_dec (ascii_of_nat 13) (ascii_of_nat 13)); [|congruence].
    destruct (ascii_dec (ascii_of_nat 10) (ascii_of_nat 10)); [|congruence].
    now rewrite prefix_nil.
  - cbn [String.index] in H.
    destruct (String.prefix _ (String c l)) eqn:Hp; [discriminate|].
    destruct (String.index 0 _ l) eqn:Hi; [discriminate|].
    cbn [String.append String.index String.length].
    rewrite (IH eq_refl).
    cbn [String.prefix] in *.
    destruct (ascii_dec (ascii_of_nat 13) c) as [e|_]; [|reflexivity].
    destruct l as [|d l].
    + cbn [String.append String.prefix].
      destruct (ascii_dec (ascii_of_nat 10) (ascii_of_nat 13));
        [discriminate | reflexivity].
    + cbn [String.append String.prefix] in *.
      destruct (ascii_dec (ascii_of_nat 10) d) as [e'|_]; [|reflexivity].
      now rewrite prefix_nil in Hp.
Qed.

Lemma drain_framed_lines (ls : list string) (rest : string) (w : World) :
  Forall (fun l => Str.find Str.CRLF 0 l = None) ls ->
  Str.find Str.CRLF 0 rest = None ->
  drain (String.append (framed ls) rest) w = (rest, handle_lines ls w).
Proof.
  intros Hls Hrest. revert w.
  induction Hls as [|l ls Hl Hls IH]; intros w.
  - cbn [framed fold_right String.append handle_lines fold_left].
    now apply drain_none.
  - cbn [framed fold_right handle_lines fold_left].
    fold (framed ls). rewrite !append_assoc.
    rewrite (drain_some _ w (String.length l))
      by now apply find_CRLF_line.
    unfold Str.substr. rewrite substring_prefix.
    rewrite <- (append_assoc l Str.CRLF).
    replace (String.length l + 2)%nat
      with (String.length (String.append l Str.CRLF))
      by (rewrite append_length; reflexivity).
    rewrite substr_from_skip. apply IH.
Qed.

(** X18.  The receive loop depends on the bytes received, not on how the
    network cut them into reads: two runs of [recv] results that deliver the
    same bytes (timeouts anywhere, everything after an error or a closed
    connection dropped, a chunk cut at its first NUL) leave the same buffer,
    registry and replies. *)
Theorem receive_loop_depends_on_stream (r1 r2 : list RecvResult)
    (st : string * World) :
  Str.find Str.CRLF 0 (fst st) = None ->
  stream r1 = stream r2 ->
  receive_loop r1 st = receive_loop r2 st.
Proof.
  intros Hst Hs. rewrite !receive_loop_stream by assumption.
  unfold on_receive. now rewrite Hs.
Qed.

(** A join message split inside its line terminator, with a timeout in
    between, against the same bytes in one read followed by a close. *)
Lemma receive_loop_depends_on_stream_witness :
  let line := String.append (privmsg "carol" "c@x" "#host" "!join") Str.CRLF in
  let st := ("", with_app (set_join true) two_players) in
  receive_loop
    [RecvData (String.substring 0 32 line); RecvTimeout;
     RecvData (String.substring 32 1 line)] st
  = receive_loop [RecvData line; RecvClosed; RecvData line] st.
Proof.
  apply (receive_loop_depends_on_stream
           [RecvData (String.substring 0 32
              (String.append (privmsg "carol" "c@x" "#host" "!join")
                 Str.CRLF));
            RecvTimeout;
            RecvData (String.substring 32 1
              (String.append (privmsg "carol" "c@x" "#host" "!join")
                 Str.CRLF))]
           [RecvData (String.append (privmsg "carol" "c@x" "#host" "!join")
                        Str.CRLF);
            RecvClosed;
            RecvData (String.append (privmsg "carol" "c@x" "#host" "!join")
                        Str.CRLF)]
           ("", with_app (set_join true) two_players));
    reflexivity.
Defined.

(** X19.  Every complete line is handled exactly once and in order: when the
    bytes received are the lines [ls], each followed by CR LF, and then an
    unterminated rest, the loop ends with [handle_irc_line] applied to each
    line of [ls] in turn and with the rest waiting in the buffer, however
    the reads were cut; the fuel of the inner loop is enough. *)
Theorem receive_loop_handles_each_line (results : list RecvResult)
    (ls : list string) (rest : string) (w : World) :
  stream results = String.append (framed ls) rest ->
  Forall (fun l => Str.find Str.CRLF 0 l = None) ls ->
  Str.find Str.CRLF 0 rest = None ->
  receive_loop results ("", w) = (rest, handle_lines ls w).
Proof.
  intros Hs Hls Hrest.
  rewrite receive_loop_stream by reflexivity.
  rewrite on_receive_drain, until_nul_stream, Hs.
  cbn [fst snd String.append]. now apply drain_framed_lines.
Qed.

(** Two lines and the start of a third, in three reads. *)
Lemma receive_loop_handles_each_line_witness :
  receive_loop
    [RecvData (String.append "PING :a" (String (ascii_of_nat 13) ""));
     RecvData (String.append (String (ascii_of_nat 10) "")
                 (String.append (privmsg "carol" "c@x" "#host" "!join")
                    Str.CRLF));
     RecvData "PING"]
    ("", with_app (set_join true) two_players)
  = ("PING",
     handle_lines ["PING :a"; privmsg "carol" "c@x" "#host" "!join"]
       (with_app (set_join true) two_players)).
Proof.
  apply (receive_loop_handles_each_line
           [RecvData (String.append "PING :a" (String (ascii_of_nat 13) ""));
            RecvData (String.append (String (ascii_of_nat 10) "")
                        (String.append
                           (privmsg "carol" "c@x" "#host" "!join")
                           Str.CRLF));
            RecvData "PING"]
           ["PING :a"; privmsg "carol" "c@x" "#host" "!join"] "PING"
           (with_app (set_join true) two_players)).
  - reflexivity.
  - repeat constructor.
  - reflexivity.
Defined.

(** ** The page's entry points *)

Lemma wheel_spin_needs_two (w : World) :
  (List.length (entries (app w)) < 2)%nat -> wheel_spin w = w.
Proof.
  intros H. unfold wheel_spin.
  destruct (Z.ltb_spec (Z.of_nat (List.length (entries (app w)))) 2);
    [reflexivity | lia].
Qed.

Lemma handle_spin_or_reset_needs_two (cfg : TwitchConfig) (w : World) :
  winner_showing (app w) = false ->
  (List.length (entries (app w)) < 2)%nat ->
  handle_spin_or_reset cfg w = w.
Proof.
  intros Hw H. unfold handle_spin_or_reset. rewrite Hw.
  destruct (Z.leb_spec 2 (Z.of_nat (List.length (entries (app w)))));
    [lia | reflexivity].
Qed.

Lemma add_player_sole (nm : string) (w : World) :
  entries (app w) = [] -> nm <> "" ->
  names (entries (app (add_player nm w))) = [nm].
Proof.
  intros He Hn. unfold add_player, add_player_if_new. rewrite He.
  destruct nm as [|c nm]; [congruence|]. reflexivity.
Qed.

(** X20.  [wheel_reset] leaves the configured host alone on the wheel (nobody
    when no nick is configured), the gate closed, no winner shown and the
    wheel at rest, so that neither [wheel_spin] nor the space key or left
    button can start a spin until somebody joins; unlike the reset by hold it
    issues no timer call and leaves the flash timer and a running hold as
    they are. *)
Theorem wheel_reset_leaves_host_only (cfg : TwitchConfig) (w : World) :
  let w' := wheel_reset cfg w in
  names (entries (app w'))
    = (if Str.empty (nick cfg) then [] else [nick cfg]) /\
  join_open (app w') = false /\
  winner_showing (app w') = false /\
  spinning (app w') = false /\
  (angular_velocity (app w') == 0)%Q /\
  wheel_spin w' = w' /\
  handle_spin_or_reset cfg w' = w' /\
  timer (app w') = timer (app w) /\
  winner_flash_remaining (app w') = winner_flash_remaining (app w) /\
  reset_hold_active (app w') = reset_hold_active (app w).
Proof.
  intros w'.
  assert (Hst : names (entries (app w'))
                  = (if Str.empty (nick cfg) then [] else [nick cfg]) /\
                join_open (app w') = false /\
                winner_showing (app w') = false /\
                spinning (app w') = false /\
                (angular_velocity (app w') == 0)%Q /\
                timer (app w') = timer (app w) /\
                winner_flash_remaining (app w')
                  = winner_flash_remaining (app w) /\
                reset_hold_active (app w') = reset_hold_active (app w)).
  { subst w'. unfold wheel_reset.
    destruct (Str.empty (nick cfg)) eqn:Hn; cbn [negb].
    - open_world w. repeat split; reflexivity.
    - unfold add_player, add_player_if_new. rewrite Hn.
      open_world w. repeat split; reflexivity. }
  destruct Hst as (Hn & Hj & Hw & Hs & Hv & Ht & Hf & Hh).
  assert (Hlen : (List.length (entries (app w')) < 2)%nat).
  { rewrite <- (length_map name). fold (names (entries (app w'))).
    rewrite Hn. destruct (Str.empty (nick cfg)); cbn; lia. }
  repeat split; try assumption.
  - now apply wheel_spin_needs_two.
  - now apply handle_spin_or_reset_needs_two.
Qed.

(** X21.  While the gate is closed [wheel_join] admits nobody but the
    configured host, and the host only onto an empty wheel: with an entry
    on the wheel, or for any other user, the call changes nothing. *)
Theorem wheel_join_gate (user : option string) (cfg : TwitchConfig)
    (w : World) :
  join_open (app w) = false ->
  (entries (app w) <> [] -> wheel_join user cfg w = w) /\
  (user <> Some (nick cfg) -> wheel_join user cfg w = w) /\
  (entries (app w) = [] -> nick cfg <> "" ->
   names (entries (app (wheel_join (Some (nick cfg)) cfg w))) = [nick cfg]).
Proof.
  intros Hj. unfold wheel_join. rewrite Hj. cbn [orb]. repeat split.
  - intros He. destruct user as [u|]; [|reflexivity].
    destruct (Str.empty u); [reflexivity|].
    destruct (entries (app w)); [congruence | reflexivity].
  - intros Hu. destruct user as [u|]; [|reflexivity].
    destruct (Str.empty u); [reflexivity|].
    destruct (String.eqb_spec (nick cfg) u) as [e|_];
      [congruence|]. now rewrite andb_false_r.
  - intros He Hn. rewrite He, String.eqb_refl. cbn [andb].
    destruct (Str.empty (nick cfg)) eqn:E.
    + destruct (nick cfg); [congruence | discriminate].
    + now apply add_player_sole.
Qed.

(** A viewer is refused and the host admitted, gate closed and wheel
    empty. *)
Lemma wheel_join_gate_witness :
  (entries (app (mkWorld app_init 0 rng_half [])) <> [] ->
   wheel_join (Some "carol") host_cfg (mkWorld app_init 0 rng_half [])
     = mkWorld app_init 0 rng_half []) /\
  (Some "carol" <> Some (nick host_cfg) ->
   wheel_join (Some "carol") host_cfg (mkWorld app_init 0 rng_half [])
     = mkWorld app_init 0 rng_half []) /\
  (entries (app (mkWorld app_init 0 rng_half [])) = [] ->
   nick host_cfg <> "" ->
   names (entries (app (wheel_join (Some (nick host_cfg)) host_cfg
                          (mkWorld app_init 0 rng_half []))))
     = [nick host_cfg]).
Proof.
  apply (wheel_join_gate (Some "carol") host_cfg
           (mkWorld app_init 0 rng_half [])).
  reflexivity.
Defined.

Lemma substr_from_1 (x : ascii) (r : string) :
  Str.substr_from 1 (String x r) = r.
Proof.
  unfold Str.substr_from. cbn [String.length String.substring Nat.sub].
  rewrite Nat.sub_0_r.
  induction r as [|c r IH]; cbn [String.length String.substring];
    [reflexivity | now rewrite IH].
Qed.

Lemma tolower_hash (x : ascii) :
  Ascii.eqb (Str.tolower x) "#" = Ascii.eqb x "#".
Proof. destruct x as [[] [] [] [] [] [] [] []]; reflexivity. Qed.

(** X22.  Authorisation ignores letter case in the nick and in the channel,
    and one leading [#] of the channel. *)
Theorem is_stream_allowed_ignores_case (n1 n2 c1 c2 : string) :
  to_lower n1 = to_lower n2 -> to_lower c1 = to_lower c2 ->
  is_stream_allowed n1 c1 = is_stream_allowed n2 c2 /\
  (Str.char_at_is 0 "#" c1 = false ->
   is_stream_allowed n1 (String "#" c1) = is_stream_allowed n1 c1).
Proof.
  intros Hn Hc. split.
  - unfold is_stream_allowed. rewrite Hn. 
    assert (Hch : to_lower (if negb (Str.empty c1) && Str.char_at_is 0 "#" c1
                            then Str.substr_from 1 c1 else c1)
                = to_lower (if negb (Str.empty c2) && Str.char_at_is 0 "#" c2
                            then Str.substr_from 1 c2 else c2)).
    { destruct c1 as [|x1 r1], c2 as [|x2 r2]; try discriminate;
        [reflexivity|].
      unfold to_lower in Hc. cbn [Str.map] in Hc.
      injection Hc as Hx Hr.
      cbn [Str.empty negb andb]. unfold Str.char_at_is. cbn [String.get].
      rewrite <- (tolower_hash x1), <- (tolower_hash x2), Hx.
      destruct (Ascii.eqb (Str.tolower x2) "#").
      - now rewrite !substr_from_1.
      - unfold to_lower. cbn [Str.map]. now rewrite <- Hx, Hr. }
    now rewrite Hch.
  - intros Hh. unfold is_stream_allowed.
    cbn [Str.empty negb andb]. unfold Str.char_at_is at 1.
    cbn [String.get]. rewrite Ascii.eqb_refl, substr_from_1, Hh.
    now rewrite andb_false_r.
Qed.

(** The allowed channel in capitals, with and without the [#]. *)
Lemma is_stream_allowed_ignores_case_witness :
  is_stream_allowed "Someone" "ShoePert" = is_stream_allowed "someone" "shoepert"
  /\ (Str.char_at_is 0 "#" "ShoePert" = false ->
      is_stream_allowed "Someone" (String "#" "ShoePert")
        = is_stream_allowed "Someone" "ShoePert").
Proof.
  apply (is_stream_allowed_ignores_case "Someone" "someone" "ShoePert"
           "shoepert"); reflexivity.
Defined.

(** ** Colours of the registry *)

Lemma palette_order_nil (idx : Z) : palette_order [] idx.
Proof. intros i e H. destruct i; discriminate. Qed.

Lemma palette_at_mod (k k' : Z) :
  k mod 4 = k' mod 4 -> palette_at k = palette_at k'.
Proof. unfold palette_at. now intros ->. Qed.

Lemma palette_order_add (nm : string) (es : list WheelEntry) (idx : Z) :
  palette_order es idx ->
  palette_order (fst (add_player_if_new nm es idx))
                (snd (add_player_if_new nm es idx)).
Proof.
  intros H. unfold add_player_if_new.
  destruct (Str.empty nm); [exact H|].
  destruct (has_name nm es); [exact H|].
  unfold random_color. cbn [fst snd].
  assert (Hmod : forall z, ((idx + 1) mod UINT32_MOD + z) mod 4
                           = (idx + 1 + z) mod 4).
  { intros z. unfold UINT32_MOD.
    rewrite Zplus_mod, (Z.mod_mod_divide (idx + 1) (2 ^ 32) 4)
      by (exists (2 ^ 30); reflexivity).
    now rewrite <- Zplus_mod. }
  intros i e Hi. rewrite length_app. cbn [List.length].
  destruct (Nat.lt_ge_cases i (List.length es)) as [Hlt|Hge].
  - rewrite nth_error_app1 in Hi by assumption.
    rewrite (H i e Hi). apply palette_at_mod.
    replace ((idx + 1) mod UINT32_MOD
             - Z.of_nat (List.length es + 1) + Z.of_nat i)
      with ((idx + 1) mod UINT32_MOD
            + (- Z.of_nat (List.length es + 1) + Z.of_nat i)) by lia.
    rewrite Hmod. f_equal. lia.
  - rewrite nth_error_app2 in Hi by assumption.
    destruct (i - List.length es)%nat as [|j] eqn:Hj.
    + cbn [nth_error] in Hi. injection Hi as <-. cbn [color].
      change (nth (Z.to_nat (idx mod 4)) palette (mkColor 0 0 0 0))
        with (palette_at idx).
      apply palette_at_mod.
      replace ((idx + 1) mod UINT32_MOD
               - Z.of_nat (List.length es + 1) + Z.of_nat i)
        with ((idx + 1) mod UINT32_MOD
              + (- Z.of_nat (List.length es + 1) + Z.of_nat i)) by lia.
      rewrite Hmod. f_equal. lia.
    + cbn [nth_error] in Hi. destruct j; discriminate.
Qed.

Lemma world_order_add (nm : string) (w : World) :
  world_order w -> world_order (add_player nm w).
Proof.
  unfold world_order, add_player. intros H.
  pose proof (palette_order_add nm _ _ H) as Ha.
  destruct (add_player_if_new nm (entries (app w)) (color_idx w)).
  open_world w. exact Ha.
Qed.

Lemma world_order_same (w w' : World) :
  entries (app w') = entries (app w) -> color_idx w' = color_idx w ->
  world_order w -> world_order w'.
Proof. unfold world_order. now intros -> ->. Qed.

Lemma world_order_handle_spin_or_reset (cfg : TwitchConfig) (w : World) :
  world_order w -> world_order (handle_spin_or_reset cfg w).
Proof.
  intros H.
  destruct (handle_spin_or_reset_cases cfg w) as
    [[Hwin _] | [(_ & _ & ->) | (_ & _ & ->)]].
  - unfold handle_spin_or_reset. rewrite Hwin.
    assert (H0 : world_order (with_app clear_round w))
      by (open_world w; apply palette_order_nil).
    destruct (negb (Str.empty (nick cfg)));
      [now apply world_order_add | assumption].
  - destruct (start_spin_frame w) as (He & Hc & _).
    now apply (world_order_same w).
  - assumption.
Qed.

Lemma world_order_frame (cfg : TwitchConfig) (dt : Q) (w : World) :
  world_order w -> world_order (frame cfg dt w).
Proof.
  intros H. rewrite frame_unfold.
  set (es := entries (app w)). set (n := Z.of_nat (List.length es)).
  pose proof (frame_tail_untouched es n dt (app (frame_hold cfg dt w))) as Hu.
  cbv zeta in Hu. destruct Hu as (He & _).
  apply (world_order_same (frame_hold cfg dt w)); [exact He | reflexivity|].
  assert (Hh : forall act el src, world_order (with_app (set_hold act el src) w)).
  { intros act el src. apply (world_order_same w);
      [apply with_app_hold_entries | reflexivity | assumption]. }
  unfold frame_hold.
  destruct (reset_hold_active (app w)); [|assumption].
  destruct (negb (winner_showing (app w))); [apply Hh|].
  destruct (Float.leb 1 (B32.add (reset_hold_elapsed (app w)) dt)).
  - apply world_order_handle_spin_or_reset, Hh.
  - apply Hh.
Qed.

Lemma poll_event_color_idx (b : Build) (cfg : TwitchConfig) (e : SDL_Event)
    (w : World) :
  color_idx (poll_event b cfg e w) = color_idx w.
Proof.
  destruct (poll_event_cases b cfg e w) as
    [-> | [(_ & _ & ->) | [(src & -> & _) | [(src & _ & ->) | ->]]]];
    reflexivity.
Qed.

Lemma world_order_run_op (cfg : TwitchConfig) (op : Op) (w : World) :
  world_order w -> world_order (run_op cfg op w).
Proof.
  intros H. destruct op as [dt | b e | line | user | |]; cbn [run_op].
  - now apply world_order_frame.
  - apply (world_order_same w);
      [apply poll_event_entries | apply poll_event_color_idx | assumption].
  - destruct (handle_irc_line_cases line w) as [-> | [[r ->] | [_ ->]]].
    + assumption.
    + apply (world_order_same w); [reflexivity | reflexivity | assumption].
    + now apply world_order_add.
  - unfold wheel_join. destruct user as [u|]; [|assumption].
    destruct (Str.empty u); [assumption|].
    destruct (_ || _); [now apply world_order_add | assumption].
  - unfold wheel_reset.
    assert (H0 : world_order (with_app wheel_clear w))
      by (open_world w; apply palette_order_nil).
    destruct (negb (Str.empty (nick cfg)));
      [now apply world_order_add | assumption].
  - destruct (wheel_spin_cases w) as [[_ ->] | [_ ->]]; [|assumption].
    destruct (start_spin_frame w) as (He & Hc & _).
    now apply (world_order_same w).
Qed.

Lemma palette_at_next (k : Z) : palette_at k <> palette_at (k + 1).
Proof.
  unfold palette_at.
  assert (Hk : 0 <= k mod 4 < 4) by (apply Z.mod_pos_bound; lia).
  assert (Hs : (k + 1) mod 4 = (k mod 4 + 1) mod 4)
    by (rewrite Zplus_mod; reflexivity).
  rewrite Hs.
  assert (Hc : k mod 4 = 0 \/ k mod 4 = 1 \/ k mod 4 = 2 \/ k mod 4 = 3)
    by lia.
  destruct Hc as [-> | [-> | [-> | ->]]]; cbn; discriminate.
Qed.

(** X23.  Colours are dealt in palette order: in every state the program
    reaches from its start, the entries of the registry carry consecutive
    colours of the four-colour palette, ending just before the colour
    cursor (the wrap of the 32-bit cursor keeps the cycle), so two entries
    next to each other in the registry never share a colour. *)
Theorem registry_colours_follow_palette (cfg : TwitchConfig)
    (ops : list Op) (idx : Z) (r : Rng) :
  let w := run_ops cfg ops (mkWorld app_init idx r []) in
  let es := entries (app w) in
  (forall i e, nth_error es i = Some e ->
     color e
       = palette_at (color_idx w - Z.of_nat (List.length es) + Z.of_nat i)) /\
  (forall i e1 e2, nth_error es i = Some e1 ->
     nth_error es (S i) = Some e2 -> color e1 <> color e2).
Proof.
  assert (H : forall w, world_order w -> world_order (run_ops cfg ops w)).
  { induction ops as [|op ops IH]; intros w Hw; cbn [run_ops];
      [assumption|].
    apply IH. now apply world_order_run_op. }
  specialize (H (mkWorld app_init idx r []) (palette_order_nil idx)).
  intros w es. split; [exact H|].
  intros i e1 e2 H1 H2.
  rewrite (H i e1 H1), (H (S i) e2 H2).
  rewrite Nat2Z.inj_succ, <- Z.add_1_r, Z.add_assoc.
  apply palette_at_next.
Qed.

(** ** Replies on the socket *)

(** X24.  One reply per probe and nothing else: over any run of chat
    lines the socket output only grows, by exactly one line for each line
    that starts with [PING], each of them a [PONG :] line. *)
Theorem handle_lines_replies (ls : list string) (w : World) :
  exists replies,
    sock_out (handle_lines ls w) = sock_out w ++ replies /\
    List.length replies = List.length (filter is_ping ls) /\
    Forall (fun r => Str.starts_with "PONG :" r = true) replies.
Proof.
  revert w. induction ls as [|l ls IH]; intros w.
  - exists []. cbn. rewrite app_nil_r. auto.
  - cbn [handle_lines fold_left]. fold (handle_lines ls (handle_irc_line l w)).
    destruct (IH (handle_irc_line l w)) as (rs & Hs & Hl & Hf).
    unfold handle_irc_line in *. cbn [filter]. unfold is_ping at 1.
    destruct l as [|c l'].
    + cbn [Str.empty] in *. exists rs. cbn. auto.
    + cbn [Str.empty] in *.
      destruct (Str.starts_with "PING" (String c l')) eqn:Hp.
      * eexists (_ :: rs). rewrite Hs. unfold send_line. cbn [sock_out].
        rewrite <- app_assoc. cbn [List.app List.length].
        repeat split; [now rewrite Hl|].
        constructor; [|assumption].
        unfold Str.starts_with. rewrite append_assoc.
        apply prefix_append_same.
      * exists rs. rewrite Hs. split; [|auto].
        f_equal.
        destruct (Str.find "PRIVMSG" 0 _); [|reflexivity].
        destruct (Str.find " :" _ _); [|reflexivity].
        destruct (Str.starts_with "!join" _); [|reflexivity].
        destruct (join_open (app w)); [|reflexivity].
        unfold add_player. now destruct (add_player_if_new _ _ _).
Qed.

(** ** Presentation helpers *)


(** X25.  [stable_tile_scale] gives a scale between 0.5 and 0.8 for every
    grid cell, as its comments say. *)
Theorem stable_tile_scale_range (gx gy : Z) :
  (0.5 <= stable_tile_scale gx gy <= 0.8)%Q.
Proof.
  unfold stable_tile_scale. cbv zeta.
  set (h := hash_u32 _).
  change (Z.land h 0xFFFF) with (Z.land h (Z.ones 16)). rewrite Z.land_ones by discriminate.
  pose proof (Z.mod_pos_bound h (2 ^ 16) eq_refl) as Hb.
  change (2 ^ 16) with 65536 in *.
  set (m := h mod 65536) in *. clearbody m. clear h.
  assert (H0 : (0 <= inject_Z m)%Q)
    by (change 0%Q with (inject_Z 0); rewrite <- Zle_Qle; lia).
  assert (H1 : (inject_Z m <= 65535)%Q)
    by (change 65535%Q with (inject_Z 65535); rewrite <- Zle_Qle; lia).
  assert (Ht : (0 <= inject_Z m / 65535 <= 1)%Q).
  { split.
    - apply Qle_shift_div_l; lra.
    - apply Qle_shift_div_r; lra. }
  set (t := (inject_Z m / 65535)%Q) in *. clearbody t. lra.
Qed.

Lemma clamp01_cases (t : Q) :
  ((t <= 0)%Q /\ clamp01 t = 0%Q) \/
  ((0 < t < 1)%Q /\ clamp01 t = t) \/
  ((1 <= t)%Q /\ clamp01 t = 1%Q).
Proof.
  unfold clamp01, Float.max, std_min.
  destruct (Float.ltb t 1) eqn:H1.
  - apply ltb_true_iff in H1.
    destruct (Float.ltb 0 t) eqn:H0.
    + apply ltb_true_iff in H0. right. left. auto.
    + apply ltb_false_iff in H0. left. auto.
  - apply ltb_false_iff in H1. right. right. split; [assumption|].
    reflexivity.
Qed.

(** X26.  [ease_out_cubic] maps every argument into [0, 1], is 0 up to 0
    and 1 from 1 on, never decreases, and is never behind the linear
    progress [clamp01]. *)
Theorem ease_out_cubic_shape (t t' : Q) :
  (0 <= ease_out_cubic t <= 1)%Q /\
  (clamp01 t <= ease_out_cubic t)%Q /\
  ((t <= 0)%Q -> (ease_out_cubic t == 0)%Q) /\
  ((1 <= t)%Q -> (ease_out_cubic t == 1)%Q) /\
  ((t <= t')%Q -> (ease_out_cubic t <= ease_out_cubic t')%Q).
Proof.
  unfold ease_out_cubic. cbv zeta.
  assert (Hr : forall s, (0 <= clamp01 s <= 1)%Q).
  { intros s. destruct (clamp01_cases s) as [[H ->]|[[H ->]|[H ->]]]; lra. }
  assert (Hm : (t <= t')%Q -> (clamp01 t <= clamp01 t')%Q).
  { intros H.
    destruct (clamp01_cases t) as [[? ->]|[[? ->]|[? ->]]];
      destruct (clamp01_cases t') as [[? ->]|[[? ->]|[? ->]]]; lra. }
  assert (Hc : forall u v : Q, (0 <= u)%Q -> (u <= v)%Q ->
                               (u * u * u <= v * v * v)%Q).
  { intros u v Hu Huv.
    assert (H2 : (u * u <= v * v)%Q) by nra.
    nra. }
  pose proof (Hr t) as Ht. pose proof (Hr t') as Ht'.
  assert (H1 : ((1 - clamp01 t) * (1 - clamp01 t) * (1 - clamp01 t)
                <= 1 - clamp01 t)%Q).
  { set (u := (1 - clamp01 t)%Q).
    assert (Hu : (0 <= u <= 1)%Q) by (unfold u; lra). clearbody u.
    assert (H2 : (u * u <= u)%Q) by nra. nra. }
  assert (H0 : (0 <= (1 - clamp01 t) * (1 - clamp01 t) * (1 - clamp01 t))%Q).
  { set (u := (1 - clamp01 t)%Q).
    assert (Hu : (0 <= u <= 1)%Q) by (unfold u; lra). clearbody u.
    assert (H2 : (0 <= u * u)%Q) by nra. nra. }
  repeat split.
  - lra.
  - lra.
  - lra.
  - intros H. destruct (clamp01_cases t) as [[? ->]|[[? ->]|[? ->]]];
      try lra. 
  - intros H. destruct (clamp01_cases t) as [[? ->]|[[? ->]|[? ->]]];
      try lra.
  - intros H. specialize (Hm H).
    pose proof (Hc (1 - clamp01 t')%Q (1 - clamp01 t)%Q) as Hcc.
    lra.
Qed.

Lemma luminance_nonneg (r g b : Z) :
  0 <= r -> 0 <= g -> 0 <= b ->
  (0 <= 0.2126 * Float.of_int r + 0.7152 * Float.of_int g
        + 0.0722 * Float.of_int b)%Q.
Proof.
  intros Hr Hg Hb. unfold Float.of_int.
  rewrite Zle_Qle in Hr, Hg, Hb. change (inject_Z 0) with 0%Q in *.
  set (x := inject_Z r) in *. set (y := inject_Z g) in *.
  set (z := inject_Z b) in *. clearbody x y z. lra.
Qed.

(** X27.  [readable_text_color] answers opaque white or opaque black, white
    on black and black on white, and a background that is at least as
    bright in every channel as one that gets black text gets black text
    too. *)
Theorem readable_text_color_contrast (bg bg' : SDL_Color) :
  (readable_text_color bg = mkColor 255 255 255 255 \/
   readable_text_color bg = mkColor 0 0 0 255) /\
  (0 <= cr bg <= cr bg' -> 0 <= cg bg <= cg bg' -> 0 <= cb bg <= cb bg' ->
   readable_text_color bg = mkColor 0 0 0 255 ->
   readable_text_color bg' = mkColor 0 0 0 255) /\
  readable_text_color (mkColor 0 0 0 (ca bg)) = mkColor 255 255 255 255 /\
  readable_text_color (mkColor 255 255 255 (ca bg)) = mkColor 0 0 0 255.
Proof.
  split; [|split; [|split; reflexivity]].
  - unfold readable_text_color. cbv zeta.
    destruct (_ <? 120); [now left | now right].
  - intros [Hr Hr'] [Hg Hg'] [Hb Hb']. unfold readable_text_color. cbv zeta.
    rewrite !to_int_nonneg by (apply luminance_nonneg; lia).
    assert (Hle : (0.2126 * Float.of_int (cr bg) + 0.7152 * Float.of_int (cg bg)
                   + 0.0722 * Float.of_int (cb bg)
                   <= 0.2126 * Float.of_int (cr bg')
                      + 0.7152 * Float.of_int (cg bg')
                      + 0.0722 * Float.of_int (cb bg'))%Q).
    { unfold Float.of_int. rewrite Zle_Qle in Hr', Hg', Hb'.
      set (x := inject_Z (cr bg)) in *. set (y := inject_Z (cg bg)) in *.
      set (z := inject_Z (cb bg)) in *. set (x' := inject_Z (cr bg')) in *.
      set (y' := inject_Z (cg bg')) in *. set (z' := inject_Z (cb bg')) in *.
      clearbody x y z x' y' z'. lra. }
    apply Qfloor_resp_le in Hle.
    destruct (Z.ltb_spec (Qfloor (0.2126 * Float.of_int (cr bg)
                                  + 0.7152 * Float.of_int (cg bg)
                                  + 0.0722 * Float.of_int (cb bg))) 120);
      [discriminate|].
    intros _.
    destruct (Z.ltb_spec (Qfloor (0.2126 * Float.of_int (cr bg')
                                  + 0.7152 * Float.of_int (cg bg')
                                  + 0.0722 * Float.of_int (cb bg'))) 120);
      [lia | reflexivity].
Qed.

Lemma wrap_range (x : Q) (n : Z) :
  0 < n ->
  (0 <= (if Float.ltb (Float.fmod x (Float.of_int n)) 0
         then Float.fmod x (Float.of_int n) + Float.of_int n
         else Float.fmod x (Float.of_int n)) < Float.of_int n)%Q.
Proof.
  intros Hn.
  assert (Hpos : (0 < Float.of_int n)%Q)
    by (unfold Float.of_int; change 0%Q with (inject_Z 0);
        now rewrite <- Zlt_Qlt).
  rewrite (fmod_corrected (Float.of_int n) Hpos).
  now apply floor_mod_range.
Qed.

(** X28.  The background section of [frame] keeps each sprite offset inside
    the window along an axis whose reported size is positive, whatever the
    offset and the tick were, and keeps the rotation inside [0, 360) degrees
    when it was there and the tick is shorter than six seconds. *)
Theorem frame_background_bounds (dt : Q) (winW winH : Z) (b : Background) :
  let b' := frame_background dt winW winH b in
  (0 < winW -> (0 <= bg_waka_offset_x b' < Float.of_int winW)%Q) /\
  (0 < winH -> (0 <= bg_waka_offset_y b' < Float.of_int winH)%Q) /\
  ((0 <= bg_waka_angle_deg b < 360)%Q -> (-6 <= dt < 6)%Q ->
   (0 <= bg_waka_angle_deg b' < 360)%Q).
Proof.
  intros b'. subst b'. unfold frame_background. cbv zeta.
  cbn [bg_waka_offset_x bg_waka_offset_y bg_waka_angle_deg].
  repeat split.
  - destruct (Z.ltb_spec 0 winW); [|lia]. now apply wrap_range.
  - destruct (Z.ltb_spec 0 winW); [|lia]. now apply wrap_range.
  - destruct (Z.ltb_spec 0 winH); [|lia]. now apply wrap_range.
  - destruct (Z.ltb_spec 0 winH); [|lia]. now apply wrap_range.
  - destruct H as [Ha Ha']. destruct H0 as [Hd Hd'].
    destruct (Float.leb 360 (bg_waka_angle_deg b + 60 * dt)) eqn:E1.
    + apply leb_true_iff in E1. lra.
    + apply leb_false_iff in E1.
      destruct (Float.ltb (bg_waka_angle_deg b + 60 * dt) 0) eqn:E2.
      * apply ltb_true_iff in E2. lra.
      * apply ltb_false_iff in E2. lra.
  - destruct H as [Ha Ha']. destruct H0 as [Hd Hd'].
    destruct (Float.leb 360 (bg_waka_angle_deg b + 60 * dt)) eqn:E1.
    + apply leb_true_iff in E1. lra.
    + apply leb_false_iff in E1.
      destruct (Float.ltb (bg_waka_angle_deg b + 60 * dt) 0) eqn:E2.
      * apply ltb_true_iff in E2. lra.
      * apply ltb_false_iff in E2. lra.
Qed.

(** ** The winner announced *)

(** X29.  The winner announced is the entry under the pointer: when a tick
    brings a spinning wheel to rest (no reset hold running, somebody on the
    wheel), the registry is as before, the winner index is
    [pointer_slice_index] of the final angle, the banner is switched on, and
    its name and colour are those of the registry entry at that index. *)
Theorem frame_announces_pointer_entry (cfg : TwitchConfig) (dt : Q)
    (w : World) :
  spinning (app w) = true ->
  reset_hold_active (app w) = false ->
  entries (app w) <> [] ->
  let a' := app (frame cfg dt w) in
  let n := Z.of_nat (List.length (entries a')) in
  spinning a' = false ->
  entries a' = entries (app w) /\
  winner_index a' = pointer_slice_index (current_angle a') n /\
  celebration_active a' = true /\
  exists e,
    nth_error (entries a') (Z.to_nat (winner_index a')) = Some e /\
    celebration_name a' = name e /\ celebration_color a' = color e.
Proof.
  intros Hspin Hoff Hne. cbv zeta. rewrite frame_unfold.
  unfold frame_hold. rewrite Hoff.
  set (es := entries (app w)). set (n := Z.of_nat (List.length es)).
  assert (Hn : 1 <= n).
  { subst n es. destruct (entries (app w)); [congruence | cbn; lia]. }
  change (app (with_app (frame_tail es n dt) w))
    with (frame_tail es n dt (app w)).
  pose proof (frame_tail_untouched es n dt (app w)) as Hu. cbv zeta in Hu.
  destruct Hu as (Hes & _). rewrite Hes. fold es. fold n.
  intros Hstop. split; [reflexivity|].
  revert Hstop. subst es. destruct (app w) as
    [es0 ang vel sp wi fr fe ca ct cn cc sf ha he hs au jo ti].
  cbn [entries spinning] in *. subst sp.
  unfold frame_tail, frame_physics.
  cbn [spinning andb current_angle angular_velocity spin_friction set_angle
       set_velocity set_spinning].
  destruct (Z.ltb_spec 0 n) as [_ | Hbad]; [|lia].
  set (angle' := advance_angle ang vel dt).
  destruct (pointer_slice_index_floor angle' n Hn) as [_ Hidx].
  destruct (Float.leb (vel - Float.max 0 sf * dt) 0).
  - destruct (Z.leb_spec 0 (pointer_slice_index angle' n)); [|lia].
    destruct (Z.ltb_spec (pointer_slice_index angle' n) n); [|lia].
    cbn [andb]. intros _.
    unfold frame_celebration, frame_flash.
    cbn. 
    assert (Hnth : exists e, nth_error es0
                     (Z.to_nat (pointer_slice_index angle' n)) = Some e /\
                   nth (Z.to_nat (pointer_slice_index angle' n)) es0
                     (mkEntry "" (mkColor 0 0 0 0)) = e).
    { destruct (nth_error es0 (Z.to_nat (pointer_slice_index angle' n)))
        as [e|] eqn:E.
      - exists e. split; [reflexivity|]. now apply nth_error_nth.
      - apply nth_error_None in E. subst n. lia. }
    destruct Hnth as (e & He & Hd). rewrite Hd.
    break_ifs; cbn; (split; [reflexivity|]); (split; [reflexivity|]);
      exists e; auto.
  - unfold frame_celebration, frame_flash. cbn.
    break_ifs; cbn; discriminate.
Qed.

(** The four-second tick that ends the sample spin. *)
Lemma frame_announces_pointer_entry_witness :
  entries (app (frame host_cfg 4 spun)) = entries (app spun) /\
  winner_index (app (frame host_cfg 4 spun))
    = pointer_slice_index (current_angle (app (frame host_cfg 4 spun)))
        (Z.of_nat (List.length (entries (app (frame host_cfg 4 spun))))) /\
  celebration_active (app (frame host_cfg 4 spun)) = true /\
  exists e,
    nth_error (entries (app (frame host_cfg 4 spun)))
      (Z.to_nat (winner_index (app (frame host_cfg 4 spun)))) = Some e /\
    celebration_name (app (frame host_cfg 4 spun)) = name e /\
    celebration_color (app (frame host_cfg 4 spun)) = color e.
Proof.
  apply (frame_announces_pointer_entry host_cfg 4 spun).
  - reflexivity.
  - reflexivity.
  - discriminate.
  - vm_compute. reflexivity.
Defined.

(** ** The countdown timer is never called *)

Lemma add_player_timer (nm : string) (w : World) :
  timer (app (add_player nm w)) = timer (app w).
Proof.
  unfold add_player. destruct (add_player_if_new _ _ _).
  open_world w. reflexivity.
Qed.

Lemma handle_spin_or_reset_timer (cfg : TwitchConfig) (w : World) :
  timer (app (handle_spin_or_reset cfg w)) = timer (app w).
Proof.
  destruct (handle_spin_or_reset_cases cfg w) as
    [[Hwin _] | [(_ & _ & ->) | (_ & _ & ->)]].
  - unfold handle_spin_or_reset. rewrite Hwin.
    destruct (negb (Str.empty (nick cfg)));
      [rewrite add_player_timer|]; open_world w; reflexivity.
  - apply start_spin_frame.
  - reflexivity.
Qed.

Lemma frame_timer (cfg : TwitchConfig) (dt : Q) (w : World) :
  timer (app (frame cfg dt w)) = timer (app w).
Proof.
  rewrite frame_unfold.
  set (es := entries (app w)). set (n := Z.of_nat (List.length es)).
  pose proof (frame_tail_untouched es n dt (app (frame_hold cfg dt w))) as Hu.
  cbv zeta in Hu. destruct Hu as (_ & _ & Ht & _).
  change (app (with_app (frame_tail es n dt) (frame_hold cfg dt w)))
    with (frame_tail es n dt (app (frame_hold cfg dt w))).
  rewrite Ht.
  assert (Hh : forall act el src,
            timer (app (with_app (set_hold act el src) w)) = timer (app w))
    by (intros; open_world w; reflexivity).
  unfold frame_hold.
  destruct (reset_hold_active (app w)); [|reflexivity].
  destruct (negb (winner_showing (app w))); [apply Hh|].
  destruct (Float.leb 1 (B32.add (reset_hold_elapsed (app w)) dt)).
  - rewrite handle_spin_or_reset_timer. apply Hh.
  - apply Hh.
Qed.

Lemma poll_event_timer (b : Build) (cfg : TwitchConfig) (e : SDL_Event)
    (w : World) :
  timer (app (poll_event b cfg e w)) = timer (app w).
Proof.
  destruct (poll_event_cases b cfg e w) as
    [-> | [(_ & _ & ->) | [(src & -> & _) | [(src & _ & ->) | ->]]]].
  - reflexivity.
  - apply start_spin_frame.
  - open_world w. unfold begin_hold. simpl. break_ifs; reflexivity.
  - open_world w. unfold release_hold. simpl. break_ifs; reflexivity.
  - open_world w. reflexivity.
Qed.

Lemma run_op_timer (cfg : TwitchConfig) (op : Op) (w : World) :
  timer (app (run_op cfg op w)) = timer (app w).
Proof.
  destruct op as [dt | b e | line | user | |]; cbn [run_op].
  - apply frame_timer.
  - apply poll_event_timer.
  - destruct (handle_irc_line_cases line w) as [-> | [[r ->] | [_ ->]]].
    + reflexivity.
    + reflexivity.
    + apply add_player_timer.
  - unfold wheel_join. destruct user as [u|]; [|reflexivity].
    destruct (Str.empty u); [reflexivity|].
    destruct (_ || _); [apply add_player_timer | reflexivity].
  - unfold wheel_reset.
    destruct (negb (Str.empty (nick cfg)));
      [rewrite add_player_timer|]; open_world w; reflexivity.
  - destruct (wheel_spin_cases w) as [[_ ->] | [_ ->]]; [|reflexivity].
    apply start_spin_frame.
Qed.

(** X30.  No operation the program performs calls the countdown timer: over
    any run of ticks, input events, chat lines and entry-point calls the
    trace of timer calls stays as it was, so from the initial state no
    [Start] is ever issued; [set_join_open], the only caller of the timer,
    is called from nowhere. *)
Theorem timer_never_called (cfg : TwitchConfig) (ops : list Op) (w : World) :
  timer (app (run_ops cfg ops w)) = timer (app w) /\
  (forall idx r,
     issued TimerStart
       (timer (app (run_ops cfg ops (mkWorld app_init idx r [])))) = 0%nat).
Proof.
  assert (H : forall w0, timer (app (run_ops cfg ops w0)) = timer (app w0)).
  { induction ops as [|op ops IH]; intros w0; cbn [run_ops];
      [reflexivity|].
    rewrite IH. apply run_op_timer. }
  split; [apply H|].
  intros idx r. rewrite H. reflexivity.
Qed.
